(** * CPT viewer: soil classifier, format parsers and chart viewport

    A shallow embedding of the JavaScript sources of the CPT viewer
    ([Robertson], [GefParser], [BroXmlParser], [CptChart]) together with the
    properties of them that the specification states.

    Conventions of the embedding.
    - A JavaScript number is [NaN], an infinity, or a rational [Q]: every
      finite double is a rational, and comparisons against the literals of
      the sources are exact.  [parseFloat] rounds the value of a literal to
      the nearest double, and to an infinity beyond the range of the
      doubles; so does [parseInt], and the subtraction of one from its
      result.  The arithmetic on measurements, depths and pixels is the
      exact one (no rounding, no overflow).
    - [undefined] is the absence of a key in a [gmap]; [null] is [Null].
    - A row (a JS object written by key) is a [gmap string value].
    - Text is a [string] of single-byte characters. *)

From Stdlib Require Import QArith Qpower Qabs Qround Lqa ZArith List Bool Ascii.
From stdpp Require Import gmap strings list fin_maps pretty sorting.

Local Open Scope Q_scope.

(** ** Part I: the embedding *)

(** Values stored in rows and handed to the classifier: an explicit
    [null], [NaN], a finite number, or an infinity ([Inf true] is
    [-Infinity]). *)
Inductive value : Type :=
  | Null : value
  | NaN  : value
  | Num  : Q -> value
  | Inf  : bool -> value.

(** A property read on an object: [None] is [undefined]. *)
Abbreviation jsval := (option value).

(** [ToNumber], when the result is finite: [null] converts to [0];
    [None] stands for [NaN] and for the infinities. *)
Definition to_number (v : value) : option Q :=
  match v with
  | Null => Some 0
  | NaN => None
  | Num q => Some q
  | Inf _ => None
  end.

(** [x < y] on numbers, as a boolean. *)
Definition Qltb (x y : Q) : bool := negb (Qle_bool y x).

(** The relational operators of JavaScript against a numeric literal: a
    comparison with [NaN] is false, [-Infinity] is below and [Infinity]
    above every literal. *)
Definition js_lt (v : value) (c : Q) : bool :=
  match v with
  | Inf neg => neg
  | _ => match to_number v with Some q => Qltb q c | None => false end
  end.
Definition js_le (v : value) (c : Q) : bool :=
  match v with
  | Inf neg => neg
  | _ => match to_number v with Some q => Qle_bool q c | None => false end
  end.
Definition js_gt (v : value) (c : Q) : bool :=
  match v with
  | Inf neg => negb neg
  | _ => match to_number v with Some q => Qltb c q | None => false end
  end.

(** [a === b] on two numbers: [NaN] equals nothing. *)
Definition num_eqb (a b : value) : bool :=
  match a, b with
  | Num x, Num y => Qeq_bool x y
  | Inf s, Inf t => Bool.eqb s t
  | _, _ => false
  end.

(** Results of the parsers: a value or a thrown [Error]. *)
Inductive result (A : Type) : Type :=
  | Ok : A -> result A
  | Error : string -> result A.
Arguments Ok {A} _.
Arguments Error {A} _.

Module Robertson.

Record SoilZone := mkZone { zone : Z; name : string; color : string }.

Definition ROBERTSON_ZONES : list SoilZone :=
  [ mkZone 1 "Gevoelig fijnkorrelig"  "#00BCD4";
    mkZone 2 "Organisch / veen"       "#795548";
    mkZone 3 "Klei"                   "#4CAF50";
    mkZone 4 "Silt mengsels"          "#8BC34A";
    mkZone 5 "Zand mengsels"          "#FFC107";
    mkZone 6 "Zand"                   "#FF9800";
    mkZone 7 "Grof zand / grind"      "#FF5722";
    mkZone 8 "Zeer vast zand/klei"    "#F44336";
    mkZone 9 "Zeer vast fijnkorrelig" "#9C27B0" ].

(** [ROBERTSON_ZONES[i]]: [None] when out of range. *)
Definition zone_at (i : nat) : option SoilZone := nth_error ROBERTSON_ZONES i.

(** [Robertson.classify(qc, rf)]; the result [None] is [null]. *)
Definition classify (qc rf : jsval) : option SoilZone :=
  match qc, rf with
  | None, _ | Some Null, _ | _, None | _, Some Null => None
  | Some qc, Some rf =>
      if js_le qc 0 || js_lt rf 0 then None
      else if js_gt qc 25 then
        if js_lt rf 1 then zone_at 6 else zone_at 7
      else if js_gt qc 10 then
        if js_lt rf (1#2) then zone_at 6
        else if js_lt rf (3#2) then zone_at 5
        else if js_lt rf 3 then zone_at 4
        else zone_at 7
      else if js_gt qc 5 then
        if js_lt rf 1 then zone_at 5
        else if js_lt rf 2 then zone_at 4
        else if js_lt rf 4 then zone_at 3
        else if js_lt rf 6 then zone_at 2
        else zone_at 8
      else if js_gt qc 2 then
        if js_lt rf 1 then zone_at 4
        else if js_lt rf (5#2) then zone_at 3
        else if js_lt rf 5 then zone_at 2
        else if js_lt rf 8 then zone_at 1
        else zone_at 0
      else if js_gt qc (1#2) then
        if js_lt rf (3#2) then zone_at 3
        else if js_lt rf 4 then zone_at 2
        else if js_lt rf 8 then zone_at 1
        else zone_at 0
      else
        if js_lt rf 5 then zone_at 2
        else if js_lt rf 10 then zone_at 1
        else zone_at 0
  end.

(** *** classifyDataset *)

(** [Math.abs(v)]; [Math.abs(null)] is [0]. *)
Definition Math_abs (v : value) : value :=
  match v with
  | Inf _ => Inf false
  | _ => match to_number v with
         | Some q => Num (Qabs q)
         | None => NaN
         end
  end.

(** The objects [{ depth, zone }]; [D] is the type of the depth field. *)
Record Point (D : Type) := mkPoint { depth : D; pzone : option SoilZone }.
Arguments mkPoint {D} _ _.
Arguments depth {D} _.
Arguments pzone {D} _.

(** The callback of [data.filter]. *)
Definition has_depth (row : gmap string value) : bool :=
  let d := match row !! "depth" with
           | Some v => Some v
           | None => row !! "length"
           end in
  match d with
  | Some Null | None => false
  | Some _ => true
  end.

(** The callback of [.map]. *)
Definition to_point (row : gmap string value) : Point jsval :=
  let depth := match row !! "depth" with
               | Some v => Some (Math_abs v)
               | None => row !! "length"
               end in
  mkPoint depth (classify (row !! "qc") (row !! "rf")).

Definition classifyDataset (data : list (gmap string value)) : list (Point jsval) :=
  map to_point (List.filter has_depth data).

(** *** mergeLayers *)

(** A [ClassifiedPoint] of the data model: the depth is a number. *)
Abbreviation ClassifiedPoint := (Point Q).

Record Layer := mkLayer { startDepth : Q; endDepth : Q; lzone : SoilZone }.

(** [Array.prototype.sort] with a comparator is a stable sort; [le a b]
    stands for [cmp(a, b) <= 0].  For a comparator that is a total
    preorder the result of a stable sort is unique, so the insertion sort
    below computes it. *)
Section StableSort.
Context {A : Type} (le : A -> A -> bool).

Fixpoint insert_sorted (x : A) (l : list A) : list A :=
  match l with
  | [] => [x]
  | y :: l' => if le x y then x :: y :: l' else y :: insert_sorted x l'
  end.

Definition stable_sort (l : list A) : list A :=
  fold_right insert_sorted [] l.
End StableSort.

(** [classifications.filter(c => c.zone !== null)]; the zone of a kept
    point is read without its option. *)
Definition valid_points (classifications : list ClassifiedPoint) : list (Q * SoilZone) :=
  omap (fun c => match pzone c with
                 | Some z => Some (depth c, z)
                 | None => None
                 end) classifications.

(** [(a, b) => a.depth - b.depth], as [cmp(a, b) <= 0]. *)
Definition by_depth (a b : Q * SoilZone) : bool := Qle_bool (fst a) (fst b).

(** The first loop: [current] is the layer being grown, the result is
    [layers] after the final [push]. *)
Fixpoint build_layers (current : Layer) (valid : list (Q * SoilZone)) : list Layer :=
  match valid with
  | [] => [current]
  | v :: valid' =>
      if Z.eqb (zone (snd v)) (zone (lzone current))
      then build_layers (mkLayer (startDepth current) (fst v) (lzone current)) valid'
      else current :: build_layers (mkLayer (fst v) (fst v) (snd v)) valid'
  end.

(** The second loop.  [merged] is kept in reverse, so that its last
    element is the head.  The layer objects of [merged] are shared with
    [layers], but a layer is only written to after it was read. *)
Fixpoint absorb_thin (minThickness : Q) (merged : list Layer) (layers : list Layer) : list Layer :=
  match layers with
  | [] => rev merged
  | l :: layers' =>
      let thickness := endDepth l - startDepth l in
      match merged with
      | last :: before =>
          if Qltb thickness minThickness
          then absorb_thin minThickness (mkLayer (startDepth last) (endDepth l) (lzone last) :: before) layers'
          else absorb_thin minThickness (l :: merged) layers'
      | [] => absorb_thin minThickness [l] layers'
      end
  end.

Definition mergeLayers (classifications : list ClassifiedPoint) (minThickness : Q) : list Layer :=
  match stable_sort by_depth (valid_points classifications) with
  | [] => []
  | v0 :: valid =>
      let layers := build_layers (mkLayer (fst v0) (fst v0) (snd v0)) valid in
      match layers with
      | l0 :: (_ :: _) as rest =>
          if Qltb 0 minThickness then absorb_thin minThickness [l0] rest else layers
      | _ => layers
      end
  end.

(** *** computeDistribution *)

Record DistributionEntry := mkEntry { dzone : SoilZone; thickness : Q; percentage : Q }.

(** The body of the loop over the layers: the state is [totals] and
    [totalThickness]. *)
Definition add_layer (st : gmap Z Q * Q) (layer : Layer) : gmap Z Q * Q :=
  let t := endDepth layer - startDepth layer in
  if Qle_bool t 0 then st
  else
    let z := zone (lzone layer) in
    (<[z := default 0 (fst st !! z) + t]> (fst st), snd st + t).

(** [(a, b) => b.percentage - a.percentage], as [cmp(a, b) <= 0]. *)
Definition by_percentage_desc (a b : DistributionEntry) : bool :=
  Qle_bool (percentage b) (percentage a).

Definition computeDistribution (layers : list Layer) : list DistributionEntry :=
  match layers with
  | [] => []
  | _ =>
      let st := fold_left add_layer layers (∅, 0) in
      let totals := fst st in
      let totalThickness := snd st in
      if Qeq_bool totalThickness 0 then []
      else
        stable_sort by_percentage_desc
          (List.filter (fun d => Qltb 0 (percentage d))
             (map (fun z => mkEntry z (default 0 (totals !! zone z))
                              (default 0 (totals !! zone z) / totalThickness * 100))
                  ROBERTSON_ZONES))
  end.

End Robertson.


(** ** Strings and the built-in functions on them *)

Module JsString.

(** White space of [String.prototype.trim] and of [\s], among the
    single-byte characters (the last one is the no-break space). *)
Definition is_space (c : ascii) : bool :=
  match c with
  | "009" | "010" | "011" | "012" | "013" | " " | "160" => true
  | _ => false
  end%char.

Fixpoint trimStart (s : string) : string :=
  match s with
  | String c s' => if is_space c then trimStart s' else s
  | EmptyString => EmptyString
  end.

Definition trimEnd (s : string) : string := String.rev (trimStart (String.rev s)).

Definition trim (s : string) : string := trimEnd (trimStart s).

(** [s.startsWith(c)] for a one-character string. *)
Definition startsWith (s : string) (c : ascii) : bool :=
  match s with
  | String c' _ => if decide (c' = c) then true else false
  | EmptyString => false
  end.

(** [s.split(sep)] for a non-empty separator string: [skip] counts the
    characters of a matched separator that are still to be dropped and
    [cur] is the current piece, reversed. *)
Fixpoint split_go (sep : string) (skip : nat) (cur : string) (s : string) : list string :=
  match s with
  | EmptyString => [String.rev cur]
  | String c s' =>
      match skip with
      | S k => split_go sep k cur s'
      | O =>
          if String.prefix sep s
          then String.rev cur :: split_go sep (String.length sep - 1) EmptyString s'
          else split_go sep 0 (String c cur) s'
      end
  end.

Definition split (sep : string) (s : string) : list string :=
  split_go sep 0 EmptyString s.

(** [s.split(/\s+/)]: [run] tells that the previous character was white
    space. *)
Fixpoint split_ws_go (run : bool) (cur : string) (s : string) : list string :=
  match s with
  | EmptyString => [String.rev cur]
  | String c s' =>
      if is_space c
      then (if run then split_ws_go true cur s'
            else String.rev cur :: split_ws_go true EmptyString s')
      else split_ws_go false (String c cur) s'
  end.

Definition split_ws (s : string) : list string := split_ws_go false EmptyString s.

(** [text.replace(/\r\n/g, '\n')] and [text.replace(/\r/g, '\n')]. *)
Fixpoint replace_crlf (s : string) : string :=
  match s with
  | EmptyString => EmptyString
  | String c s' =>
      match s' with
      | String c' s'' =>
          if decide (c = "013"%char /\ c' = "010"%char)
          then String "010"%char (replace_crlf s'')
          else String c (replace_crlf s')
      | EmptyString => String c EmptyString
      end
  end.

Fixpoint replace_cr (s : string) : string :=
  match s with
  | EmptyString => EmptyString
  | String c s' =>
      String (if decide (c = "013"%char) then "010"%char else c) (replace_cr s')
  end.

(** [\w] *)
Definition is_word (c : ascii) : bool :=
  let n := nat_of_ascii c in
  ((48 <=? n) && (n <=? 57)) || ((65 <=? n) && (n <=? 90))
  || ((97 <=? n) && (n <=? 122)) || (n =? 95).

(** The longest prefix of word characters and what follows it. *)
Fixpoint span_word (s : string) : string * string :=
  match s with
  | String c s' =>
      if is_word c then let '(w, r) := span_word s' in (String c w, r)
      else (EmptyString, s)
  | EmptyString => (EmptyString, EmptyString)
  end.

(** [s.toUpperCase()] on the letters [a]-[z]. *)
Definition upper (c : ascii) : ascii :=
  let n := nat_of_ascii c in
  if (97 <=? n) && (n <=? 122) then ascii_of_nat (n - 32) else c.

Fixpoint toUpperCase (s : string) : string :=
  match s with
  | String c s' => String (upper c) (toUpperCase s')
  | EmptyString => EmptyString
  end.

Definition lower (c : ascii) : ascii :=
  let n := nat_of_ascii c in
  if (65 <=? n) && (n <=? 90) then ascii_of_nat (n + 32) else c.

Fixpoint toLowerCase (s : string) : string :=
  match s with
  | String c s' => String (lower c) (toLowerCase s')
  | EmptyString => EmptyString
  end.

(** The longest prefix of decimal digits: its value continuing [acc], the
    number of digits, and the rest. *)
Fixpoint digits (acc : Z) (n : nat) (s : string) : Z * nat * string :=
  match s with
  | String c s' =>
      match Ascii.is_nat c with
      | Some d => digits (10 * acc + Z.of_nat d) (S n) s'
      | None => (acc, n, s)
      end
  | EmptyString => (acc, n, s)
  end.

(** An optional sign: [-1] or [1], and the rest. *)
Definition sign (s : string) : Z * string :=
  match s with
  | String "-"%char s' => ((-1)%Z, s')
  | String "+"%char s' => (1%Z, s')
  | _ => (1%Z, s)
  end.

(** The exponent part [e[+-]ddd] of a decimal literal; [0] when there is
    none. *)
Definition exponent (s : string) : Z :=
  match s with
  | String c s' =>
      if decide (c = "e"%char \/ c = "E"%char)
      then let '(sg, s1) := sign s' in
           let '(v, n, _) := digits 0 0 s1 in
           match n with
           | O => 0%Z
           | S _ => (sg * v)%Z
           end
      else 0%Z
  | EmptyString => 0%Z
  end.

(** [m * 10^e] *)
Definition scale10 (m e : Z) : Q :=
  if (0 <=? e)%Z then inject_Z (m * 10 ^ e)
  else Qmake m (Z.to_pos (10 ^ (- e))).

(** [2^e] *)
Definition pow2 (e : Z) : Q :=
  if (0 <=? e)%Z then inject_Z (2 ^ e) else 1 # Z.to_pos (2 ^ (- e)).

(** For [a > 0], the exponent [e] with [2^e <= a < 2^(e+1)]. *)
Definition binary_exponent (a : Q) : Z :=
  let k := (Z.log2 (Qnum a) - Z.log2 (Zpos (Qden a)))%Z in
  if Qle_bool (pow2 k) a then k else (k - 1)%Z.

(** The Number value of the rational [x]: the double nearest to it
    (round to nearest, ties to even, with the subnormal numbers), or an
    infinity when that is out of range.  A number that is a double is
    returned as it is. *)
Definition round_double (x : Q) : value :=
  if Qeq_bool x 0 then Num x
  else
    let a := Qabs x in
    let e := binary_exponent a in
    if (1024 <=? e)%Z then Inf (Qltb x 0)
    else
      let p := (Z.max e (-1022) - 52)%Z in
      let n := a / pow2 p in
      let f := Qfloor n in
      let r := n - inject_Z f in
      if Qeq_bool r 0 then Num x
      else
        let m := if Qltb r (1 # 2) then f
                 else if Qltb (1 # 2) r then (f + 1)%Z
                 else if Z.even f then f else (f + 1)%Z in
        if ((m =? 2 ^ 53) && (p =? 971))%Z then Inf (Qltb x 0)
        else Num ((if Qltb x 0 then - 1 else 1) * (inject_Z m * pow2 p)).

(** [parseInt(s, 10)]: the Number value of the longest prefix of [s],
    after leading white space, that is a signed string of digits; [NaN]
    when there is no digit. *)
Definition parseInt (s : string) : value :=
  let '(sg, s1) := sign (trimStart s) in
  let '(v, n, _) := digits 0 0 s1 in
  match n with
  | O => NaN
  | S _ => round_double (inject_Z (sg * v))
  end.

(** [x - 1] on a result of [parseInt]. *)
Definition minus_one (x : value) : value :=
  match x with
  | Num q => round_double (q - 1)
  | _ => x
  end.

(** The number [x] as a property key, when it is an integer: the key of
    [NaN], of an infinity or of a fraction is a name that no integer
    index reads. *)
Definition integer_key (x : value) : option Z :=
  match x with
  | Num q => if Qeq_bool (inject_Z (Qfloor q)) q then Some (Qfloor q) else None
  | _ => None
  end.

(** [parseFloat(s)]: the longest prefix of [s], after leading white
    space, that is a decimal literal or a signed [Infinity]; the result is
    [NaN] when there is none. *)
Definition parseFloat (s : string) : value :=
  let '(sg, s1) := sign (trimStart s) in
  if String.prefix "Infinity" s1 then Inf (sg <? 0)%Z
  else
    let '(i, ni, s2) := digits 0 0 s1 in
    let '(m, nf, s3) :=
      match s2 with
      | String "."%char s2' =>
          let '(m, nf, s3) := digits i 0 s2' in
          match ni, nf with
          | O, O => (i, O, s2)
          | _, _ => (m, nf, s3)
          end
      | _ => (i, O, s2)
      end in
    match ni, nf with
    | O, O => NaN
    | _, _ => round_double (scale10 (sg * m) (exponent s3 - Z.of_nat nf))
    end.

(** [parseFloat(x)] where [x] may be [undefined]. *)
Definition parseFloat_opt (x : option string) : value :=
  match x with
  | Some s => parseFloat s
  | None => NaN
  end.

End JsString.

(** ** The canonical rows and the derived friction ratio *)

Module FormatRecord.

(** [v === null], [v === 0] for a property read on a row. *)
Definition is_null (v : jsval) : bool :=
  match v with Some Null => true | _ => false end.

Definition is_zero (v : jsval) : bool :=
  match v with Some (Num q) => Qeq_bool q 0 | _ => false end.

(** [ToNumber] of a property read, when the result is finite:
    [undefined] converts to [NaN]. *)
Definition number_of (v : jsval) : option Q :=
  match v with Some x => to_number x | None => None end.

Definition of_number (o : option Q) : value :=
  match o with Some q => Num q | None => NaN end.

(** [-v] *)
Definition js_neg (v : jsval) : value :=
  match v with
  | Some (Inf neg) => Inf (negb neg)
  | _ => of_number (Qopp <$> number_of v)
  end.

(** [(fs / qc) * 100]; used where [qc] is known not to be [0].  An
    infinity over an infinity is [NaN], an infinity over a finite number
    is an infinity, and a finite number over an infinity is [0]. *)
Definition ratio100 (fs qc : jsval) : value :=
  match fs, qc with
  | Some (Inf _), Some (Inf _) => NaN
  | Some (Inf neg), _ =>
      match number_of qc with
      | Some q => Inf (xorb neg (Qltb q 0))
      | None => NaN
      end
  | _, Some (Inf _) =>
      match number_of fs with
      | Some _ => Num 0
      | None => NaN
      end
  | _, _ =>
      match number_of fs, number_of qc with
      | Some f, Some q => Num (f / q * 100)
      | _, _ => NaN
      end
  end.

(** The body of the loop that fills [row.rf], the same in both parsers. *)
Definition derive_rf (row : gmap string value) : gmap string value :=
  if negb (is_null (row !! "qc")) && negb (is_null (row !! "fs"))
     && negb (is_zero (row !! "qc"))
  then <["rf" := ratio100 (row !! "fs") (row !! "qc")]> row
  else <["rf" := Null]> row.

(** The invariant of the data model: every row has an entry, possibly
    [null], for every key of the columns. *)
Definition rows_have_keys (keys : list string) (data : list (gmap string value)) : Prop :=
  Forall (fun row => Forall (fun k => is_Some (row !! k)) keys) data.

End FormatRecord.

(** ** Parser A: GEF text *)

Module GefParser.
Import JsString FormatRecord.

Record TypeInfo := mkTypeInfo { ti_key : string; ti_label : string; ti_unit : string }.

(** The table [GEF_COLUMN_TYPES], indexed by the type code. *)
Definition GEF_COLUMN_TYPES (t : Z) : option TypeInfo :=
  match t with
  | 1  => Some (mkTypeInfo "length"        "Sondeerlengte"          "m")
  | 2  => Some (mkTypeInfo "qc"            "Conusweerstand"         "MPa")
  | 3  => Some (mkTypeInfo "fs"            "Plaatselijke wrijving"  "MPa")
  | 4  => Some (mkTypeInfo "rf"            "Wrijvingsgetal"         "%")
  | 5  => Some (mkTypeInfo "u1"            "Waterspanning u1"       "MPa")
  | 6  => Some (mkTypeInfo "u2"            "Waterspanning u2"       "MPa")
  | 7  => Some (mkTypeInfo "u3"            "Waterspanning u3"       "MPa")
  | 8  => Some (mkTypeInfo "inclination"   "Inclinatie resultant"   "graden")
  | 9  => Some (mkTypeInfo "incl_ns"       "Inclinatie N-Z"         "graden")
  | 10 => Some (mkTypeInfo "incl_ew"       "Inclinatie O-W"         "graden")
  | 11 => Some (mkTypeInfo "depth"         "Diepte"                 "m NAP")
  | 12 => Some (mkTypeInfo "time"          "Tijd"                   "s")
  | 13 => Some (mkTypeInfo "corrected_qc"  "Gecorr. conusweerstand" "MPa")
  | 14 => Some (mkTypeInfo "net_qc"        "Netto conusweerstand"   "MPa")
  | 15 => Some (mkTypeInfo "pore_ratio"    "Poriënratio"            "-")
  | 20 => Some (mkTypeInfo "speed"         "Sondeersnelheid"        "mm/s")
  | 21 => Some (mkTypeInfo "temp"          "Temperatuur"            "°C")
  | 23 => Some (mkTypeInfo "electric_cond" "Elektrische geleidbaarheid" "S/m")
  | 39 => Some (mkTypeInfo "friction_total" "Totale wrijving"       "kN")
  | _ => None
  end%Z.

(** An entry of the array [columns] filled from the [COLUMNINFO] lines;
    [type] is [None] for [null]. *)
Record RawColumn := mkRaw { raw_unit : string; raw_name : string; raw_type : option value }.

(** The object [header] while the header lines are read: the string
    fields by keyword, the void values by column index (an index that
    is not an integer is a key that is never read and is left out), the list
    [_columns], and [_rawColumns], [None] while it is [undefined]. *)
Record Header := mkHeader {
  fields : gmap string string;
  COLUMNVOID : gmap Z value;
  _columns : list (string * string);
  _rawColumns : option (list (option RawColumn)) }.

(** [a[i] = x] on a sparse array: the array grows with holes; an index
    that is [NaN], negative or not below [2^32 - 1] names a property
    that [length] and the loops over the array do not see. *)
Definition array_set {A : Type} (a : list (option A)) (i : option Z) (x : A) : list (option A) :=
  match i with
  | Some i =>
      if ((0 <=? i) && (i <? 4294967295))%Z
      then let n := Z.to_nat i in
           if (n <? length a)%nat then <[n := Some x]> a
           else a ++ replicate (n - length a) None ++ [Some x]
      else a
  | None => a
  end.

Definition _parseHeaderLine (st : Header * list (option RawColumn))
    (keyword value : string) : Header * list (option RawColumn) :=
  let '(header, columns) := st in
  let '(header, columns) :=
    if decide (keyword = "COLUMNINFO") then
      match trim <$> split "," value with
      | p0 :: unit :: colName :: rest =>
          let colIndex := integer_key (minus_one (parseInt p0)) in
          let colType := match rest with
                         | p3 :: _ => Some (parseInt p3)
                         | [] => None
                         end in
          (header, array_set columns colIndex (mkRaw unit colName colType))
      | _ => (header, columns)
      end
    else if decide (keyword = "COLUMNSEPARATOR") then
      (mkHeader (<["COLUMNSEPARATOR" := value]> (fields header))
                (COLUMNVOID header) (_columns header) (_rawColumns header), columns)
    else if decide (keyword = "RECORDSEPARATOR") then
      (mkHeader (<["RECORDSEPARATOR" := value]> (fields header))
                (COLUMNVOID header) (_columns header) (_rawColumns header), columns)
    else if decide (keyword = "COLUMNVOID") then
      match trim <$> split "," value with
      | p0 :: p1 :: _ =>
          match integer_key (minus_one (parseInt p0)) with
          | Some i =>
              (mkHeader (fields header)
                        (<[i := parseFloat p1]> (COLUMNVOID header))
                        (_columns header) (_rawColumns header), columns)
          | None => (header, columns)
          end
      | _ => (header, columns)
      end
    else if String.prefix "COLUMN" keyword then
      (mkHeader (fields header) (COLUMNVOID header)
                (_columns header ++ [(keyword, value)]) (_rawColumns header), columns)
    else
      (mkHeader (<[keyword := value]> (fields header))
                (COLUMNVOID header) (_columns header) (_rawColumns header), columns) in
  (mkHeader (fields header) (COLUMNVOID header) (_columns header) (Some columns), columns).

(** The match of the header-line pattern: a [#], one or more word
    characters (group 1), optional white space, [=], optional white
    space, and the rest of the line (group 2). *)
Definition match_header (line : string) : option (string * string) :=
  match line with
  | String "#"%char rest =>
      let '(kw, rest1) := span_word rest in
      match kw, trimStart rest1 with
      | String _ _, String "="%char rest2 => Some (kw, trimStart rest2)
      | _, _ => None
      end
  | _ => None
  end.

Definition is_terminator (line : string) : bool :=
  if decide (line = "#EOH=" \/ line = "#EOH") then true else false.

(** The loop over the header lines: [i] is the index of the head of
    [lines]; the result carries [dataStartIndex], [None] for [-1]. *)
Fixpoint scan_header (i : nat) (st : Header * list (option RawColumn))
    (lines : list string) : Header * list (option RawColumn) * option nat :=
  match lines with
  | [] => (st, None)
  | l :: lines' =>
      let line := trim l in
      if is_terminator line then (st, Some (S i))
      else
        match match_header line with
        | None => scan_header (S i) st lines'
        | Some (kw, v) =>
            scan_header (S i) (_parseHeaderLine st (toUpperCase kw) (trim v)) lines'
        end
  end.

(** An entry of the column map.  The computed columns have no [index]. *)
Record Column := mkColumn {
  index : option nat;
  key : string;
  label : string;
  unit : string;
  type : option value;
  voidValue : option value;
  computed : bool }.

(** [col.type ? GEF_COLUMN_TYPES[col.type] : null] *)
Definition typeInfo_of (t : option value) : option TypeInfo :=
  match t with
  | Some (Num q) => if Qeq_bool q 0 then None else integer_key (Num q) ≫= GEF_COLUMN_TYPES
  | _ => None
  end.

Definition _buildColumnMap (columns : list (option RawColumn)) (header : Header) : list Column :=
  omap (fun ic : nat * option RawColumn =>
          let '(i, c) := ic in
          match c with
          | None => None
          | Some col =>
              let typeInfo := typeInfo_of (raw_type col) in
              Some (mkColumn (Some i)
                      (match typeInfo with
                       | Some t => ti_key t
                       | None => "col_" +:+ pretty (i + 1)%nat
                       end)
                      (match typeInfo with
                       | Some t => ti_label t
                       | None => raw_name col
                       end)
                      (if decide (raw_unit col = "")
                       then match typeInfo with Some t => ti_unit t | None => "" end
                       else raw_unit col)
                      (raw_type col)
                      (COLUMNVOID header !! Z.of_nat i)
                      false)
          end)
       (imap pair columns).

(** The separator regular expression: every branch of
    [_detectSeparator] for a non-empty [COLUMNSEPARATOR] matches that
    string literally. *)
Inductive Separator := Whitespace | Literal (sep : string).

Definition _detectSeparator (header : Header) : Separator :=
  match fields header !! "COLUMNSEPARATOR" with
  | Some sep => if decide (sep = "") then Whitespace else Literal sep
  | None => Whitespace
  end.

Definition split_by (separator : Separator) (line : string) : list string :=
  match separator with
  | Whitespace => split_ws line
  | Literal sep => split sep line
  end.

(** The value stored for one column of a data line. *)
Definition cell (parts : list string) (col : Column) : value :=
  match parseFloat_opt (index col ≫= (parts !!.)) with
  | NaN => Null
  | val =>
      match voidValue col with
      | Some void => if num_eqb val void then Null else val
      | None => val
      end
  end.

(** One iteration of the loop over the data lines: the row pushed, if
    any. *)
Definition parse_line (separator : Separator) (columnMap : list Column)
    (l : string) : option (gmap string value) :=
  let line := trim l in
  if decide (line = "") then None
  else if startsWith line "#" || startsWith line "!" then None
  else
    let parts := List.filter (fun s => if decide (s = "") then false else true)
                   (trim <$> split_by separator line) in
    if (length parts <? length columnMap)%nat then None
    else Some (fold_left (fun row col => <[key col := cell parts col]> row) columnMap ∅).

Definition _parseData (lines : list string) (startIndex : nat)
    (separator : Separator) (columnMap : list Column) : list (gmap string value) :=
  omap (parse_line separator columnMap) (drop startIndex lines).

Definition hasKey (columnMap : list Column) (k : string) : bool :=
  existsb (fun c => if decide (key c = k) then true else false) columnMap.

(** The body of the loop that fills [row.depth]. *)
Definition derive_depth (row : gmap string value) : gmap string value :=
  if is_null (row !! "length") then row
  else <["depth" := js_neg (row !! "length")]> row.

(** [_computeDerived] updates the rows and the column map in place; here
    it returns both. *)
Definition _computeDerived (data : list (gmap string value)) (columnMap : list Column)
    : list (gmap string value) * list Column :=
  let '(data, columnMap) :=
    if negb (hasKey columnMap "depth") && hasKey columnMap "length"
    then (derive_depth <$> data,
          columnMap ++ [mkColumn None "depth" "Diepte (berekend)" "m" None None true])
    else (data, columnMap) in
  if negb (hasKey columnMap "rf") && hasKey columnMap "qc" && hasKey columnMap "fs"
  then (derive_rf <$> data,
        columnMap ++ [mkColumn None "rf" "Wrijvingsgetal (berekend)" "%" None None true])
  else (data, columnMap).

(** The record returned by [parse].  Its [header] (the display metadata
    of [_extractMetadata]) is not modelled. *)
Record Record_ := mkRecord { columns : list Column; data : list (gmap string value) }.

Definition lines_of (text : string) : list string :=
  split (String "010"%char EmptyString) (replace_cr (replace_crlf text)).

Definition parse (text : string) : result Record_ :=
  let lines := lines_of text in
  let '(header, columns, dataStartIndex) :=
    scan_header 0 (mkHeader ∅ ∅ [] None, []) lines in
  match dataStartIndex with
  | None => Error "Geen #EOH gevonden — ongeldig GEF-bestand"
  | Some start =>
      let columnMap := _buildColumnMap columns header in
      let separator := _detectSeparator header in
      let data := _parseData lines start separator columnMap in
      let '(data, columnMap) := _computeDerived data columnMap in
      Ok (mkRecord columnMap data)
  end.

End GefParser.

(** ** Parser B: BRO XML *)

Module BroXmlParser.
Import JsString FormatRecord.

Record ColumnDef := mkDef { key : string; label : string; unit : string; paramTag : string }.

(** The fixed order of the 25 columns. *)
Definition BRO_COLUMN_ORDER : list ColumnDef :=
  [ mkDef "length"          "Sondeerlengte"              "m"      "penetrationLength";
    mkDef "depth"           "Diepte"                     "m"      "depth";
    mkDef "elapsedTime"     "Verstreken tijd"            "s"      "elapsedTime";
    mkDef "qc"              "Conusweerstand"             "MPa"    "coneResistance";
    mkDef "corrected_qc"    "Gecorr. conusweerstand"     "MPa"    "correctedConeResistance";
    mkDef "net_qc"          "Netto conusweerstand"       "MPa"    "netConeResistance";
    mkDef "mag_x"           "Magnetisch veld X"          "nT"     "magneticFieldStrengthX";
    mkDef "mag_y"           "Magnetisch veld Y"          "nT"     "magneticFieldStrengthY";
    mkDef "mag_z"           "Magnetisch veld Z"          "nT"     "magneticFieldStrengthZ";
    mkDef "mag_total"       "Magnetisch veld totaal"     "nT"     "magneticFieldStrengthTotal";
    mkDef "electric_cond"   "Elektrische geleidbaarheid" "S/m"    "electricalConductivity";
    mkDef "incl_ew"         "Inclinatie O-W"             "graden" "inclinationEW";
    mkDef "incl_ns"         "Inclinatie N-Z"             "graden" "inclinationNS";
    mkDef "incl_x"          "Inclinatie X"               "graden" "inclinationX";
    mkDef "incl_y"          "Inclinatie Y"               "graden" "inclinationY";
    mkDef "inclination"     "Inclinatie resultant"       "graden" "inclinationResultant";
    mkDef "mag_inclination" "Magnetische inclinatie"     "graden" "magneticInclination";
    mkDef "mag_declination" "Magnetische declinatie"     "graden" "magneticDeclination";
    mkDef "fs"              "Plaatselijke wrijving"      "MPa"    "localFriction";
    mkDef "pore_ratio"      "Poriënratio"                "-"      "poreRatio";
    mkDef "temp"            "Temperatuur"                "°C"     "temperature";
    mkDef "u1"              "Waterspanning u1"           "MPa"    "porePressureU1";
    mkDef "u2"              "Waterspanning u2"           "MPa"    "porePressureU2";
    mkDef "u3"              "Waterspanning u3"           "MPa"    "porePressureU3";
    mkDef "rf"              "Wrijvingsgetal"             "%"      "frictionRatio" ].

Definition BRO_VOID_VALUE : Q := - 999999.

(** What the parser reads from the CPT element through the DOM:
    the [parameters] element (the text of the child with a given tag,
    if there is one), the text of the [values] element, and the two
    attributes of the [TextEncoding] element. *)
Record CptObj := mkCpt {
  parameters : option (string -> option string);
  values : option string;
  TextEncoding : option (option string * option string) }.

Definition _parseParameters (cptObj : CptObj) : list bool :=
  match parameters cptObj with
  | None => (fun _ => true) <$> BRO_COLUMN_ORDER
  | Some paramsEl =>
      (fun col =>
         match paramsEl (paramTag col) with
         | Some text => if decide (toLowerCase (trim text) = "ja") then true else false
         | None => false
         end) <$> BRO_COLUMN_ORDER
  end.

(** An entry of [columns]; the computed column has no [index]. *)
Record Column := mkColumn {
  index : option nat;
  ckey : string;
  clabel : string;
  cunit : string;
  computed : bool }.

(** [getAttribute(name) || dflt] *)
Definition attr_or (a : option string) (dflt : string) : string :=
  match a with
  | Some v => if decide (v = "") then dflt else v
  | None => dflt
  end.

(** The value stored for one token. *)
Definition cell (token : option string) : value :=
  match parseFloat_opt token with
  | NaN => Null
  | val => if num_eqb val (Num BRO_VOID_VALUE) then Null else val
  end.

(** The body of the loop over the blocks: the row pushed, if any. *)
Definition parse_block (tokenSep : string) (block : string) : option (gmap string value) :=
  let tokens := split tokenSep (trim block) in
  if (length tokens <? 25)%nat then None
  else Some (fold_left
               (fun row i =>
                  match BRO_COLUMN_ORDER !! i with
                  | Some colDef => <[key colDef := cell (tokens !! i)]> row
                  | None => row
                  end)
               (seq 0 25) ∅).

Definition _parseData (cptObj : CptObj) (activeColumns : list bool)
    : result (list (gmap string value) * list Column) :=
  match values cptObj with
  | None => Error "Geen meetdata (cptcommon:values) gevonden in XML"
  | Some valuesText =>
      let '(tokenSep, blockSep) :=
        match TextEncoding cptObj with
        | Some (t, b) => (attr_or t ",", attr_or b ";")
        | None => (",", ";")
        end in
      let columns :=
        omap (fun ic : nat * ColumnDef =>
                let '(i, c) := ic in
                match activeColumns !! i with
                | Some true => Some (mkColumn (Some i) (key c) (label c) (unit c) false)
                | _ => None
                end)
             (imap pair BRO_COLUMN_ORDER) in
      let rawText := trim valuesText in
      let blocks := List.filter (fun b => if decide (trim b = "") then false else true)
                      (split blockSep rawText) in
      Ok (omap (parse_block tokenSep) blocks, columns)
  end.

Definition hasKey (columns : list Column) (k : string) : bool :=
  existsb (fun c => if decide (ckey c = k) then true else false) columns.

Definition _computeDerived (data : list (gmap string value)) (columns : list Column)
    : list (gmap string value) * list Column :=
  if negb (hasKey columns "rf") && hasKey columns "qc" && hasKey columns "fs"
  then (derive_rf <$> data,
        columns ++ [mkColumn None "rf" "Wrijvingsgetal (berekend)" "%" true])
  else (data, columns).

(** The result of [new DOMParser().parseFromString]: the text of a
    [parsererror] element and the CPT element, when present. *)
Record Document := mkDoc { parsererror : option string; cptObj : option CptObj }.

(** The record returned by [parse]; its [header] is not modelled. *)
Record Record_ := mkRecord { columns : list Column; data : list (gmap string value) }.

Definition parse (doc : Document) : result Record_ :=
  match parsererror doc with
  | Some msg => Error ("Ongeldig XML-bestand: " +:+ String.substring 0 200 msg)
  | None =>
      match cptObj doc with
      | None => Error "Geen CPT_O of CPT_O_DP element gevonden in XML"
      | Some cptObj =>
          let activeColumns := _parseParameters cptObj in
          match _parseData cptObj activeColumns with
          | Error msg => Error msg
          | Ok (data, columns) =>
              let '(data, columns) := _computeDerived data columns in
              Ok (mkRecord columns data)
          end
      end
  end.

End BroXmlParser.

(** ** The chart: depth extent and viewport *)

Module CptChart.
Local Open Scope Q_scope.

(** The part of the renderer state that the viewport depends on.  [W]
    and [H] are [None] until the first successful [resize]. *)
Record Chart := mkChart {
  H : option Z;
  depthMin : Q;
  depthMax : Q;
  depthViewMin : Q;
  depthViewMax : Q;
  hoverY : option Q;
  isPanning : bool;
  panStartY : Q;
  panStartDepthMin : Q;
  panStartDepthMax : Q }.

(** The state set up by the constructor. *)
Definition init : Chart := mkChart None 0 30 0 30 None false 0 0 0.

(** The vertical part of [_layout]. *)
Definition plotT : Q := 28.
Definition plotB (s : Chart) : option Q := (fun h => inject_Z h - 4) <$> H s.
Definition plotH (s : Chart) : option Q := (fun b => b - plotT) <$> plotB s.

(** [_y2d(y, L)] for a plot height [h]. *)
Definition _y2d (s : Chart) (h : Q) (y : Q) : Q :=
  depthViewMin s + ((y - plotT) / h) * (depthViewMax s - depthViewMin s).

Definition with_view (s : Chart) (lo hi : Q) : Chart :=
  mkChart (H s) (depthMin s) (depthMax s) lo hi (hoverY s)
          (isPanning s) (panStartY s) (panStartDepthMin s) (panStartDepthMax s).

(** [resize]: [w] and [h] are the floors of the measured size. *)
Definition resize (w h : Z) (s : Chart) : Chart :=
  if ((w <? 10) || (h <? 10))%Z then s
  else mkChart (Some h) (depthMin s) (depthMax s) (depthViewMin s) (depthViewMax s)
               (hoverY s) (isPanning s) (panStartY s) (panStartDepthMin s)
               (panStartDepthMax s).

(** The depth of a row in [setData]: [None] is [null]. *)
Definition row_depth (hasDepth : bool) (r : gmap string value) : option value :=
  match (if hasDepth then r !! "depth" else r !! "length") with
  | Some Null | None => None
  | Some v => Some (Robertson.Math_abs v)
  end.

(** [Math.max(...valid)] for a non-empty list of numbers; [None] is
    [NaN] or an infinity. *)
Fixpoint Math_max (m : Q) (l : list value) : option Q :=
  match l with
  | [] => Some m
  | v :: l' =>
      match to_number v with
      | Some q => Math_max (if Qle_bool m q then q else m) l'
      | None => None
      end
  end.

(** The depth extent computed by [setData]: [None] when it is [NaN] or
    infinite, which is not a state of this model. *)
Definition extent_max (hasDepth : bool) (data : list (gmap string value)) : option Q :=
  match omap (row_depth hasDepth) data with
  | [] => Some 30
  | v :: valid =>
      match to_number v with
      | Some q0 =>
          (fun m => inject_Z (Qceiling (m * (51 # 50) + (1 # 2)))) <$> Math_max q0 valid
      | None => None
      end
  end.

(** [setData(data, columns, layers)], with [hasDepth] the result of
    [columns.some(c => c.key === 'depth')] and [(w, h)] the size
    measured by the [resize] it ends with.  The axis maxima and the
    layers do not bear on the viewport and are left out. *)
Definition setData (hasDepth : bool) (data : list (gmap string value))
    (w h : Z) (s : Chart) : option Chart :=
  (fun dmax =>
     resize w h
       (mkChart (H s) 0 dmax 0 dmax (hoverY s) (isPanning s) (panStartY s)
                (panStartDepthMin s) (panStartDepthMax s)))
  <$> extent_max hasDepth data.

(** The user's gestures and the toolbar buttons. *)
Inductive event : Type :=
  | MouseDown (y : Q) (button : Z)
  | MouseMove (y : Q)
  | MouseUp
  | MouseLeave
  | Wheel (y : Q) (deltaY : Q)
  | ZoomIn
  | ZoomOut
  | ZoomFit.

Definition _onMouseDown (y : Q) (button : Z) (s : Chart) : Chart :=
  if (button =? 0)%Z
  then mkChart (H s) (depthMin s) (depthMax s) (depthViewMin s) (depthViewMax s)
               (hoverY s) true y (depthViewMin s) (depthViewMax s)
  else s.

(** [_onMouseMove]; the division by the plot height makes the result
    [None] (not a number) when that height is [0] or not yet measured. *)
Definition _onMouseMove (y : Q) (s : Chart) : option Chart :=
  if isPanning s then
    match plotH s with
    | Some h =>
        if Qeq_bool h 0 then None
        else
          let dy := y - panStartY s in
          let dPerPx := (panStartDepthMax s - panStartDepthMin s) / h in
          Some (with_view s (panStartDepthMin s - dy * dPerPx)
                            (panStartDepthMax s - dy * dPerPx))
    | None => None
    end
  else
    Some (mkChart (H s) (depthMin s) (depthMax s) (depthViewMin s) (depthViewMax s)
                  (Some y) (isPanning s) (panStartY s) (panStartDepthMin s)
                  (panStartDepthMax s)).

Definition _onMouseUp (s : Chart) : Chart :=
  mkChart (H s) (depthMin s) (depthMax s) (depthViewMin s) (depthViewMax s)
          (hoverY s) false (panStartY s) (panStartDepthMin s) (panStartDepthMax s).

Definition _onMouseLeave (s : Chart) : Chart :=
  mkChart (H s) (depthMin s) (depthMax s) (depthViewMin s) (depthViewMax s)
          None false (panStartY s) (panStartDepthMin s) (panStartDepthMax s).

Definition _onWheel (y deltaY : Q) (s : Chart) : option Chart :=
  match plotH s, plotB s with
  | None, _ | _, None => if Qltb y plotT then Some s else None
  | Some h, Some b =>
      if Qltb y plotT || Qltb b y then Some s
      else if Qeq_bool h 0 then None
      else
        let d := _y2d s h y in
        let f := if Qltb 0 deltaY then 28 # 25 else 1 / (28 # 25) in
        let nMin := d - (d - depthViewMin s) * f in
        let nMax := d + (depthViewMax s - d) * f in
        if Qltb (nMax - nMin) (1 # 2) then Some s
        else Some (with_view s nMin nMax)
  end.

Definition zoomIn (s : Chart) : Chart :=
  let c := (depthViewMin s + depthViewMax s) / 2 in
  let r := (depthViewMax s - depthViewMin s) / (13 # 10) in
  if Qltb r (1 # 2) then s
  else with_view s (c - r / 2) (c + r / 2).

Definition zoomOut (s : Chart) : Chart :=
  let c := (depthViewMin s + depthViewMax s) / 2 in
  let r := (depthViewMax s - depthViewMin s) * (13 # 10) in
  with_view s (c - r / 2) (c + r / 2).

Definition zoomFit (s : Chart) : Chart :=
  with_view s (depthMin s) (depthMax s).

Definition handle (e : event) (s : Chart) : option Chart :=
  match e with
  | MouseDown y button => Some (_onMouseDown y button s)
  | MouseMove y => _onMouseMove y s
  | MouseUp => Some (_onMouseUp s)
  | MouseLeave => Some (_onMouseLeave s)
  | Wheel y deltaY => _onWheel y deltaY s
  | ZoomIn => Some (zoomIn s)
  | ZoomOut => Some (zoomOut s)
  | ZoomFit => Some (zoomFit s)
  end.

(** The states reached from [s0] by a sequence of events. *)
Fixpoint run (es : list event) (s : Chart) : option Chart :=
  match es with
  | [] => Some s
  | e :: es' =>
      match handle e s with
      | Some s' => run es' s'
      | None => None
      end
  end.

(** [_d2y(d, L)] for a plot height [h]. *)
Definition _d2y (s : Chart) (h : Q) (d : Q) : Q :=
  plotT + ((d - depthViewMin s) / (depthViewMax s - depthViewMin s)) * h.

(** The loop of [_nearest] over [this.depths], where [None] is [null]:
    [i] is the index of the head of [depths],
    [bi] the best index so far ([None] for [-1]) and [bd] the best
    distance so far ([None] for [Infinity]).  A depth that is [NaN] gives
    a distance that is below nothing. *)
Fixpoint nearest_go (targetDepth : Q) (i : nat) (bi : option nat) (bd : option Q)
    (depths : list (option value)) : option nat :=
  match depths with
  | [] => bi
  | None :: depths' => nearest_go targetDepth (S i) bi bd depths'
  | Some v :: depths' =>
      match to_number v with
      | None => nearest_go targetDepth (S i) bi bd depths'
      | Some q =>
          let d := Qabs (q - targetDepth) in
          if match bd with None => true | Some b => Qltb d b end
          then nearest_go targetDepth (S i) (Some i) (Some d) depths'
          else nearest_go targetDepth (S i) bi bd depths'
      end
  end.

(** [_nearest(targetDepth)] on depths that have been set; [None] is
    [-1]. *)
Definition _nearest (depths : list (option value)) (targetDepth : Q) : option nat :=
  nearest_go targetDepth 0 None None depths.

(** A panel of the layout: its left edge and its width. *)
Record Panel := mkPanel { l : Z; w : Z }.

(** The result of [_layout], for a canvas of [W] by [H] pixels.  The
    widths of the panels are whole numbers: [Math.floor] of a product
    with [0.45] or [0.25] is the floor of the exact product. *)
Record Layout := mkLayout {
  L_plotT : Z; L_plotB : Z; L_plotH : Z; narrow : bool;
  depthW : Z; headerH : Z;
  soil : Panel; qc : Panel; fs : Panel; rf : Panel }.

Definition _layout (W Hh : Z) : Layout :=
  let narrow := (W <? 280)%Z in
  let HEADER := 28%Z in
  let BOTTOM := 4%Z in
  let DEPTH_W := if narrow then 30%Z else 42%Z in
  let SOIL_W := if narrow then 14%Z else 22%Z in
  let GAP := 1%Z in
  let plotT := HEADER in
  let plotB := (Hh - BOTTOM)%Z in
  let plotH := (plotB - plotT)%Z in
  let avail := (W - DEPTH_W - SOIL_W - GAP * 4)%Z in
  let qcW := (avail * 45 / 100)%Z in
  let fsW := (avail * 25 / 100)%Z in
  let rfW := (avail - qcW - fsW)%Z in
  let soilL := DEPTH_W in
  let qcL := (soilL + (SOIL_W + GAP))%Z in
  let fsL := (qcL + (qcW + GAP))%Z in
  let rfL := (fsL + (fsW + GAP))%Z in
  mkLayout plotT plotB plotH narrow DEPTH_W HEADER
    (mkPanel soilL SOIL_W) (mkPanel qcL qcW) (mkPanel fsL fsW) (mkPanel rfL rfW).

(** The visible range is a sub-range of the full depth extent. *)
Definition view_within_extent (s : Chart) : Prop :=
  depthMin s <= depthViewMin s /\ depthViewMax s <= depthMax s.

End CptChart.

(** ** The application: what is computed when a dataset is added *)

Module App.
Import Robertson.



End App.
(** ** Predicates of the specification *)

Module Spec.
Import Robertson.
Local Open Scope Q_scope.

(** An input of [classify] is missing: [undefined] or [null]. *)
Definition missing (v : jsval) : Prop := v = None \/ v = Some Null.

(** *** Layers *)

(** A point that passed the filter of [mergeLayers], as a classified
    point. *)
Definition to_cp (v : Q * SoilZone) : ClassifiedPoint := mkPoint (fst v) (Some (snd v)).

Definition depth_le (a b : ClassifiedPoint) : Prop := depth a <= depth b.

(** The points are in ascending order of depth. *)
Definition depth_sorted (l : list ClassifiedPoint) : Prop :=
  StronglySorted depth_le l.

(** The layer [l] spans the non-empty run [seg] of points: from the
    depth of its first point to the depth of its last point, with the
    zone of its first point. *)
Definition spans (seg : list ClassifiedPoint) (l : Layer) : Prop :=
  exists p q, head seg = Some p /\ last seg = Some q
              /\ startDepth l = depth p /\ endDepth l = depth q
              /\ pzone p = Some (lzone l).

(** All the points of the run have the zone of the layer. *)
Definition same_zone (seg : list ClassifiedPoint) (l : Layer) : Prop :=
  Forall (fun q => zone <$> pzone q = Some (zone (lzone l))) seg.

(** Depth-ordered and non-overlapping: every layer ends where or before
    the next one starts. *)
Fixpoint ordered_layers (ls : list Layer) : Prop :=
  match ls with
  | [] => True
  | l :: ls' =>
      startDepth l <= endDepth l
      /\ match ls' with
         | [] => True
         | l' :: _ => endDepth l <= startDepth l'
         end
      /\ ordered_layers ls'
  end.

(** Two consecutive layers never have the same zone (the runs are
    maximal). *)
Fixpoint adjacent_zones_differ (ls : list Layer) : Prop :=
  match ls with
  | [] => True
  | l :: ls' =>
      match ls' with
      | [] => True
      | l' :: _ => zone (lzone l) <> zone (lzone l')
      end
      /\ adjacent_zones_differ ls'
  end.

(** The layers [ls] cut the sorted points into consecutive runs. *)
Definition cut_into_runs (sorted : list ClassifiedPoint) (segs : list (list ClassifiedPoint))
    (ls : list Layer) : Prop :=
  concat segs = sorted /\ Forall2 spans segs ls.

(** The layers are the maximal runs of same-zone points. *)
Definition maximal_same_zone_runs (sorted : list ClassifiedPoint) (ls : list Layer) : Prop :=
  exists segs, cut_into_runs sorted segs ls
               /\ Forall2 same_zone segs ls /\ adjacent_zones_differ ls.

(** The layers reach from the least to the greatest depth of the points. *)
Definition spans_extent (pts : list ClassifiedPoint) (ls : list Layer) : Prop :=
  pts <> [] ->
  exists first final,
    head ls = Some first /\ last ls = Some final
    /\ (exists p, p ∈ pts /\ depth p = startDepth first)
    /\ (forall p, p ∈ pts -> startDepth first <= depth p)
    /\ (exists p, p ∈ pts /\ depth p = endDepth final)
    /\ (forall p, p ∈ pts -> depth p <= endDepth final).

(** The layers cover the interval from the least to the greatest depth
    of the points: every depth between two points lies in a layer. *)
Definition covers_interval (pts : list ClassifiedPoint) (ls : list Layer) : Prop :=
  forall p q d, p ∈ pts -> q ∈ pts -> depth p <= d <= depth q ->
    exists l, l ∈ ls /\ startDepth l <= d <= endDepth l.

(** The description of a [Layer] sequence in the data model, for the
    points [pts]: depth-ordered, non-overlapping, each layer a maximal
    run of same-zone points, covering the interval of the depths. *)
Definition layer_claim (pts : list ClassifiedPoint) (ls : list Layer) : Prop :=
  exists sorted,
    pts ≡ₚ sorted /\ depth_sorted sorted
    /\ ordered_layers ls
    /\ maximal_same_zone_runs sorted ls
    /\ covers_interval pts ls.

Definition layer_thickness (l : Layer) : Q := endDepth l - startDepth l.

(** The layer [l] is what a retained provisional layer becomes after it
    absorbed the thin provisional layers that follow it: [group] is the
    retained layer followed by those it absorbed, each thinner than
    [minThickness]; [l] keeps the start and the zone of the retained
    layer and ends where the last of the group ends. *)
Definition absorbs (minThickness : Q) (group : list Layer) (l : Layer) : Prop :=
  exists retained thin final,
    group = retained :: thin
    /\ last group = Some final
    /\ Forall (fun r => layer_thickness r < minThickness) thin
    /\ l = mkLayer (startDepth retained) (endDepth final) (lzone retained).

(** The second pass of [mergeLayers] in the words of the specification:
    the provisional layers [raw] fall into consecutive groups, one per
    layer of [result]; a group starts at the first provisional layer and
    at every later one that is at least [minThickness] thick, and it
    takes in the thinner ones that follow. *)
Definition thin_absorbed (minThickness : Q) (raw result : list Layer) : Prop :=
  exists groups,
    concat groups = raw
    /\ Forall2 (absorbs minThickness) groups result
    /\ Forall (fun g => exists retained, head g = Some retained
                                        /\ minThickness <= layer_thickness retained)
         (tl groups).

(** *** Distribution *)

Definition sum_percentage (ds : list DistributionEntry) : Q :=
  foldr (fun d acc => percentage d + acc) 0 ds.

(** The description of the result of [computeDistribution]: the
    percentages add up to 100, each is positive, and they descend. *)
Definition distribution_claim (ds : list DistributionEntry) : Prop :=
  sum_percentage ds == 100
  /\ Forall (fun d => 0 < percentage d) ds
  /\ StronglySorted (fun a b => percentage b <= percentage a) ds.

(** The thickness that a layer adds to the totals. *)
Definition counted (l : Layer) : Q :=
  if Qle_bool (endDepth l - startDepth l) 0 then 0 else endDepth l - startDepth l.

(** The sum of the totals of the keys [ks]. *)
Definition sum_totals (totals : gmap Z Q) (ks : list Z) : Q :=
  foldr (fun k acc => default 0 (totals !! k) + acc) 0 ks.

(** The thickness that the layers of the zone with identifier [k] add
    up to. *)
Definition zone_thickness (k : Z) (layers : list Layer) : Q :=
  foldr (fun l acc => (if Z.eqb (zone (lzone l)) k then counted l else 0) + acc) 0 layers.

(** The thickness that all the layers add up to. *)
Definition total_thickness (layers : list Layer) : Q :=
  foldr (fun l acc => counted l + acc) 0 layers.

(** The identifiers of the zone table. *)
Definition zone_ids : list Z := zone <$> ROBERTSON_ZONES.

(** *** Parser A *)
















(** The tokens of a data line: the trimmed, non-empty pieces between
    the separators. *)
Definition tokens (separator : GefParser.Separator) (l : string) : list string :=
  List.filter (fun s => if decide (s = "") then false else true)
    (JsString.trim <$> GefParser.split_by separator (JsString.trim l)).

(** A line that gives a data row of [n] columns: not blank, not a
    comment, and with at least [n] tokens. *)
Definition data_line (separator : GefParser.Separator) (n : nat) (l : string) : bool :=
  negb (bool_decide (JsString.trim l = ""))
  && negb (JsString.startsWith (JsString.trim l) "#")
  && negb (JsString.startsWith (JsString.trim l) "!")
  && (n <=? length (tokens separator l))%nat.

(** Two values are the same number; [NaN] is the same as none. *)
Definition same_number (a b : value) : Prop :=
  match a, b with
  | Num x, Num y => x == y
  | Inf s, Inf t => s = t
  | _, _ => False
  end.

(** The entry [v] of a column with the void value [void] for the token
    [token]: [null] if the token is missing, does not start with a number
    or is the void value, and the number of the token otherwise. *)
Definition entry_of (token : option string) (void : option value) (v : value) : Prop :=
  (v = Null
   /\ (JsString.parseFloat_opt token = NaN
       \/ exists w, void = Some w /\ same_number (JsString.parseFloat_opt token) w))
  \/ (v = JsString.parseFloat_opt token
      /\ JsString.parseFloat_opt token <> NaN
      /\ forall w, void = Some w -> ~ same_number (JsString.parseFloat_opt token) w).

(** The row of the data line [l]: its keys are those of the column map,
    and the entry of a key is that of the last column with this key, for
    the token at the index of the column. *)
Definition row_of_line (separator : GefParser.Separator)
    (columnMap : list GefParser.Column) (l : string) (row : gmap string value) : Prop :=
  (forall k, is_Some (row !! k) <-> k ∈ GefParser.key <$> columnMap)
  /\ forall pre c post,
       columnMap = pre ++ c :: post ->
       GefParser.key c ∉ GefParser.key <$> post ->
       exists v, row !! GefParser.key c = Some v
                 /\ entry_of (GefParser.index c ≫= (tokens separator l !!.))
                             (GefParser.voidValue c) v.

(** The indices of the registered slots of the sparse array [columns],
    counted from [n]. *)
Fixpoint registered (n : nat) (columns : list (option GefParser.RawColumn)) : list nat :=
  match columns with
  | [] => []
  | Some _ :: columns' => n :: registered (S n) columns'
  | None :: columns' => registered (S n) columns'
  end.

(** *** Parser B *)

(** The column [c] of the fixed table is flagged as present: its flag
    element holds the word [ja] (in any case, with white space around it
    ignored).  Without a [parameters] element every column is. *)
Definition flagged (cpt : BroXmlParser.CptObj) (c : BroXmlParser.ColumnDef) : Prop :=
  match BroXmlParser.parameters cpt with
  | None => True
  | Some paramsEl =>
      exists text, paramsEl (BroXmlParser.paramTag c) = Some text
                   /\ JsString.toLowerCase (JsString.trim text) = "ja"
  end.

(** Some column of the fixed table with the key [k] is flagged as
    present. *)
Definition flagged_key (cpt : BroXmlParser.CptObj) (k : string) : Prop :=
  exists c, c ∈ BroXmlParser.BRO_COLUMN_ORDER /\ BroXmlParser.key c = k /\ flagged cpt c.

(** The token and block separators of the document: the attributes of
    the encoding element, [,] and [;] where one is missing or empty. *)
Definition or_default (a : option string) (dflt : string) : string :=
  match a with
  | Some v => if decide (v = "") then dflt else v
  | None => dflt
  end.

Definition token_separator (cpt : BroXmlParser.CptObj) : string :=
  match BroXmlParser.TextEncoding cpt with
  | Some (t, _) => or_default t ","
  | None => ","
  end.

Definition block_separator (cpt : BroXmlParser.CptObj) : string :=
  match BroXmlParser.TextEncoding cpt with
  | Some (_, b) => or_default b ";"
  | None => ";"
  end.

(** The blocks of the measurement text: its pieces between the block
    separators that are not blank. *)
Definition blocks_of (cpt : BroXmlParser.CptObj) (valuesText : string) : list string :=
  List.filter (fun b => if decide (JsString.trim b = "") then false else true)
    (JsString.split (block_separator cpt) (JsString.trim valuesText)).

(** The tokens of a block. *)
Definition block_tokens (cpt : BroXmlParser.CptObj) (block : string) : list string :=
  JsString.split (token_separator cpt) (JsString.trim block).

(** The blocks that give a row: those of at least 25 tokens. *)
Definition row_blocks (cpt : BroXmlParser.CptObj) (valuesText : string) : list string :=
  List.filter (fun b => (25 <=? length (block_tokens cpt b))%nat) (blocks_of cpt valuesText).

(** The token is not numeric, or its parsed value is exactly the
    sentinel [-999999]. *)
Definition void_token (token : string) : Prop :=
  JsString.parseFloat token = NaN
  \/ exists v, JsString.parseFloat token = Num v /\ v == - 999999.

(** The row holds, for each of the 25 positions but those of [except],
    what the token at that position stands for: [null] for a void token,
    and the parsed number otherwise. *)
Definition row_of_tokens (except : list string) (tokens : list string)
    (row : gmap string value) : Prop :=
  forall i c, BroXmlParser.BRO_COLUMN_ORDER !! i = Some c ->
    BroXmlParser.key c ∉ except ->
    exists token,
      tokens !! i = Some token
      /\ (void_token token -> row !! BroXmlParser.key c = Some Null)
      /\ (~ void_token token ->
          row !! BroXmlParser.key c = Some (JsString.parseFloat token)).

(** *** Chart *)

(** The plot has been measured and its height is not zero. *)
Definition plot_measured (s : CptChart.Chart) : Prop :=
  exists h, CptChart.plotH s = Some h /\ ~ h == 0.

(** The events that only narrow or reset the view: zoom-in, a wheel step
    that zooms in ([deltaY <= 0]), zoom-to-fit, and the end of a gesture. *)
Definition narrowing (e : CptChart.event) : Prop :=
  match e with
  | CptChart.ZoomIn | CptChart.ZoomFit | CptChart.MouseUp | CptChart.MouseLeave => True
  | CptChart.Wheel _ deltaY => deltaY <= 0
  | CptChart.MouseDown _ _ | CptChart.MouseMove _ | CptChart.ZoomOut => False
  end.

(** No row holds a depth that is [NaN] or infinite: the depth extent
    that [setData] computes is then a finite number. *)
Definition finite_depths (hasDepth : bool) (data : list (gmap string value)) : Prop :=
  Forall (fun r => match (if hasDepth then r !! "depth" else r !! "length") with
                   | Some NaN | Some (Inf _) => False
                   | _ => True
                   end) data.

(** The event divides by the plot height: a move of the pointer while
    the button is held, and a wheel step with the pointer not above the
    top of the plot and not below its bottom (when the bottom is
    known). *)
Definition reads_plot_height (e : CptChart.event) (s : CptChart.Chart) : Prop :=
  match e with
  | CptChart.MouseMove _ => CptChart.isPanning s = true
  | CptChart.Wheel y _ =>
      CptChart.plotT <= y
      /\ match CptChart.plotB s with Some b => y <= b | None => True end
  | _ => False
  end.

(** The states that a chart reaches from the one set up by the
    constructor through the handlers, [setData] and [resize], as long as
    no event divides by a plot height that is unknown or zero and no
    dataset holds a depth that is [NaN] or infinite.  (These are the
    steps that write [NaN] or an infinity into the state, for which the
    model has no next state.) *)
Inductive reachable : CptChart.Chart -> Prop :=
  | reach_init : reachable CptChart.init
  | reach_event (e : CptChart.event) (s s' : CptChart.Chart) :
      reachable s -> (reads_plot_height e s -> plot_measured s) ->
      CptChart.handle e s = Some s' -> reachable s'
  | reach_setData (hasDepth : bool) (data : list (gmap string value)) (w h : Z)
      (s s' : CptChart.Chart) :
      reachable s -> finite_depths hasDepth data ->
      CptChart.setData hasDepth data w h s = Some s' -> reachable s'
  | reach_resize (w h : Z) (s : CptChart.Chart) :
      reachable s -> reachable (CptChart.resize w h s).

(** The invariant behind the floor on the visible span: the extent, the
    visible range and, during a drag, the range captured at its start
    all span at least half a unit. *)
Definition span_inv (s : CptChart.Chart) : Prop :=
  1 # 2 <= CptChart.depthMax s - CptChart.depthMin s
  /\ 1 # 2 <= CptChart.depthViewMax s - CptChart.depthViewMin s
  /\ (CptChart.isPanning s = true -> 1 # 2 <= CptChart.panStartDepthMax s - CptChart.panStartDepthMin s).

(** The stored depth at index [j] is the number [q]. *)
Definition sample (depths : list (option value)) (j : nat) (q : Q) : Prop :=
  exists v, depths !! j = Some (Some v) /\ to_number v = Some q.

(** [q] is strictly nearer to [t] than the best distance so far. *)
Definition beats (t : Q) (bd : option Q) (q : Q) : Prop :=
  match bd with None => True | Some b => Qabs (q - t) < b end.

(** [q] is no nearer to [t] than the best distance so far. *)
Definition bounded (t : Q) (bd : option Q) (q : Q) : Prop :=
  match bd with None => False | Some b => b <= Qabs (q - t) end.

(** Index [k] holds the number [q], no stored number is nearer to [t],
    and every one before [k] is strictly farther. *)
Definition first_nearest (t : Q) (depths : list (option value)) (k : nat) (q : Q) : Prop :=
  sample depths k q
  /\ forall j q', sample depths j q' ->
       Qabs (q - t) <= Qabs (q' - t) /\ ((j < k)%nat -> Qabs (q - t) < Qabs (q' - t)).

End Spec.

(** ** Part II: properties *)

(** *** Comparisons *)

Lemma Qltb_lt (x y : Q) : Qltb x y = true <-> (x < y)%Q.
Proof.
  unfold Qltb. rewrite negb_true_iff. split.
  - intros Hb. apply Qnot_le_lt. intros Hle.
    apply Qle_bool_iff in Hle. congruence.
  - intros Hlt. destruct (Qle_bool y x) eqn:Hb; [|reflexivity].
    apply Qle_bool_iff in Hb. exfalso. apply (Qlt_not_le _ _ Hlt Hb).
Qed.

Lemma Qltb_ge (x y : Q) : Qltb x y = false <-> (y <= x)%Q.
Proof.
  unfold Qltb. rewrite negb_false_iff. apply Qle_bool_iff.
Qed.

Lemma Qle_bool_false (x y : Q) : Qle_bool x y = false <-> (y < x)%Q.
Proof.
  rewrite <- (Qltb_lt y x). unfold Qltb.
  destruct (Qle_bool x y); simpl; split; congruence.
Qed.

Module RobertsonProps.
Import Robertson Spec.
Local Open Scope Q_scope.

(** *** classify *)

Lemma zone_at_in (i : nat) (z : SoilZone) :
  zone_at i = Some z -> In z ROBERTSON_ZONES.
Proof. unfold zone_at. apply nth_error_In. Qed.

Lemma zone_at_some (i : nat) : (i < 9)%nat -> is_Some (zone_at i).
Proof.
  intros Hi. do 9 (destruct i as [|i]; [eexists; reflexivity|]). lia.
Qed.

Ltac split_tree :=
  repeat match goal with
         | |- context [if ?b then _ else _] => destruct b eqn:?
         end.

(** Every non-null result of [classify] is an entry of the zone table. *)
Lemma classify_in_zones (qc rf : jsval) (z : SoilZone) :
  classify qc rf = Some z -> In z ROBERTSON_ZONES.
Proof.
  unfold classify.
  destruct qc as [[| |q|bq]|], rf as [[| |r|br]|]; try discriminate;
    split_tree; try discriminate; apply zone_at_in.
Qed.

(** Past its guards, [classify] always finds a zone. *)
Lemma classify_guard (qc rf : value) :
  qc <> Null -> rf <> Null ->
  classify (Some qc) (Some rf) = None <-> js_le qc 0 || js_lt rf 0 = true.
Proof.
  intros Hq Hr. unfold classify.
  destruct qc as [| |q|bq]; [congruence| | |]; (destruct rf as [| |r|br]; [congruence| | |]);
    destruct (_ || _) eqn:Hg; (split; [intros Hn|intros Hn; try reflexivity; try discriminate]);
    try reflexivity;
    exfalso; revert Hn; split_tree; discriminate.
Qed.

(** [classify] does not tell apart two representations of the same
    number. *)
Lemma classify_Qeq (q q' r r' : Q) :
  q == q' -> r == r' ->
  classify (Some (Num q)) (Some (Num r)) = classify (Some (Num q')) (Some (Num r')).
Proof.
  intros Hq Hr.
  assert (Eq : forall c, Qle_bool q c = Qle_bool q' c)
    by (intros c; rewrite Hq; reflexivity).
  assert (Er : forall c, Qle_bool c r = Qle_bool c r')
    by (intros c; rewrite Hr; reflexivity).
  unfold classify, js_le, js_lt, js_gt, Qltb; simpl.
  rewrite !Eq, !Er. reflexivity.
Qed.

(** C1. For numbers [qc > 0] and [rf >= 0], [classify] returns an entry
    of the table of the 9 zones; the result is [null] exactly when an
    input is missing ([undefined] or [null]), or [qc <= 0], or [rf < 0]
    (for a number and for [-Infinity] alike); and the result is a
    function of the two numbers, whatever their representation. *)
Theorem classify_zone_or_null (qc rf : jsval) :
  (forall q r, qc = Some (Num q) -> rf = Some (Num r) -> 0 < q -> 0 <= r ->
     exists z, classify qc rf = Some z /\ In z ROBERTSON_ZONES)
  /\ (classify qc rf = None <->
        missing qc \/ missing rf
        \/ (exists q, qc = Some (Num q) /\ q <= 0)
        \/ (exists r, rf = Some (Num r) /\ r < 0)
        \/ qc = Some (Inf true) \/ rf = Some (Inf true))
  /\ (forall q r q' r', qc = Some (Num q) -> rf = Some (Num r) ->
        q == q' -> r == r' ->
        classify qc rf = classify (Some (Num q')) (Some (Num r'))).
Proof.
  assert (Hnull : classify qc rf = None <->
        missing qc \/ missing rf
        \/ (exists q, qc = Some (Num q) /\ q <= 0)
        \/ (exists r, rf = Some (Num r) /\ r < 0)
        \/ qc = Some (Inf true) \/ rf = Some (Inf true)).
  { unfold missing.
    destruct qc as [vq|]; [|split; [intros _; left; left; reflexivity|reflexivity]].
    assert (Dq : vq = Null \/ vq <> Null)
      by (destruct vq; [left; reflexivity|right; discriminate..]).
    destruct Dq as [->|Hq];
      [split; [intros _; left; right; reflexivity|reflexivity]|].
    destruct rf as [vr|];
      [|split; [intros _; right; left; left; reflexivity|destruct vq; reflexivity]].
    assert (Dr : vr = Null \/ vr <> Null)
      by (destruct vr; [left; reflexivity|right; discriminate..]).
    destruct Dr as [->|Hr];
      [split; [intros _; right; left; right; reflexivity|destruct vq; reflexivity]|].
    rewrite (classify_guard vq vr Hq Hr), orb_true_iff.
    split.
    - intros [Hle|Hlt].
      + destruct vq as [| |q|bq]; [congruence|discriminate| |].
        * right; right; left. exists q. split; [reflexivity|].
          apply Qle_bool_iff. exact Hle.
        * simpl in Hle. subst bq. do 4 right. left. reflexivity.
      + destruct vr as [| |r|br]; [congruence|discriminate| |].
        * right; right; right; left. exists r. split; [reflexivity|].
          apply Qltb_lt. exact Hlt.
        * simpl in Hlt. subst br. do 5 right. reflexivity.
    - intros [[H|H]|[[H|H]|[(q & H & Hle)|[(r & H & Hlt)|[H|H]]]]]; try congruence.
      + inversion H; subst. left. apply Qle_bool_iff. exact Hle.
      + inversion H; subst. right. apply Qltb_lt. exact Hlt.
      + inversion H; subst. left. reflexivity.
      + inversion H; subst. right. reflexivity. }
  split; [|split; [exact Hnull|]].
  - intros q r -> -> Hq Hr.
    destruct (classify (Some (Num q)) (Some (Num r))) as [z|] eqn:E.
    + exists z. split; [reflexivity|]. eapply classify_in_zones. exact E.
    + exfalso.
      destruct (proj1 Hnull eq_refl)
        as [[H|H]|[[H|H]|[(q0 & H & Hle)|[(r0 & H & Hlt)|[H|H]]]]];
        try discriminate; inversion H; subst.
      * apply (Qlt_not_le _ _ Hq Hle).
      * apply (Qlt_not_le _ _ Hlt Hr).
  - intros q r q' r' -> -> Hq Hr. apply classify_Qeq; assumption.
Qed.

Lemma classify_zone_or_null_witness :
  (exists z, classify (Some (Num 3)) (Some (Num 1)) = Some z /\ In z ROBERTSON_ZONES)
  /\ classify (Some (Num 3)) (Some (Num (4 # 4))) = classify (Some (Num (6 # 2))) (Some (Num 1)).
Proof.
  split.
  - apply (proj1 (classify_zone_or_null (Some (Num 3)) (Some (Num 1))) 3 1);
      [reflexivity|reflexivity|reflexivity|discriminate].
  - apply (proj2 (proj2 (classify_zone_or_null (Some (Num 3)) (Some (Num (4 # 4)))))
             3 (4 # 4) (6 # 2) 1); reflexivity.
Defined.

Example classify_null_examples :
  classify (Some (Num 0)) (Some (Num 5)) = None
  /\ classify (Some (Num (-1))) (Some (Num 5)) = None
  /\ classify (Some Null) (Some (Num 5)) = None
  /\ classify None (Some (Num 5)) = None
  /\ classify (Some (Num 5)) (Some (Num (-1 # 10))) = None
  /\ (zone <$> classify (Some NaN) (Some (Num 5))) = Some 2%Z.
Proof. repeat split; reflexivity. Qed.

(** C2, as stated, fails: at [qc = 25], [rf = 0.5] the [qc > 10] band is
    used, but [0.5 < 0.5] is false and the result is zone 6, not zone 7. *)
Lemma classify_25_half_not_zone7 :
  (zone <$> classify (Some (Num 25)) (Some (Num (1 # 2)))) <> Some 7%Z.
Proof. vm_compute. discriminate. Qed.

(** C2, amended. [qc = 25] is classified in the [qc > 10] band, like
    every [qc] with [10 < qc <= 25]; there [rf < 0.5] gives zone 7 and
    [rf = 0.5], which is not below [0.5], gives zone 6. *)
Theorem classify_25_boundary (q rf : Q) :
  10 < q -> q <= 25 -> 0 <= rf ->
  classify (Some (Num q)) (Some (Num rf)) = classify (Some (Num 25)) (Some (Num rf))
  /\ (rf < 1 # 2 -> (zone <$> classify (Some (Num 25)) (Some (Num rf))) = Some 7%Z)
  /\ (zone <$> classify (Some (Num 25)) (Some (Num (1 # 2)))) = Some 6%Z.
Proof.
  intros Hlo Hhi Hrf.
  assert (G1 : Qle_bool q 0 = false) by (apply Qle_bool_false; lra).
  assert (G2 : Qltb rf 0 = false) by (apply Qltb_ge; lra).
  assert (G3 : Qltb 25 q = false) by (apply Qltb_ge; lra).
  assert (G4 : Qltb 10 q = true) by (apply Qltb_lt; lra).
  split; [|split].
  - unfold classify, js_le, js_lt, js_gt; simpl to_number; cbv iota beta.
    rewrite G1, G2, G3, G4. reflexivity.
  - intros Hlt.
    assert (G5 : Qltb rf (1 # 2) = true) by (apply Qltb_lt; lra).
    unfold classify, js_le, js_lt, js_gt; simpl to_number; cbv iota beta.
    rewrite G2, G5. reflexivity.
  - reflexivity.
Qed.

Lemma classify_25_boundary_witness :
  (zone <$> classify (Some (Num 25)) (Some (Num (1 # 4)))) = Some 7%Z.
Proof.
  apply (proj1 (proj2 (classify_25_boundary 25 (1 # 4) eq_refl
                         ltac:(discriminate) ltac:(discriminate)))).
  reflexivity.
Defined.

End RobertsonProps.

(** *** classifyDataset *)

Module DatasetProps.
Import Robertson.
Local Open Scope Q_scope.

(** The rows kept are those that pass the filter, in their order. *)
Lemma classifyDataset_length (data : list (gmap string value)) :
  length (classifyDataset data) = length (List.filter has_depth data).
Proof. unfold classifyDataset. apply length_map. Qed.


(** A row without a [depth] field is kept exactly when its [length] is
    neither missing nor [null], and the point carries [length] as it is. *)
Lemma to_point_length_field (row : gmap string value) :
  row !! "depth" = None ->
  has_depth row = (match row !! "length" with Some Null | None => false | Some _ => true end)
  /\ depth (to_point row) = row !! "length"
  /\ pzone (to_point row) = classify (row !! "qc") (row !! "rf").
Proof.
  intros Hd. unfold has_depth, to_point. rewrite Hd. simpl.
  repeat split.
Qed.

(** Every point returned has a depth that is neither [undefined] nor
    [null]. *)
Lemma classifyDataset_depth_present (data : list (gmap string value)) :
  Forall (fun p => exists v, depth p = Some v /\ v <> Null) (classifyDataset data).
Proof.
  unfold classifyDataset. apply Forall_map, List.Forall_forall.
  intros row Hin. apply filter_In in Hin as [_ Hk].
  unfold has_depth in Hk. unfold to_point; simpl.
  destruct (row !! "depth") as [v|] eqn:Hd.
  - exists (Math_abs v). split; [reflexivity|].
    unfold Math_abs. destruct v; try discriminate; destruct (to_number _); discriminate.
  - destruct (row !! "length") as [[| |q|b]|]; try discriminate;
      eexists; (split; [reflexivity|discriminate]).
Qed.

(** C8, at the failing input.  The first row is as Parser B writes it
    when the depth was not measured: [depth] is [null] and [length] is a
    number; it is dropped, because [length] is only looked at when
    [depth] is [undefined].  The second row has no [depth] field and the
    [length] [-2]; it is kept, but its point carries the depth [-2], not
    the absolute value [2]. *)
Theorem classifyDataset_length_fallback :
  classifyDataset
    [ {[ "depth" := Null; "length" := Num 5; "qc" := Num 1; "rf" := Num 1 ]};
      {[ "length" := Num (-2); "qc" := Num 1; "rf" := Num 1 ]} ]
  = [ mkPoint (Some (Num (-2))) (zone_at 3) ].
Proof. reflexivity. Qed.

Example classifyDataset_negative_depth :
  classifyDataset [ {[ "depth" := Num (-2); "qc" := Num 1; "rf" := Num 1 ]} ]
  = [ mkPoint (Some (Num 2)) (zone_at 3) ].
Proof. reflexivity. Qed.

End DatasetProps.

(** *** mergeLayers *)

Module LayerProps.
Import Robertson Spec.
Local Open Scope Q_scope.

(** **** The stable sort *)

Section StableSortProps.
Context {A : Type} (le : A -> A -> bool).
Hypothesis le_total : forall a b, le a b = true \/ le b a = true.
Hypothesis le_trans : forall a b c, le a b = true -> le b c = true -> le a c = true.

Lemma insert_sorted_perm (x : A) (l : list A) :
  insert_sorted le x l ≡ₚ x :: l.
Proof.
  induction l as [|y l IH]; simpl; [reflexivity|].
  destruct (le x y); [reflexivity|].
  rewrite IH. apply Permutation_swap.
Qed.

Lemma stable_sort_perm (l : list A) : stable_sort le l ≡ₚ l.
Proof.
  induction l as [|x l IH]; simpl; [reflexivity|].
  rewrite insert_sorted_perm, IH. reflexivity.
Qed.

Lemma insert_sorted_sorted (x : A) (l : list A) :
  StronglySorted (fun a b => le a b = true) l ->
  StronglySorted (fun a b => le a b = true) (insert_sorted le x l).
Proof.
  induction l as [|y l IH]; intros Hs; simpl.
  - repeat constructor.
  - apply StronglySorted_cons in Hs as [Hy Hl].
    destruct (le x y) eqn:Hxy.
    + apply StronglySorted_cons. split.
      * constructor; [exact Hxy|].
        eapply Forall_impl; [exact Hy|]. intros z Hz. eapply le_trans; eassumption.
      * apply StronglySorted_cons. split; assumption.
    + apply StronglySorted_cons. split; [|apply IH; exact Hl].
      rewrite insert_sorted_perm. constructor; [|exact Hy].
      destruct (le_total x y) as [H|H]; [congruence|exact H].
Qed.

Lemma stable_sort_sorted (l : list A) :
  StronglySorted (fun a b => le a b = true) (stable_sort le l).
Proof.
  induction l as [|x l IH]; simpl; [constructor|].
  apply insert_sorted_sorted. exact IH.
Qed.
End StableSortProps.

(** **** The valid points *)

Lemma valid_points_all (pts : list ClassifiedPoint) :
  Forall (fun p => pzone p <> None) pts ->
  to_cp <$> valid_points pts = pts.
Proof.
  unfold valid_points.
  induction 1 as [|[d [z|]] pts Hp _ IH]; simpl in *; [reflexivity| |congruence].
  f_equal. exact IH.
Qed.

Lemma by_depth_total (a b : Q * SoilZone) : by_depth a b = true \/ by_depth b a = true.
Proof.
  unfold by_depth. destruct (Qlt_le_dec (fst b) (fst a)) as [H|H].
  - right. apply Qle_bool_iff. apply Qlt_le_weak. exact H.
  - left. apply Qle_bool_iff. exact H.
Qed.

Lemma by_depth_trans (a b c : Q * SoilZone) :
  by_depth a b = true -> by_depth b c = true -> by_depth a c = true.
Proof.
  unfold by_depth. rewrite !Qle_bool_iff. apply Qle_trans.
Qed.

Lemma sorted_points (vs : list (Q * SoilZone)) :
  depth_sorted (to_cp <$> stable_sort by_depth vs).
Proof.
  pose proof (stable_sort_sorted by_depth by_depth_total by_depth_trans vs) as Hs.
  unfold depth_sorted. induction Hs as [|v l Hl IH Hv]; simpl; constructor.
  - exact IH.
  - apply Forall_fmap. eapply Forall_impl; [exact Hv|].
    intros w Hw. unfold depth_le, by_depth in *. simpl.
    apply Qle_bool_iff. exact Hw.
Qed.

(** **** The runs built by the first loop *)

Lemma spans_singleton (v : Q * SoilZone) :
  spans [to_cp v] (mkLayer (fst v) (fst v) (snd v)).
Proof. exists (to_cp v), (to_cp v). repeat split. Qed.

Lemma spans_nonempty (seg : list ClassifiedPoint) (l : Layer) : spans seg l -> seg <> [].
Proof. intros (p & q & Hh & _) ->. discriminate. Qed.

(** Appending a run to a run: the layer keeps its start and zone and
    takes the end of the second run. *)
Lemma spans_app (seg seg' : list ClassifiedPoint) (l l' : Layer) :
  spans seg l -> spans seg' l' ->
  spans (seg ++ seg') (mkLayer (startDepth l) (endDepth l') (lzone l)).
Proof.
  intros (p & q & Hh & Hl & Hs & He & Hz) (p' & q' & Hh' & Hl' & Hs' & He' & Hz').
  exists p, q'. simpl. repeat split; try assumption.
  - destruct seg; [discriminate|exact Hh].
  - destruct seg' as [|x seg'] using rev_ind; [discriminate|].
    rewrite app_assoc, last_snoc. rewrite last_snoc in Hl'. exact Hl'.
Qed.

Lemma build_layers_head (cur : Layer) (vs : list (Q * SoilZone)) :
  exists l ls, build_layers cur vs = l :: ls
               /\ lzone l = lzone cur /\ startDepth l = startDepth cur.
Proof.
  revert cur. induction vs as [|v vs IH]; intros cur; simpl.
  - eauto.
  - destruct (Z.eqb _ _).
    + destruct (IH (mkLayer (startDepth cur) (fst v) (lzone cur))) as (l & ls & -> & Hz & Hs).
      eauto.
    + eauto.
Qed.

Lemma build_layers_runs (cur : Layer) (seg : list ClassifiedPoint) (vs : list (Q * SoilZone)) :
  spans seg cur -> same_zone seg cur ->
  exists segs,
    cut_into_runs (seg ++ (to_cp <$> vs)) segs (build_layers cur vs)
    /\ Forall2 same_zone segs (build_layers cur vs)
    /\ adjacent_zones_differ (build_layers cur vs).
Proof.
  revert cur seg. induction vs as [|v vs IH]; intros cur seg Hsp Hsz; simpl.
  - exists [seg]. repeat split; simpl; try (repeat constructor; assumption).
  - destruct (Z.eqb (zone (snd v)) (zone (lzone cur))) eqn:Hz.
    + apply Z.eqb_eq in Hz.
      destruct (IH (mkLayer (startDepth cur) (fst v) (lzone cur)) (seg ++ [to_cp v]))
        as (segs & [Hc Hf] & Hs & Ha).
      * apply (spans_app seg [to_cp v] cur _ Hsp (spans_singleton v)).
      * unfold same_zone in *. apply Forall_app. split; [exact Hsz|].
        repeat constructor. simpl. congruence.
      * exists segs. rewrite <- app_assoc in Hc. repeat split; assumption.
    + apply Z.eqb_neq in Hz.
      destruct (IH (mkLayer (fst v) (fst v) (snd v)) [to_cp v])
        as (segs & [Hc Hf] & Hs & Ha).
      * apply spans_singleton.
      * repeat constructor.
      * exists (seg :: segs). split; [split|split].
        -- simpl. rewrite Hc. reflexivity.
        -- constructor; assumption.
        -- constructor; assumption.
        -- destruct (build_layers_head (mkLayer (fst v) (fst v) (snd v)) vs)
             as (l & ls & E & Hl & _).
           rewrite E. rewrite E in Ha. simpl in *. split; [|exact Ha].
           rewrite Hl. simpl. congruence.
Qed.

(** **** The second loop merges consecutive runs *)

Lemma absorb_thin_runs (minThickness : Q) (layers merged : list Layer)
    (segsM segsL : list (list ClassifiedPoint)) :
  Forall2 spans segsM (rev merged) -> Forall2 spans segsL layers ->
  exists segs,
    concat segs = concat segsM ++ concat segsL
    /\ Forall2 spans segs (absorb_thin minThickness merged layers).
Proof.
  revert merged segsM segsL.
  induction layers as [|l layers IH]; intros merged segsM segsL HM HL; simpl.
  - apply Forall2_nil_inv_r in HL as ->. exists segsM.
    simpl. rewrite app_nil_r. split; [reflexivity|exact HM].
  - apply Forall2_cons_inv_r in HL as (sl & segsL' & Hsl & HL' & ->).
    assert (Push : exists segs,
               concat segs = concat segsM ++ concat (sl :: segsL')
               /\ Forall2 spans segs (absorb_thin minThickness (l :: merged) layers)).
    { destruct (IH (l :: merged) (segsM ++ [sl]) segsL') as (segs & Hc & Hf).
      - simpl. apply Forall2_app; [exact HM|]. repeat constructor. exact Hsl.
      - exact HL'.
      - exists segs. split; [|exact Hf].
        rewrite Hc, concat_app. simpl. rewrite app_nil_r, <- app_assoc. reflexivity. }
    destruct merged as [|final before].
    + apply Forall2_nil_inv_r in HM as ->. exact Push.
    + destruct (Qltb (endDepth l - startDepth l) minThickness); [|exact Push].
      simpl in HM. apply Forall2_app_inv_r in HM as (segsB & sf & HB & Hsf & ->).
      apply Forall2_cons_inv_r in Hsf as (sfin & nil & Hfin & Hnil & ->).
      apply Forall2_nil_inv_r in Hnil as ->.
      destruct (IH (mkLayer (startDepth final) (endDepth l) (lzone final) :: before)
                   (segsB ++ [sfin ++ sl]) segsL') as (segs & Hc & Hf).
      * simpl. apply Forall2_app; [exact HB|]. repeat constructor.
        apply (spans_app sfin sl final l Hfin Hsl).
      * exact HL'.
      * exists segs. split; [|exact Hf].
        rewrite Hc, !concat_app. simpl. rewrite !app_nil_r, <- !app_assoc. reflexivity.
Qed.

(** **** What a cut of a sorted sequence into runs implies *)

Lemma sorted_head_last (seg : list ClassifiedPoint) (p q : ClassifiedPoint) :
  depth_sorted seg -> head seg = Some p -> last seg = Some q -> depth p <= depth q.
Proof.
  intros Hs Hh Hl. apply head_Some in Hh as (seg' & ->).
  apply last_Some_elem_of in Hl. apply StronglySorted_cons in Hs as [Hp _].
  apply elem_of_cons in Hl as [->|Hq]; [apply Qle_refl|].
  rewrite Forall_forall in Hp. apply Hp. exact Hq.
Qed.

Lemma runs_ordered (segs : list (list ClassifiedPoint)) (ls : list Layer) :
  depth_sorted (concat segs) -> Forall2 spans segs ls -> ordered_layers ls.
Proof.
  intros Hs Hf. induction Hf as [|seg l segs ls Hsp Hf IH]; simpl; [exact I|].
  simpl in Hs. apply StronglySorted_app in Hs as (Hcross & Hseg & Hrest).
  destruct Hsp as (p & q & Hh & Hl & -> & -> & _).
  split; [exact (sorted_head_last seg p q Hseg Hh Hl)|].
  split; [|apply IH; exact Hrest].
  destruct Hf as [|seg' l' segs' ls' (p' & q' & Hh' & _ & -> & _) _]; [exact I|].
  apply Hcross.
  - apply last_Some_elem_of. exact Hl.
  - simpl. apply elem_of_app. left. apply head_Some_elem_of. exact Hh'.
Qed.

Lemma runs_first (segs : list (list ClassifiedPoint)) (ls : list Layer) :
  Forall2 spans segs ls -> segs <> [] ->
  exists l p, head ls = Some l /\ head (concat segs) = Some p /\ startDepth l = depth p.
Proof.
  intros [|seg l segs' ls' (p & q & Hh & _ & Hs & _) _] Hne; [congruence|].
  exists l, p. repeat split; [|exact Hs].
  simpl. apply head_Some in Hh as (seg' & ->). reflexivity.
Qed.

Lemma runs_last (segs : list (list ClassifiedPoint)) (ls : list Layer) :
  Forall2 spans segs ls -> segs <> [] ->
  exists l q, last ls = Some l /\ last (concat segs) = Some q /\ endDepth l = depth q.
Proof.
  induction 1 as [|seg l segs ls Hsp Hf IH]; intros Hne; [congruence|].
  destruct Hf as [|seg' l' segs' ls' Hsp' Hf'].
  - destruct Hsp as (p & q & _ & Hl & _ & He & _).
    exists l, q. simpl. rewrite app_nil_r. repeat split; assumption.
  - destruct IH as (lf & q & Hlast & Hq & He); [discriminate|].
    exists lf, q. split; [|split; [|exact He]].
    + rewrite last_cons, Hlast. reflexivity.
    + change (concat (seg :: seg' :: segs')) with (seg ++ concat (seg' :: segs')).
      rewrite last_app, Hq. reflexivity.
Qed.

Lemma runs_extent (pts sorted : list ClassifiedPoint)
    (segs : list (list ClassifiedPoint)) (ls : list Layer) :
  pts ≡ₚ sorted -> depth_sorted sorted -> cut_into_runs sorted segs ls ->
  spans_extent pts ls.
Proof.
  intros Hperm Hs [Hc Hf] Hne.
  assert (Hsegs : segs <> []).
  { intros ->. simpl in Hc. subst sorted.
    apply Permutation_nil_r in Hperm. contradiction. }
  destruct (runs_first segs ls Hf Hsegs) as (first & p & Hfirst & Hp & Hstart).
  destruct (runs_last segs ls Hf Hsegs) as (final & q & Hfinal & Hq & Hend).
  rewrite Hc in Hp, Hq.
  exists first, final. split; [exact Hfirst|]. split; [exact Hfinal|].
  rewrite Hstart, Hend. repeat split.
  - exists p. split; [|reflexivity]. rewrite Hperm.
    apply head_Some_elem_of. exact Hp.
  - intros x Hx. rewrite Hperm in Hx.
    apply head_Some in Hp as (rest & ->).
    apply StronglySorted_cons in Hs as [Hall _].
    apply elem_of_cons in Hx as [->|Hx]; [apply Qle_refl|].
    rewrite Forall_forall in Hall. apply Hall. exact Hx.
  - exists q. split; [|reflexivity]. rewrite Hperm.
    apply last_Some_elem_of. exact Hq.
  - intros x Hx. rewrite Hperm in Hx.
    apply last_Some in Hq as (init & ->).
    apply StronglySorted_app in Hs as (Hcross & _ & _).
    apply elem_of_app in Hx as [Hx|Hx].
    + apply Hcross; [exact Hx|]. apply list_elem_of_singleton. reflexivity.
    + apply list_elem_of_singleton in Hx as ->. apply Qle_refl.
Qed.

(** Every point lies within the layer of its run. *)
Lemma runs_contain (sorted : list ClassifiedPoint)
    (segs : list (list ClassifiedPoint)) (ls : list Layer) (x : ClassifiedPoint) :
  depth_sorted sorted -> cut_into_runs sorted segs ls -> x ∈ sorted ->
  exists l, l ∈ ls /\ startDepth l <= depth x <= endDepth l.
Proof.
  intros Hs [Hc Hf]. subst sorted. induction Hf as [|seg l segs ls Hsp Hf IH]; simpl.
  - intros Hx. apply elem_of_nil in Hx. contradiction.
  - simpl in Hs. apply StronglySorted_app in Hs as (_ & Hseg & Hrest).
    intros Hx. apply elem_of_app in Hx as [Hx|Hx].
    + exists l. split; [apply elem_of_cons; left; reflexivity|].
      destruct Hsp as (p & q & Hh & Hl & -> & -> & _).
      apply head_Some in Hh as (seg' & ->). split.
      * apply StronglySorted_cons in Hseg as [Hall _].
        apply elem_of_cons in Hx as [->|Hx]; [apply Qle_refl|].
        rewrite Forall_forall in Hall. apply Hall. exact Hx.
      * apply last_Some in Hl as (init & E). rewrite E in Hseg, Hx.
        apply StronglySorted_app in Hseg as (Hcross & _ & _).
        apply elem_of_app in Hx as [Hx|Hx].
        -- apply Hcross; [exact Hx|]. apply list_elem_of_singleton. reflexivity.
        -- apply list_elem_of_singleton in Hx as ->. apply Qle_refl.
    + destruct (IH Hrest Hx) as (l' & Hl' & Hb).
      exists l'. split; [apply elem_of_cons; right; exact Hl'|exact Hb].
Qed.

(** **** mergeLayers *)

(** **** The second pass *)

Lemma absorbs_single (minThickness : Q) (l : Layer) : absorbs minThickness [l] l.
Proof.
  exists l, [], l. split; [reflexivity|]. split; [reflexivity|].
  split; [constructor|]. destruct l; reflexivity.
Qed.

Lemma absorbs_snoc (minThickness : Q) (group : list Layer) (last_ l : Layer) :
  absorbs minThickness group last_ ->
  layer_thickness l < minThickness ->
  absorbs minThickness (group ++ [l])
    (mkLayer (startDepth last_) (endDepth l) (lzone last_)).
Proof.
  intros (retained & thin & final & -> & _ & Hthin & ->) Hl.
  exists retained, (thin ++ [l]), l. split; [reflexivity|].
  split; [apply last_snoc|].
  split; [apply Forall_app; split; [exact Hthin|repeat constructor; exact Hl]|].
  reflexivity.
Qed.

Lemma Forall_tl_snoc {A : Type} (P : A -> Prop) (l : list A) (x : A) :
  l <> [] -> Forall P (tl l) -> P x -> Forall P (tl (l ++ [x])).
Proof.
  destruct l as [|y l]; [congruence|]. simpl. intros _ Hl Hx.
  apply Forall_app. split; [exact Hl|repeat constructor; exact Hx].
Qed.

(** The loop of the second pass keeps the grouping of the provisional
    layers: a thin layer joins the last group, a layer that is thick
    enough opens a new one. *)
Lemma absorb_thin_groups (minThickness : Q) (layers : list Layer) :
  forall (merged : list Layer) (groups : list (list Layer)),
    Forall2 (absorbs minThickness) groups (rev merged) ->
    merged <> [] ->
    Forall (fun g => exists retained, head g = Some retained
                                      /\ minThickness <= layer_thickness retained)
      (tl groups) ->
    exists groups',
      concat groups' = concat groups ++ layers
      /\ Forall2 (absorbs minThickness) groups' (absorb_thin minThickness merged layers)
      /\ Forall (fun g => exists retained, head g = Some retained
                                           /\ minThickness <= layer_thickness retained)
           (tl groups').
Proof.
  induction layers as [|l layers IH]; intros merged groups Hg Hne Hthick.
  - exists groups. rewrite app_nil_r. simpl. auto.
  - destruct merged as [|last_ before]; [congruence|].
    cbn [absorb_thin]. cbv zeta.
    cbn [rev] in Hg.
    destruct (proj1 (Forall2_app_inv_r _ _ _ _) Hg) as (gs & gl & Hgs & Hgl & ->).
    apply Forall2_cons_inv_r in Hgl as (g & nil & Hlast & Hnil & ->).
    apply Forall2_nil_inv_r in Hnil as ->.
    destruct (Qltb (endDepth l - startDepth l) minThickness) eqn:E.
    + apply Qltb_lt in E.
      destruct (IH (mkLayer (startDepth last_) (endDepth l) (lzone last_) :: before)
                   (gs ++ [g ++ [l]])) as (groups' & Hc & Hf & Ht).
      * cbn [rev]. apply Forall2_app; [exact Hgs|].
        repeat constructor. apply absorbs_snoc; assumption.
      * discriminate.
      * destruct gs as [|g0 gs]; [constructor|].
        simpl in Hthick |- *. apply Forall_app in Hthick as [H1 H2].
        apply Forall_app. split; [exact H1|].
        apply Forall_cons_1 in H2 as [(retained & Hh & Hr) _].
        repeat constructor. exists retained. split; [|exact Hr].
        destruct g; [discriminate|exact Hh].
      * exists groups'. split; [|split; assumption].
        rewrite Hc, !concat_app. simpl. rewrite !app_nil_r, <- !app_assoc. reflexivity.
    + apply Qltb_ge in E.
      destruct (IH (l :: last_ :: before) ((gs ++ [g]) ++ [[l]])) as (groups' & Hc & Hf & Ht).
      * change (rev (l :: last_ :: before)) with (rev (last_ :: before) ++ [l]).
        apply Forall2_app; [exact Hg|]. repeat constructor. apply absorbs_single.
      * discriminate.
      * apply Forall_tl_snoc; [destruct gs; discriminate|exact Hthick|].
        exists l. split; [reflexivity|exact E].
      * exists groups'. split; [|split; assumption].
        rewrite Hc, !concat_app. simpl. rewrite !app_nil_r, <- !app_assoc. reflexivity.
Qed.

Lemma Forall_concat_tl {A} (P : A -> Prop) (gs : list (list A)) :
  Forall P (concat gs) -> Forall (fun g => Forall P (tl g)) gs.
Proof.
  induction gs as [|g gs IH]; [constructor|].
  simpl. intros H. apply Forall_app in H as [Hg Hgs].
  constructor; [|apply IH; exact Hgs].
  destruct g; [constructor|]. apply Forall_cons_1 in Hg as [_ H]. exact H.
Qed.

(** Groups without a thin layer are single layers. *)
Lemma absorbs_none_thin (minThickness : Q) (groups : list (list Layer)) (ls : list Layer) :
  Forall2 (absorbs minThickness) groups ls ->
  Forall (fun g => Forall (fun r => minThickness <= layer_thickness r) (tl g)) groups ->
  concat groups = ls.
Proof.
  induction 1 as [|g l gs ls Hgl _ IH]; [reflexivity|].
  intros Hthick. apply Forall_cons_1 in Hthick as [Hg Hgs].
  destruct Hgl as (r & t & final & -> & Hlast & Hthin & ->).
  destruct t as [|x t].
  - simpl in Hlast. injection Hlast as <-. simpl. f_equal; [destruct r; reflexivity|].
    apply IH. exact Hgs.
  - exfalso. apply Forall_cons_1 in Hthin as [Hx _].
    simpl in Hg. apply Forall_cons_1 in Hg as [Hx' _]. cbn in Hx'. lra.
Qed.

(** Without a thin layer after the first, nothing is absorbed. *)
Lemma thin_absorbed_none (minThickness : Q) (raw : list Layer) :
  Forall (fun r => minThickness <= layer_thickness r) (tl raw) ->
  thin_absorbed minThickness raw raw.
Proof.
  intros Hthick. exists ((fun r => [r]) <$> raw). split; [|split].
  - induction raw as [|r raw IH]; [reflexivity|]. simpl. f_equal.
    apply IH. destruct raw; [constructor|]. simpl in *.
    apply Forall_cons_1 in Hthick as [_ H]. exact H.
  - clear Hthick. induction raw as [|r raw IH]; [constructor|].
    simpl. constructor; [apply absorbs_single|exact IH].
  - destruct raw as [|r0 raw]; [constructor|]. simpl in *.
    apply Forall_fmap. eapply Forall_impl; [exact Hthick|].
    intros r Hr. exists r. split; [reflexivity|exact Hr].
Qed.

Lemma ordered_layers_thickness (ls : list Layer) :
  ordered_layers ls -> Forall (fun l => 0 <= layer_thickness l) ls.
Proof.
  induction ls as [|l ls IH]; [constructor|].
  intros (H1 & _ & H3). constructor; [unfold layer_thickness; lra|apply IH; exact H3].
Qed.

(** The layers cut the sorted points into runs, whatever the zones of
    the input. *)
Lemma mergeLayers_cut_sorted (pts : list ClassifiedPoint) (minThickness : Q) :
  exists segs,
    cut_into_runs (to_cp <$> stable_sort by_depth (valid_points pts)) segs
      (mergeLayers pts minThickness).
Proof.
  unfold mergeLayers.
  destruct (stable_sort by_depth (valid_points pts)) as [|v0 vs].
  { exists []. split; constructor. }
  destruct (build_layers_runs (mkLayer (fst v0) (fst v0) (snd v0)) [to_cp v0] vs)
    as (segs & [Hc Hf] & _ & _).
  { apply spans_singleton. }
  { repeat constructor. }
  cbv zeta.
  destruct (build_layers (mkLayer (fst v0) (fst v0) (snd v0)) vs)
    as [|l0 [|l1 rest]]; try (exists segs; split; assumption).
  destruct (Qltb 0 minThickness); [|exists segs; split; assumption].
  apply Forall2_cons_inv_r in Hf as (s0 & segs' & Hs0 & Hf' & ->).
  destruct (absorb_thin_runs minThickness (l1 :: rest) [l0] [s0] segs')
    as (segs2 & Hc2 & Hf2).
  { repeat constructor. exact Hs0. }
  { exact Hf'. }
  exists segs2. split; [|exact Hf2]. rewrite Hc2.
  transitivity (concat (s0 :: segs')); [|exact Hc].
  simpl. rewrite app_nil_r. reflexivity.
Qed.

(** The two passes of [mergeLayers], for points that all have a zone. *)
Lemma mergeLayers_passes (pts : list ClassifiedPoint) (minThickness : Q) :
  Forall (fun p => pzone p <> None) pts ->
  exists raw,
    pts ≡ₚ to_cp <$> stable_sort by_depth (valid_points pts)
    /\ depth_sorted (to_cp <$> stable_sort by_depth (valid_points pts))
    /\ maximal_same_zone_runs (to_cp <$> stable_sort by_depth (valid_points pts)) raw
    /\ thin_absorbed minThickness raw (mergeLayers pts minThickness)
    /\ (minThickness <= 0 -> mergeLayers pts minThickness = raw).
Proof.
  intros Hall.
  assert (Hperm : pts ≡ₚ to_cp <$> stable_sort by_depth (valid_points pts)).
  { rewrite <- (valid_points_all pts Hall) at 1.
    apply fmap_Permutation. symmetry. apply stable_sort_perm. }
  pose proof (sorted_points (valid_points pts)) as Hsorted.
  unfold mergeLayers.
  destruct (stable_sort by_depth (valid_points pts)) as [|v0 vs].
  { exists []. split; [exact Hperm|]. split; [exact Hsorted|]. split.
    - exists []. repeat split; constructor.
    - split; [apply thin_absorbed_none; constructor|reflexivity]. }
  destruct (build_layers_runs (mkLayer (fst v0) (fst v0) (snd v0)) [to_cp v0] vs)
    as (segs & [Hc Hf] & Hsz & Ha).
  { apply spans_singleton. }
  { repeat constructor. }
  simpl in Hc.
  set (raw := build_layers (mkLayer (fst v0) (fst v0) (snd v0)) vs) in *.
  assert (Hord : ordered_layers raw).
  { apply (runs_ordered segs); [|exact Hf]. rewrite Hc. exact Hsorted. }
  exists raw. split; [exact Hperm|]. split; [exact Hsorted|]. split.
  { exists segs. repeat split; assumption. }
  cbv zeta.
  assert (Hnone : minThickness <= 0 -> thin_absorbed minThickness raw raw).
  { intros Hle. apply thin_absorbed_none.
    apply ordered_layers_thickness in Hord.
    apply Forall_forall. intros r Hr.
    assert (Hin : r ∈ raw) by (destruct raw; [inversion Hr|right; exact Hr]).
    pose proof (proj1 (Forall_forall _ _) Hord r Hin) as H0. cbn in H0. lra. }
  destruct raw as [|l0 [|l1 rest]] eqn:Eraw.
  - split; [apply thin_absorbed_none; constructor|reflexivity].
  - split; [apply thin_absorbed_none; constructor|reflexivity].
  - destruct (Qltb 0 minThickness) eqn:Ht.
    + apply Qltb_lt in Ht. split; [|intros Hle; exfalso; lra].
      destruct (absorb_thin_groups minThickness (l1 :: rest) [l0] [[l0]])
        as (groups & Hcg & Hfg & Htg).
      * repeat constructor. apply absorbs_single.
      * discriminate.
      * constructor.
      * exists groups. split; [exact Hcg|]. split; assumption.
    + apply Qltb_ge in Ht. split; [apply Hnone; exact Ht|reflexivity].
Qed.

(** C3, as stated, fails in two ways.  Once a thin layer has been
    absorbed, a layer is not a run of same-zone points: the layer returned
    for the example of the specification ends at a point of another zone.
    And the layers do not cover the interval of the depths: between a
    layer and the next there is a gap, here from depth 1 to depth 2. *)
Lemma mergeLayers_not_same_zone_runs :
  ~ layer_claim
      [ mkPoint 0 (zone_at 2); mkPoint (1 # 10) (zone_at 2); mkPoint (3 # 10) (zone_at 5) ]
      (mergeLayers
         [ mkPoint 0 (zone_at 2); mkPoint (1 # 10) (zone_at 2); mkPoint (3 # 10) (zone_at 5) ]
         (2 # 10))
  /\ ~ covers_interval
         [ mkPoint 0 (zone_at 2); mkPoint 1 (zone_at 2);
           mkPoint 2 (zone_at 5); mkPoint 3 (zone_at 5) ]
         (mergeLayers
            [ mkPoint 0 (zone_at 2); mkPoint 1 (zone_at 2);
              mkPoint 2 (zone_at 5); mkPoint 3 (zone_at 5) ]
            (2 # 10)).
Proof.
  split.
  - intros (sorted & Hperm & _ & _ & (segs & [Hc Hf] & Hsz & _) & _).
    assert (E : mergeLayers
                  [ mkPoint 0 (zone_at 2); mkPoint (1 # 10) (zone_at 2);
                    mkPoint (3 # 10) (zone_at 5) ] (2 # 10)
                = [ mkLayer 0 (3 # 10) (mkZone 3 "Klei" "#4CAF50") ]) by reflexivity.
    rewrite E in Hf, Hsz. clear E.
    apply Forall2_cons_inv_r in Hf as (seg & nil & _ & Hnil & ->).
    apply Forall2_nil_inv_r in Hnil as ->.
    apply Forall2_cons_1 in Hsz as [Hsz _].
    simpl in Hc. rewrite app_nil_r in Hc. subst seg.
    unfold same_zone in Hsz. rewrite Forall_forall in Hsz.
    assert (Hin : mkPoint (3 # 10) (zone_at 5) ∈ sorted).
    { rewrite <- Hperm. rewrite !elem_of_cons. right; right; left. reflexivity. }
    specialize (Hsz _ Hin). discriminate Hsz.
  - intros Hcov.
    assert (E : mergeLayers
                  [ mkPoint 0 (zone_at 2); mkPoint 1 (zone_at 2);
                    mkPoint 2 (zone_at 5); mkPoint 3 (zone_at 5) ] (2 # 10)
                = [ mkLayer 0 1 (mkZone 3 "Klei" "#4CAF50");
                    mkLayer 2 3 (mkZone 6 "Zand" "#FF9800") ]) by reflexivity.
    rewrite E in Hcov. clear E.
    destruct (Hcov (mkPoint 0 (zone_at 2)) (mkPoint 3 (zone_at 5)) (3 # 2))
      as (l & Hl & Hlo & Hhi).
    { rewrite !elem_of_cons. left. reflexivity. }
    { rewrite !elem_of_cons. do 3 right. left. reflexivity. }
    { simpl. split; discriminate. }
    rewrite !elem_of_cons in Hl. destruct Hl as [->|[->|Hl]].
    + simpl in Hhi. apply Hhi. reflexivity.
    + simpl in Hlo. apply Hlo. reflexivity.
    + apply elem_of_nil in Hl. exact Hl.
Qed.

(** C3, amended. For points whose zones are all non-null, [mergeLayers]
    sorts the points by depth and cuts them into the maximal runs of
    same-zone points, the provisional layers.  Of these, the first and
    every later one that is at least [minThickness] thick is retained, and
    a retained layer absorbs the thinner ones that follow it: it keeps its
    start and its zone and ends where the last absorbed layer ends.  So
    without a thin provisional layer after the first, and whenever
    [minThickness <= 0], the layers are the maximal runs of same-zone
    points.  In every case a layer starts at the first and ends at the
    last depth of a run of consecutive points; the layers are depth-ordered
    and do not overlap, the first starts at the least and the last ends at
    the greatest depth, and every point lies within a layer (the depths
    between two layers lie in none). *)
Theorem mergeLayers_layers (pts : list ClassifiedPoint) (minThickness : Q) :
  Forall (fun p => pzone p <> None) pts ->
  exists sorted raw,
    pts ≡ₚ sorted /\ depth_sorted sorted
    /\ maximal_same_zone_runs sorted raw
    /\ thin_absorbed minThickness raw (mergeLayers pts minThickness)
    /\ (Forall (fun r => minThickness <= layer_thickness r) (tl raw) ->
        mergeLayers pts minThickness = raw)
    /\ (minThickness <= 0 -> mergeLayers pts minThickness = raw)
    /\ (exists segs, cut_into_runs sorted segs (mergeLayers pts minThickness))
    /\ ordered_layers (mergeLayers pts minThickness)
    /\ spans_extent pts (mergeLayers pts minThickness)
    /\ (forall p, p ∈ pts ->
          exists l, l ∈ mergeLayers pts minThickness
                    /\ startDepth l <= depth p <= endDepth l).
Proof.
  intros Hall.
  destruct (mergeLayers_passes pts minThickness Hall)
    as (raw & Hperm & Hsorted & Hraw & Habs & Hle).
  destruct (mergeLayers_cut_sorted pts minThickness) as (segs & Hcut).
  exists (to_cp <$> stable_sort by_depth (valid_points pts)), raw.
  split; [exact Hperm|]. split; [exact Hsorted|]. split; [exact Hraw|].
  split; [exact Habs|]. split; [|split; [exact Hle|]].
  - intros Hthick. destruct Habs as (groups & Hc & Hf & _).
    subst raw. symmetry. apply (absorbs_none_thin minThickness); [exact Hf|].
    destruct Hf as [|g l gs ls Hgl Hf]; [constructor|].
    destruct Hgl as (r & t & _ & -> & _). simpl in Hthick.
    apply Forall_app in Hthick as [Ht Hgs].
    constructor; [exact Ht|].
    apply Forall_concat_tl. exact Hgs.
  - assert (Hord : ordered_layers (mergeLayers pts minThickness)).
    { destruct Hcut as [Hc Hf]. apply (runs_ordered segs); [|exact Hf].
      rewrite Hc. exact Hsorted. }
    assert (Hext : spans_extent pts (mergeLayers pts minThickness))
      by (eapply runs_extent; eassumption).
    split; [exists segs; exact Hcut|].
    split; [exact Hord|]. split; [exact Hext|].
    intros p Hp.
    apply (runs_contain (to_cp <$> stable_sort by_depth (valid_points pts)) segs);
      [exact Hsorted|exact Hcut|].
    rewrite <- Hperm. exact Hp.
Qed.

Lemma mergeLayers_layers_witness :
  ordered_layers
    (mergeLayers
       [ mkPoint 2 (zone_at 5); mkPoint 3 (zone_at 5); mkPoint 0 (zone_at 2);
         mkPoint 1 (zone_at 2); mkPoint (31 # 10) (zone_at 1) ] (2 # 10))
  /\ exists raw,
       thin_absorbed (2 # 10) raw
         (mergeLayers
            [ mkPoint 2 (zone_at 5); mkPoint 3 (zone_at 5); mkPoint 0 (zone_at 2);
              mkPoint 1 (zone_at 2); mkPoint (31 # 10) (zone_at 1) ] (2 # 10)).
Proof.
  assert (Hall : Forall (fun p : ClassifiedPoint => pzone p <> None)
                   [ mkPoint 2 (zone_at 5); mkPoint 3 (zone_at 5); mkPoint 0 (zone_at 2);
                     mkPoint 1 (zone_at 2); mkPoint (31 # 10) (zone_at 1) ])
    by (repeat constructor; discriminate).
  destruct (mergeLayers_layers _ (2 # 10) Hall)
    as (sorted & raw & _ & _ & _ & Habs & _ & _ & _ & Hord & _).
  split; [exact Hord|]. exists raw. exact Habs.
Defined.



(** C4. On the points [(0, z1)], [(0.1, z1)], [(0.3, z2)] with
    [minThickness = 0.2], the zero-thickness layer of [z2] is absorbed by
    the layer before it: the result is the single layer from [0] to
    [0.3] with zone [z1]. *)
Theorem mergeLayers_absorbs_thin_singleton (z1 z2 : SoilZone) :
  mergeLayers
    [ mkPoint 0 (Some z1); mkPoint (1 # 10) (Some z1); mkPoint (3 # 10) (Some z2) ]
    (2 # 10)
  = [ mkLayer 0 (3 # 10) z1 ].
Proof.
  unfold mergeLayers. simpl.
  rewrite Z.eqb_refl.
  destruct (Z.eqb (zone z2) (zone z1)); reflexivity.
Qed.

Example mergeLayers_two_same_zone_layers :
  (fun l => (startDepth l, endDepth l, zone (lzone l)))
    <$> mergeLayers
          [ mkPoint 0 (zone_at 0); mkPoint 1 (zone_at 0); mkPoint (11 # 10) (zone_at 1);
            mkPoint (12 # 10) (zone_at 0); mkPoint 2 (zone_at 0) ] (2 # 10)
  = [ (0, 11 # 10, 1%Z); (12 # 10, 2, 1%Z) ].
Proof. reflexivity. Qed.

Example mergeLayers_empty : mergeLayers [] (2 # 10) = [].
Proof. reflexivity. Qed.

End LayerProps.

(** *** computeDistribution *)

Module DistributionProps.
Import Robertson Spec.
Local Open Scope Q_scope.

(** **** The totals *)

Lemma sum_totals_insert_notin (totals : gmap Z Q) (ks : list Z) (k : Z) (v : Q) :
  k ∉ ks -> sum_totals (<[k := v]> totals) ks = sum_totals totals ks.
Proof.
  induction ks as [|k' ks IH]; intros Hk; simpl; [reflexivity|].
  apply not_elem_of_cons in Hk as [Hne Hk].
  rewrite lookup_insert_ne by exact Hne. rewrite IH by exact Hk. reflexivity.
Qed.

Lemma sum_totals_insert_in (totals : gmap Z Q) (ks : list Z) (k : Z) (t : Q) :
  NoDup ks -> k ∈ ks ->
  sum_totals (<[k := default 0 (totals !! k) + t]> totals) ks == sum_totals totals ks + t.
Proof.
  induction ks as [|k' ks IH]; intros Hnd Hk; simpl.
  - apply elem_of_nil in Hk. contradiction.
  - apply NoDup_cons in Hnd as [Hk' Hnd].
    destruct (decide (k = k')) as [->|Hne].
    + rewrite lookup_insert_eq. simpl.
      rewrite sum_totals_insert_notin by exact Hk'. ring.
    + apply elem_of_cons in Hk as [Hk|Hk]; [contradiction|].
      rewrite lookup_insert_ne by exact Hne. rewrite IH by assumption. ring.
Qed.

Lemma counted_nonneg (l : Layer) : 0 <= counted l.
Proof.
  unfold counted. destruct (Qle_bool _ 0) eqn:E; [apply Qle_refl|].
  apply Qle_bool_false in E. apply Qlt_le_weak. exact E.
Qed.

Lemma counted_pos (l : Layer) : startDepth l < endDepth l -> 0 < counted l.
Proof.
  intros H. unfold counted.
  assert (E : Qle_bool (endDepth l - startDepth l) 0 = false)
    by (apply Qle_bool_false; lra).
  rewrite E. lra.
Qed.

Lemma zone_ids_NoDup : NoDup zone_ids.
Proof. compute_done. Qed.

(** The loop keeps: the total thickness is the sum of the counted
    thicknesses and also the sum of the totals of the 9 zones, and every
    total is non-negative. *)
Lemma add_layers_invariant (layers : list Layer) (st : gmap Z Q * Q) :
  Forall (fun l => zone (lzone l) ∈ zone_ids) layers ->
  snd st == sum_totals (fst st) zone_ids ->
  (forall k, 0 <= default 0 (fst st !! k)) ->
  let st' := fold_left add_layer layers st in
  snd st' == sum_totals (fst st') zone_ids
  /\ (forall k, 0 <= default 0 (fst st' !! k))
  /\ snd st' == snd st + foldr (fun l acc => counted l + acc) 0 layers.
Proof.
  revert st. induction layers as [|l layers IH]; intros st Hz Hsum Hpos; simpl.
  - repeat split; try assumption. ring.
  - apply Forall_cons in Hz as [Hl Hz].
    assert (Step : snd (add_layer st l) == sum_totals (fst (add_layer st l)) zone_ids
                   /\ (forall k, 0 <= default 0 (fst (add_layer st l) !! k))
                   /\ snd (add_layer st l) == snd st + counted l).
    { unfold add_layer, counted.
      destruct (Qle_bool (endDepth l - startDepth l) 0) eqn:E; cbn [fst snd].
      - repeat split; try assumption. ring.
      - apply Qle_bool_false in E. split; [|split].
        + rewrite (sum_totals_insert_in (fst st) zone_ids (zone (lzone l)) _
                     zone_ids_NoDup Hl).
          rewrite Hsum. reflexivity.
        + intros k. destruct (decide (zone (lzone l) = k)) as [->|Hne].
          * rewrite lookup_insert_eq.
            change (0 <= default 0 (fst st !! k) + (endDepth l - startDepth l)).
            specialize (Hpos k). lra.
          * rewrite lookup_insert_ne by exact Hne. apply Hpos.
        + reflexivity. }
    destruct Step as (S1 & S2 & S3).
    destruct (IH (add_layer st l) Hz S1 S2) as (I1 & I2 & I3).
    repeat split; try assumption.
    rewrite I3, S3. ring.
Qed.

Lemma sum_counted_nonneg (layers : list Layer) :
  0 <= foldr (fun l acc => counted l + acc) 0 layers.
Proof.
  induction layers as [|l layers IH]; simpl; [apply Qle_refl|].
  pose proof (counted_nonneg l). lra.
Qed.

Lemma sum_counted_pos (layers : list Layer) :
  Exists (fun l => startDepth l < endDepth l) layers ->
  0 < foldr (fun l acc => counted l + acc) 0 layers.
Proof.
  induction 1 as [l layers Hl|l layers _ IH]; simpl.
  - pose proof (counted_pos l Hl). pose proof (sum_counted_nonneg layers). lra.
  - pose proof (counted_nonneg l). lra.
Qed.

Lemma sum_counted_zero (layers : list Layer) :
  Forall (fun l => endDepth l <= startDepth l) layers ->
  fold_left add_layer layers (∅, 0) = (∅, 0).
Proof.
  intros H. generalize (∅ : gmap Z Q, 0).
  induction H as [|l layers Hl _ IH]; intros st; simpl.
  - reflexivity.
  - unfold add_layer at 2.
    assert (E : Qle_bool (endDepth l - startDepth l) 0 = true)
      by (apply Qle_bool_iff; lra).
    rewrite E. apply IH.
Qed.

(** **** The percentages *)

Lemma sum_percentage_perm (l l' : list DistributionEntry) :
  l ≡ₚ l' -> sum_percentage l == sum_percentage l'.
Proof.
  induction 1 as [|x l l' _ IH|x y l|l l' l'' _ IH1 _ IH2]; simpl.
  - reflexivity.
  - rewrite IH. reflexivity.
  - ring.
  - rewrite IH1. exact IH2.
Qed.

Lemma sum_percentage_filter (l : list DistributionEntry) :
  Forall (fun d => 0 <= percentage d) l ->
  sum_percentage (List.filter (fun d => Qltb 0 (percentage d)) l) == sum_percentage l.
Proof.
  induction 1 as [|d l Hd _ IH]; simpl; [reflexivity|].
  destruct (Qltb 0 (percentage d)) eqn:E; simpl.
  - rewrite IH. reflexivity.
  - apply Qltb_ge in E. rewrite IH. lra.
Qed.

Lemma sum_percentage_entries (totals : gmap Z Q) (T : Q) (zs : list SoilZone) :
  ~ T == 0 ->
  sum_percentage
    ((fun z => mkEntry z (default 0 (totals !! zone z))
                 (default 0 (totals !! zone z) / T * 100)) <$> zs)
  == sum_totals totals (zone <$> zs) / T * 100.
Proof.
  intros HT. induction zs as [|z zs IH].
  - change (0 == 0 / T * 100). field. exact HT.
  - change (default 0 (totals !! zone z) / T * 100
            + sum_percentage
                ((fun z => mkEntry z (default 0 (totals !! zone z))
                             (default 0 (totals !! zone z) / T * 100)) <$> zs)
            == (default 0 (totals !! zone z) + sum_totals totals (zone <$> zs)) / T * 100).
    rewrite IH. field. exact HT.
Qed.

Lemma by_percentage_desc_total (a b : DistributionEntry) :
  by_percentage_desc a b = true \/ by_percentage_desc b a = true.
Proof.
  unfold by_percentage_desc.
  destruct (Qlt_le_dec (percentage a) (percentage b)) as [H|H].
  - right. apply Qle_bool_iff. apply Qlt_le_weak. exact H.
  - left. apply Qle_bool_iff. exact H.
Qed.

Lemma by_percentage_desc_trans (a b c : DistributionEntry) :
  by_percentage_desc a b = true -> by_percentage_desc b c = true ->
  by_percentage_desc a c = true.
Proof.
  unfold by_percentage_desc. rewrite !Qle_bool_iff. intros H1 H2.
  eapply Qle_trans; eassumption.
Qed.

Lemma sorted_descending (ds : list DistributionEntry) :
  StronglySorted (fun a b => percentage b <= percentage a)
    (stable_sort by_percentage_desc ds).
Proof.
  pose proof (LayerProps.stable_sort_sorted by_percentage_desc
                by_percentage_desc_total by_percentage_desc_trans ds) as Hs.
  induction Hs as [|d l Hl IH Hd]; constructor; [exact IH|].
  eapply Forall_impl; [exact Hd|].
  intros e He. apply Qle_bool_iff. exact He.
Qed.

(** C5, as stated, fails for a layer set without thickness: the single
    layer of a one-point sounding gives an empty distribution, whose
    percentages add up to 0. *)
Lemma computeDistribution_zero_thickness :
  [ mkLayer 1 1 (mkZone 3 "Klei" "#4CAF50") ] <> []
  /\ ~ distribution_claim (computeDistribution [ mkLayer 1 1 (mkZone 3 "Klei" "#4CAF50") ]).
Proof.
  split; [discriminate|].
  intros (Hsum & _). vm_compute in Hsum. discriminate Hsum.
Qed.

(** C5, amended. For layers whose zones are among the 9 and of which at
    least one has a positive thickness, the percentages returned add up
    to 100 (exactly), each is positive, and they descend.  When no layer
    has a positive thickness the result is empty. *)
Theorem computeDistribution_percentages (layers : list Layer) :
  Forall (fun l => lzone l ∈ ROBERTSON_ZONES) layers ->
  (Exists (fun l => startDepth l < endDepth l) layers ->
     distribution_claim (computeDistribution layers))
  /\ (Forall (fun l => endDepth l <= startDepth l) layers ->
        computeDistribution layers = []).
Proof.
  intros Hz. split.
  - intros Hex.
    assert (Hids : Forall (fun l => zone (lzone l) ∈ zone_ids) layers).
    { eapply Forall_impl; [exact Hz|]. intros l Hl.
      apply list_elem_of_fmap. exists (lzone l). split; [reflexivity|exact Hl]. }
    destruct (add_layers_invariant layers (∅, 0) Hids) as (I1 & I2 & I3).
    { reflexivity. }
    { intros k. cbn [fst]. rewrite lookup_empty. apply Qle_refl. }
    pose proof (sum_counted_pos layers Hex) as Hpos.
    unfold computeDistribution.
    destruct layers as [|l0 layers0]; [inversion Hex|].
    set (st := fold_left add_layer (l0 :: layers0) (∅, 0)) in *.
    cbv zeta. cbn [snd fst] in I3.
    assert (HT : 0 < snd st) by (rewrite I3; lra).
    assert (HT0 : ~ snd st == 0) by lra.
    destruct (Qeq_bool (snd st) 0) eqn:E;
      [apply Qeq_bool_iff in E; contradiction|].
    set (entries := map _ ROBERTSON_ZONES).
    assert (Hnonneg : Forall (fun d => 0 <= percentage d) entries).
    { apply Forall_fmap, Forall_forall. intros z _. simpl.
      specialize (I2 (zone z)).
      apply Qmult_le_0_compat; [|discriminate].
      apply Qmult_le_0_compat; [exact I2|].
      apply Qinv_le_0_compat. apply Qlt_le_weak. exact HT. }
    split; [|split].
    + rewrite (sum_percentage_perm _ _ (LayerProps.stable_sort_perm _ _)).
      rewrite (sum_percentage_filter entries Hnonneg).
      unfold entries.
      rewrite (sum_percentage_entries (fst st) (snd st) ROBERTSON_ZONES HT0).
      fold zone_ids. rewrite <- I1. field. exact HT0.
    + rewrite (LayerProps.stable_sort_perm by_percentage_desc).
      apply Forall_forall. intros d Hd.
      apply list_elem_of_In, filter_In in Hd as [_ Hd].
      apply Qltb_lt. exact Hd.
    + apply sorted_descending.
  - intros Hflat. unfold computeDistribution.
    destruct layers as [|l0 layers0]; [reflexivity|].
    rewrite (sum_counted_zero _ Hflat). reflexivity.
Qed.

Lemma computeDistribution_percentages_witness :
  distribution_claim
    (computeDistribution
       [ mkLayer 0 1 (mkZone 3 "Klei" "#4CAF50"); mkLayer 1 4 (mkZone 6 "Zand" "#FF9800") ])
  /\ computeDistribution [ mkLayer 2 2 (mkZone 3 "Klei" "#4CAF50") ] = [].
Proof.
  split.
  - apply (computeDistribution_percentages
             [ mkLayer 0 1 (mkZone 3 "Klei" "#4CAF50");
               mkLayer 1 4 (mkZone 6 "Zand" "#FF9800") ]).
    + repeat constructor; compute_done.
    + constructor. reflexivity.
  - apply (computeDistribution_percentages [ mkLayer 2 2 (mkZone 3 "Klei" "#4CAF50") ]).
    + repeat constructor; compute_done.
    + repeat constructor. discriminate.
Defined.

Example computeDistribution_example :
  (fun d => (zone (dzone d), thickness d, Qred (percentage d)))
    <$> computeDistribution
          [ mkLayer 0 1 (mkZone 3 "Klei" "#4CAF50"); mkLayer 1 4 (mkZone 6 "Zand" "#FF9800") ]
  = [ (6%Z, 3, 75); (3%Z, 1, 25) ].
Proof. reflexivity. Qed.

End DistributionProps.
(** *** classify: further properties *)

Module RobertsonExtra.
Import Robertson Spec.
Local Open Scope Q_scope.

Ltac tree_facts :=
  repeat match goal with
         | H : (_ || _) = false |- _ => apply orb_false_iff in H as [? ?]
         | H : Qltb _ _ = true |- _ => apply Qltb_lt in H
         | H : Qltb _ _ = false |- _ => apply Qltb_ge in H
         | H : Qle_bool _ _ = true |- _ => apply Qle_bool_iff in H
         | H : Qle_bool _ _ = false |- _ => apply Qle_bool_false in H
         end.

Ltac tree_leaf :=
  match goal with
  | H : zone_at _ = Some _ |- _ => vm_compute in H; injection H as <-
  end;
  tree_facts; cbn [zone];
  repeat split; try lra;
  try match goal with E : _ \/ _ |- _ => destruct E as [E|E] end;
  try match goal with E : @eq Z _ _ |- _ => discriminate E end;
  lra.

(** X1. The zone that [classify] returns bounds the measurement: the
    sands (zones 6 and 7) need [qc > 5] and [rf < 1.5], the very stiff
    soils (zones 8 and 9) need [qc > 5] and [rf >= 1], and the sensitive
    and organic soils (zones 1 and 2) need [qc <= 5] and [rf >= 4]; the
    zones in between (3, 4, 5) are bounded likewise. *)
Theorem classify_zone_ranges (q r : Q) (z : SoilZone) :
  classify (Some (Num q)) (Some (Num r)) = Some z ->
  0 < q /\ 0 <= r
  /\ (zone z = 6%Z \/ zone z = 7%Z -> 5 < q /\ r < 3 # 2)
  /\ (zone z = 8%Z \/ zone z = 9%Z -> 5 < q /\ 1 <= r)
  /\ (zone z = 1%Z \/ zone z = 2%Z -> q <= 5 /\ 4 <= r)
  /\ (zone z = 5%Z -> 2 < q /\ r < 3)
  /\ (zone z = 4%Z -> 1 # 2 < q /\ q <= 10 /\ r < 4)
  /\ (zone z = 3%Z -> q <= 10 /\ r < 6).
Proof.
  unfold classify, js_le, js_lt, js_gt. cbn [to_number].
  destruct (Qle_bool q 0 || Qltb r 0) eqn:G; [discriminate|].
  repeat match goal with
         | |- (if ?b then _ else _) = _ -> _ => destruct b eqn:?
         end;
    intros Hz; tree_leaf.
Qed.

Lemma classify_zone_ranges_witness :
  exists z, classify (Some (Num 12)) (Some (Num (1 # 4))) = Some z
            /\ zone z = 7%Z /\ 5 < 12 /\ 1 # 4 < 3 # 2.
Proof.
  destruct (classify (Some (Num 12)) (Some (Num (1 # 4)))) as [z|] eqn:E.
  - exists z. split; [reflexivity|].
    assert (Hz : zone z = 7%Z) by (vm_compute in E; injection E as <-; reflexivity).
    split; [exact Hz|].
    destruct (classify_zone_ranges 12 (1 # 4) z E) as (_ & _ & H67 & _).
    apply H67. right. exact Hz.
  - vm_compute in E. discriminate E.
Defined.

(** X2. [classify] does not reject a [qc] or an [rf] that is not a
    number.  A [NaN] for [qc] passes the guard and fails every band test,
    so the point is classified like one with a very low [qc], by [rf]
    alone; a [NaN] for [rf] fails every [rf] test and gives the last zone
    of the band of [qc]: zone 8 above 10, zone 9 above 5, zone 1 below. *)
Theorem classify_NaN_not_rejected (q r : Q) :
  (0 <= r ->
     classify (Some NaN) (Some (Num r)) = classify (Some (Num (1 # 2))) (Some (Num r))
     /\ is_Some (classify (Some NaN) (Some (Num r))))
  /\ (0 < q ->
      (zone <$> classify (Some (Num q)) (Some NaN))
      = Some (if Qltb 10 q then 8%Z else if Qltb 5 q then 9%Z else 1%Z))
  /\ (zone <$> classify (Some NaN) (Some NaN)) = Some 1%Z.
Proof.
  split; [|split; [|reflexivity]].
  - intros Hr.
    assert (G : Qltb r 0 = false) by (apply Qltb_ge; exact Hr).
    unfold classify, js_le, js_lt, js_gt. cbn [to_number orb].
    change (Qle_bool (1 # 2) 0) with false. change (Qltb 25 (1 # 2)) with false.
    change (Qltb 10 (1 # 2)) with false. change (Qltb 5 (1 # 2)) with false.
    change (Qltb 2 (1 # 2)) with false. change (Qltb (1 # 2) (1 # 2)) with false.
    rewrite G. cbn [orb]. split; [reflexivity|].
    destruct (Qltb r 5); [eexists; reflexivity|].
    destruct (Qltb r 10); eexists; reflexivity.
  - intros Hq.
    assert (G : Qle_bool q 0 = false) by (apply Qle_bool_false; exact Hq).
    unfold classify, js_le, js_lt, js_gt. cbn [to_number]. rewrite G. cbn [orb].
    destruct (Qltb 25 q) eqn:E25.
    { assert (E10 : Qltb 10 q = true) by (apply Qltb_lt; apply Qltb_lt in E25; lra).
      rewrite E10. reflexivity. }
    destruct (Qltb 10 q) eqn:E10; [reflexivity|].
    destruct (Qltb 5 q) eqn:E5; [reflexivity|].
    destruct (Qltb 2 q); [reflexivity|].
    destruct (Qltb (1 # 2) q); reflexivity.
Qed.

Lemma classify_NaN_not_rejected_witness :
  (zone <$> classify (Some NaN) (Some (Num 7))) = Some 2%Z
  /\ (zone <$> classify (Some (Num 12)) (Some NaN)) = Some 8%Z.
Proof.
  destruct (classify_NaN_not_rejected 12 7) as (H1 & H2 & _).
  split.
  - destruct (H1 ltac:(discriminate)) as [-> _]. reflexivity.
  - rewrite (H2 eq_refl). reflexivity.
Defined.

End RobertsonExtra.

(** *** mergeLayers: further properties *)

Module LayerExtra.
Import Robertson Spec LayerProps.
Local Open Scope Q_scope.

(** **** Points without a zone *)

Lemma valid_points_filter (pts : list ClassifiedPoint) :
  valid_points
    (List.filter (fun p => match pzone p with Some _ => true | None => false end) pts)
  = valid_points pts.
Proof.
  unfold valid_points. induction pts as [|[d [z|]] pts IH]; simpl; [reflexivity| |exact IH].
  f_equal. exact IH.
Qed.

Lemma valid_points_nil (pts : list ClassifiedPoint) :
  valid_points pts = [] <-> Forall (fun p => pzone p = None) pts.
Proof.
  unfold valid_points. induction pts as [|[d [z|]] pts IH]; simpl.
  - split; [constructor|reflexivity].
  - split; [discriminate|]. intros H. apply Forall_cons in H as [H _]. discriminate.
  - rewrite IH. split; [intros H; constructor; [reflexivity|exact H]|].
    intros H. apply Forall_cons in H as [_ H]. exact H.
Qed.

Lemma absorb_thin_nonempty (minThickness : Q) (layers merged : list Layer) (l : Layer) :
  absorb_thin minThickness (l :: merged) layers <> [].
Proof.
  revert l merged. induction layers as [|x layers IH]; intros l merged; simpl.
  - intros H. apply app_eq_nil in H as [_ H]. discriminate.
  - destruct (Qltb _ _); apply IH.
Qed.

Lemma stable_sort_nil {A : Type} (le : A -> A -> bool) (l : list A) :
  stable_sort le l = [] <-> l = [].
Proof.
  split; [|intros ->; reflexivity].
  intros H. apply Permutation_nil_r. rewrite <- H. symmetry. apply stable_sort_perm.
Qed.

(** X4. [mergeLayers] does not look at the points without a zone, and its
    result is empty exactly when no point has a zone. *)
Theorem mergeLayers_unclassified (pts : list ClassifiedPoint) (minThickness : Q) :
  mergeLayers
    (List.filter (fun p => match pzone p with Some _ => true | None => false end) pts)
    minThickness
  = mergeLayers pts minThickness
  /\ (mergeLayers pts minThickness = [] <-> Forall (fun p => pzone p = None) pts).
Proof.
  split.
  - unfold mergeLayers. rewrite valid_points_filter. reflexivity.
  - rewrite <- valid_points_nil, <- (stable_sort_nil by_depth).
    unfold mergeLayers.
    destruct (stable_sort by_depth (valid_points pts)) as [|v0 vs].
    + split; reflexivity.
    + split; [|discriminate]. intros H. exfalso. revert H. cbv zeta.
      destruct (build_layers_head (mkLayer (fst v0) (fst v0) (snd v0)) vs)
        as (l & ls & -> & _).
      destruct ls as [|l1 rest]; [discriminate|].
      destruct (Qltb 0 minThickness); [|discriminate].
      apply absorb_thin_nonempty.
Qed.

(** **** The runs of the valid points, whatever the zones of the input *)

Lemma valid_point_in (pts : list ClassifiedPoint) (v : Q * SoilZone) :
  v ∈ valid_points pts -> to_cp v ∈ pts.
Proof.
  unfold valid_points. intros H. apply list_elem_of_omap in H as ([d z] & Hin & Hv).
  simpl in Hv. destruct z as [z|]; [|discriminate]. injection Hv as <-. exact Hin.
Qed.

Lemma sorted_valid_in (pts : list ClassifiedPoint) (p : ClassifiedPoint) :
  p ∈ to_cp <$> stable_sort by_depth (valid_points pts) -> p ∈ pts.
Proof.
  intros H. apply list_elem_of_fmap in H as (v & -> & Hv).
  apply valid_point_in. rewrite (stable_sort_perm by_depth) in Hv. exact Hv.
Qed.

Lemma runs_length (segs : list (list ClassifiedPoint)) (ls : list Layer) :
  Forall2 spans segs ls -> (length ls <= length (concat segs))%nat.
Proof.
  induction 1 as [|seg l segs ls Hsp _ IH]; simpl; [lia|].
  rewrite length_app. apply spans_nonempty in Hsp.
  destruct seg; [congruence|]. simpl. lia.
Qed.

Lemma valid_points_length (pts : list ClassifiedPoint) :
  (length (valid_points pts) <= length pts)%nat.
Proof.
  unfold valid_points. induction pts as [|[d [z|]] pts IH]; [simpl; lia| |].
  - change (S (length (valid_points pts)) <= S (length pts))%nat.
    unfold valid_points. lia.
  - change (length (valid_points pts) <= S (length pts))%nat.
    unfold valid_points. lia.
Qed.

Lemma elem_of_concat {A : Type} (x : A) (seg : list A) (segs : list (list A)) :
  x ∈ seg -> seg ∈ segs -> x ∈ concat segs.
Proof.
  intros Hx Hseg. apply list_elem_of_In. apply in_concat.
  exists seg. split; apply list_elem_of_In; assumption.
Qed.


(** Whatever the zones of the input, the layers are in depth order and
    do not overlap. *)
Lemma mergeLayers_ordered (pts : list ClassifiedPoint) (minThickness : Q) :
  ordered_layers (mergeLayers pts minThickness).
Proof.
  destruct (mergeLayers_cut_sorted pts minThickness) as (segs & Hc & Hf).
  apply (runs_ordered segs); [|exact Hf].
  rewrite Hc. apply sorted_points.
Qed.

Lemma mergeLayers_endpoints (pts : list ClassifiedPoint) (minThickness : Q) (l : Layer) :
  l ∈ mergeLayers pts minThickness ->
  exists p q, p ∈ pts /\ q ∈ pts
              /\ depth p = startDepth l /\ pzone p = Some (lzone l)
              /\ depth q = endDepth l.
Proof.
  destruct (mergeLayers_cut_sorted pts minThickness) as (segs & Hc & Hf).
  intros Hl.
  apply list_elem_of_lookup in Hl as [i Hi].
  destruct (Forall2_lookup_r _ _ _ _ _ Hf Hi) as (seg & Hseg & (p & q & Hh & Hla & Hs & He & Hz)).
  assert (Hsub : forall x, x ∈ seg -> x ∈ pts).
  { intros x Hx. apply sorted_valid_in. rewrite <- Hc.
    apply (elem_of_concat x seg); [exact Hx|].
    apply list_elem_of_lookup. eauto. }
  exists p, q. repeat split; try (symmetry; assumption); try assumption.
  + apply Hsub. apply head_Some_elem_of. exact Hh.
  + apply Hsub. apply last_Some_elem_of. exact Hla.
Qed.

(** X5. Whatever the zones of the input, the layers are in depth order
    and do not overlap, every layer starts at the depth of an input point
    of the layer's zone and ends at the depth of an input point, and
    there are no more layers than input points. *)
Theorem mergeLayers_from_points (pts : list ClassifiedPoint) (minThickness : Q) :
  ordered_layers (mergeLayers pts minThickness)
  /\ (forall l, l ∈ mergeLayers pts minThickness ->
        exists p q, p ∈ pts /\ q ∈ pts
                    /\ depth p = startDepth l /\ pzone p = Some (lzone l)
                    /\ depth q = endDepth l)
  /\ (length (mergeLayers pts minThickness) <= length pts)%nat.
Proof.
  split; [apply mergeLayers_ordered|].
  split; [intros l; apply mergeLayers_endpoints|].
  destruct (mergeLayers_cut_sorted pts minThickness) as (segs & Hc & Hf).
  etransitivity; [apply (runs_length segs), Hf|].
  rewrite Hc, length_fmap.
  rewrite (Permutation_length (stable_sort_perm by_depth (valid_points pts))).
  apply valid_points_length.
Qed.

(** **** Thin layers *)

Lemma ordered_layers_mid (X Y : list Layer) (a b : Layer) :
  ordered_layers (X ++ a :: b :: Y) ->
  startDepth a <= endDepth a /\ endDepth a <= startDepth b /\ startDepth b <= endDepth b.
Proof.
  induction X as [|x X IH]; simpl.
  - intros (H1 & H2 & H3 & _). repeat split; assumption.
  - intros (_ & _ & H). apply IH. exact H.
Qed.

Lemma ordered_layers_absorb (X Y : list Layer) (a b : Layer) :
  ordered_layers (X ++ a :: b :: Y) ->
  ordered_layers (X ++ mkLayer (startDepth a) (endDepth b) (lzone a) :: Y).
Proof.
  induction X as [|x X IH]; simpl.
  - intros (H1 & H2 & H3 & H4 & H5). repeat split; try assumption. lra.
  - intros (H1 & H2 & H3). split; [exact H1|]. split; [|apply IH; exact H3].
    destruct X; exact H2.
Qed.

Lemma absorb_thin_thick (minThickness : Q) (layers merged : list Layer) (final : Layer) :
  ordered_layers (rev (final :: merged) ++ layers) ->
  Forall (fun l => minThickness <= endDepth l - startDepth l) (tl (rev (final :: merged))) ->
  Forall (fun l => minThickness <= endDepth l - startDepth l)
    (tl (absorb_thin minThickness (final :: merged) layers)).
Proof.
  revert final merged.
  induction layers as [|l layers IH]; intros final merged Hord Hthick.
  - exact Hthick.
  - cbn [absorb_thin].
    destruct (Qltb (endDepth l - startDepth l) minThickness) eqn:E.
    + apply IH.
      * cbn [rev] in *. rewrite <- app_assoc in *. cbn [app] in *.
        apply ordered_layers_absorb. exact Hord.
      * cbn [rev] in *. rewrite <- app_assoc in Hord. cbn [app] in Hord.
        apply ordered_layers_mid in Hord as (H1 & H2 & H3).
        destruct (rev merged) as [|x t]; [constructor|].
        cbn [app tl] in *. apply Forall_app in Hthick as [Ht Hf].
        apply Forall_app. split; [exact Ht|].
        apply Forall_cons in Hf as [Hf _]. repeat constructor. simpl. lra.
    + apply IH.
      * change (rev (l :: final :: merged)) with (rev (final :: merged) ++ [l]).
        rewrite <- app_assoc. exact Hord.
      * change (rev (l :: final :: merged)) with (rev (final :: merged) ++ [l]).
        apply Qltb_ge in E.
        cbn [rev] in *. destruct (rev merged) as [|x t]; cbn [app tl] in *.
        -- repeat constructor. exact E.
        -- apply Forall_app. split; [exact Hthick|]. repeat constructor. exact E.
Qed.

Lemma build_layers_ordered (v0 : Q * SoilZone) (vs : list (Q * SoilZone)) :
  depth_sorted (to_cp <$> v0 :: vs) ->
  ordered_layers (build_layers (mkLayer (fst v0) (fst v0) (snd v0)) vs).
Proof.
  intros Hs.
  destruct (build_layers_runs (mkLayer (fst v0) (fst v0) (snd v0)) [to_cp v0] vs)
    as (segs & [Hc Hf] & _ & _).
  { apply spans_singleton. }
  { repeat constructor. }
  apply (runs_ordered segs); [|exact Hf]. rewrite Hc. exact Hs.
Qed.

Lemma mergeLayers_tail_thick (pts : list ClassifiedPoint) (minThickness : Q) :
  0 < minThickness ->
  Forall (fun l => minThickness <= endDepth l - startDepth l)
    (tl (mergeLayers pts minThickness)).
Proof.
  intros Hm. unfold mergeLayers.
  pose proof (sorted_points (valid_points pts)) as Hs.
  destruct (stable_sort by_depth (valid_points pts)) as [|v0 vs]; [constructor|].
  pose proof (build_layers_ordered v0 vs Hs) as Hord.
  cbv zeta.
  destruct (build_layers (mkLayer (fst v0) (fst v0) (snd v0)) vs)
    as [|r0 [|r1 rs]]; [constructor|constructor|].
  apply Qltb_lt in Hm. rewrite Hm.
  apply (absorb_thin_thick minThickness (r1 :: rs) [] r0 Hord). constructor.
Qed.

(** X6. With a positive [minThickness], every layer returned except the
    first is at least that thick. *)
Theorem mergeLayers_min_thickness (pts : list ClassifiedPoint) (minThickness : Q)
    (l0 : Layer) (rest : list Layer) :
  0 < minThickness ->
  mergeLayers pts minThickness = l0 :: rest ->
  Forall (fun l => minThickness <= endDepth l - startDepth l) rest.
Proof.
  intros Hm E. pose proof (mergeLayers_tail_thick pts minThickness Hm) as H.
  rewrite E in H. exact H.
Qed.

Lemma mergeLayers_min_thickness_witness :
  Forall (fun l => 2 # 10 <= endDepth l - startDepth l)
    (tl (mergeLayers
           [ mkPoint 0 (zone_at 2); mkPoint 1 (zone_at 2); mkPoint (11 # 10) (zone_at 5);
             mkPoint (12 # 10) (zone_at 1); mkPoint 2 (zone_at 1) ] (2 # 10))).
Proof.
  apply (mergeLayers_min_thickness
           [ mkPoint 0 (zone_at 2); mkPoint 1 (zone_at 2); mkPoint (11 # 10) (zone_at 5);
             mkPoint (12 # 10) (zone_at 1); mkPoint 2 (zone_at 1) ] (2 # 10)
           (mkLayer 0 (11 # 10) (mkZone 3 "Klei" "#4CAF50"))).
  - reflexivity.
  - reflexivity.
Defined.

(** **** The order of the input *)

Lemma to_cp_inj (v w : Q * SoilZone) : to_cp v = to_cp w -> v = w.
Proof.
  destruct v, w. unfold to_cp. simpl. intros H. injection H as -> ->. reflexivity.
Qed.

(** X7. The order in which the points are given does not matter, as long
    as no two different classified points have the same depth. *)
Theorem mergeLayers_order_irrelevant (pts pts' : list ClassifiedPoint) (minThickness : Q) :
  pts ≡ₚ pts' ->
  (forall p q, p ∈ pts -> q ∈ pts -> depth p == depth q -> p = q) ->
  mergeLayers pts minThickness = mergeLayers pts' minThickness.
Proof.
  intros Hperm Hdistinct.
  assert (Hv : valid_points pts ≡ₚ valid_points pts').
  { unfold valid_points. rewrite Hperm. reflexivity. }
  assert (E : stable_sort by_depth (valid_points pts)
              = stable_sort by_depth (valid_points pts')).
  { apply (StronglySorted_unique_strong (fun a b => by_depth a b = true)).
    - intros x1 x2 H1 H2 R12 R21.
      rewrite (stable_sort_perm by_depth) in H1, H2. rewrite <- Hv in H2.
      apply valid_point_in in H1, H2. apply to_cp_inj. apply Hdistinct; try assumption.
      unfold by_depth in *. apply Qle_bool_iff in R12, R21. simpl.
      apply Qle_antisym; assumption.
    - apply stable_sort_sorted; [apply by_depth_total|apply by_depth_trans].
    - apply stable_sort_sorted; [apply by_depth_total|apply by_depth_trans].
    - rewrite !(stable_sort_perm by_depth). exact Hv. }
  unfold mergeLayers. rewrite E. reflexivity.
Qed.

Lemma mergeLayers_order_irrelevant_witness :
  mergeLayers [ mkPoint 0 (zone_at 2); mkPoint 1 (zone_at 2); mkPoint 2 (zone_at 5) ] (2 # 10)
  = mergeLayers [ mkPoint 2 (zone_at 5); mkPoint 0 (zone_at 2); mkPoint 1 (zone_at 2) ] (2 # 10).
Proof.
  apply mergeLayers_order_irrelevant.
  - change ([mkPoint 0 (zone_at 2); mkPoint 1 (zone_at 2)] ++ [mkPoint 2 (zone_at 5)]
            ≡ₚ [mkPoint 2 (zone_at 5)] ++ [mkPoint 0 (zone_at 2); mkPoint 1 (zone_at 2)]).
    apply Permutation_app_comm.
  - intros p q Hp Hq. rewrite !elem_of_cons, elem_of_nil in Hp, Hq.
    destruct Hp as [->|[->|[->|[]]]], Hq as [->|[->|[->|[]]]];
      intros H; try reflexivity; vm_compute in H; discriminate H.
Defined.

End LayerExtra.

(** *** computeDistribution: further properties *)

Module DistributionExtra.
Import Robertson Spec LayerProps DistributionProps.
Local Open Scope Q_scope.

Lemma add_layer_totals (st : gmap Z Q * Q) (l : Layer) (k : Z) :
  default 0 (fst (add_layer st l) !! k)
  == default 0 (fst st !! k) + (if Z.eqb (zone (lzone l)) k then counted l else 0)
  /\ snd (add_layer st l) == snd st + counted l.
Proof.
  unfold add_layer, counted.
  destruct (Qle_bool (endDepth l - startDepth l) 0); cbn [fst snd].
  - destruct (Z.eqb _ k); split; ring.
  - split; [|reflexivity].
    destruct (Z.eqb_spec (zone (lzone l)) k) as [->|Hne].
    + rewrite lookup_insert_eq. reflexivity.
    + rewrite lookup_insert_ne by exact Hne. ring.
Qed.

(** After the loop, the total of a zone is the thickness of the layers
    of that zone, and the total thickness that of all the layers. *)
Lemma add_layers_totals (layers : list Layer) (st : gmap Z Q * Q) (k : Z) :
  default 0 (fst (fold_left add_layer layers st) !! k)
  == default 0 (fst st !! k) + zone_thickness k layers
  /\ snd (fold_left add_layer layers st) == snd st + total_thickness layers.
Proof.
  revert st. induction layers as [|l layers IH]; intros st.
  - simpl. split; ring.
  - cbn [fold_left]. destruct (IH (add_layer st l)) as [I1 I2].
    destruct (add_layer_totals st l k) as [S1 S2].
    rewrite I1, I2, S1, S2.
    change (zone_thickness k (l :: layers))
      with ((if Z.eqb (zone (lzone l)) k then counted l else 0) + zone_thickness k layers).
    change (total_thickness (l :: layers)) with (counted l + total_thickness layers).
    split; ring.
Qed.

Lemma zone_thickness_nonneg (k : Z) (layers : list Layer) : 0 <= zone_thickness k layers.
Proof.
  induction layers as [|l layers IH]; simpl; [apply Qle_refl|].
  pose proof (counted_nonneg l). destruct (Z.eqb _ k); lra.
Qed.

Lemma zone_thickness_le_total (k : Z) (layers : list Layer) :
  zone_thickness k layers <= total_thickness layers.
Proof.
  induction layers as [|l layers IH]; simpl; [apply Qle_refl|].
  pose proof (counted_nonneg l). destruct (Z.eqb _ k); lra.
Qed.

Lemma ROBERTSON_ZONES_NoDup : NoDup ROBERTSON_ZONES.
Proof.
  apply (NoDup_fmap_1 zone). apply zone_ids_NoDup.
Qed.

Lemma filter_entries_NoDup (P : DistributionEntry -> bool)
    (f : SoilZone -> DistributionEntry) (zs : list SoilZone) :
  (forall z, dzone (f z) = z) -> NoDup zs ->
  NoDup (dzone <$> List.filter P (f <$> zs)).
Proof.
  intros Hf. induction 1 as [|z zs Hz Hnd IH]; simpl; [constructor|].
  destruct (P (f z)); [|exact IH].
  cbn [fmap list_fmap]. constructor; [|exact IH].
  rewrite Hf. intros Hin. apply Hz.
  apply list_elem_of_fmap in Hin as (d & -> & Hd).
  apply list_elem_of_In, filter_In in Hd as [Hd _].
  apply list_elem_of_In, list_elem_of_fmap in Hd as (z' & -> & Hz').
  rewrite Hf. exact Hz'.
Qed.


(** X8. Every entry of the distribution is for a zone of the table, no
    zone has two entries, the thickness of an entry is the (positive) sum
    of the positive thicknesses of the layers of its zone, and its
    percentage is that thickness over the total thickness of all layers,
    times 100, hence at most 100. *)
Theorem computeDistribution_entries (layers : list Layer) :
  NoDup (dzone <$> computeDistribution layers)
  /\ forall d, d ∈ computeDistribution layers ->
       dzone d ∈ ROBERTSON_ZONES
       /\ thickness d == zone_thickness (zone (dzone d)) layers
       /\ 0 < thickness d
       /\ percentage d == thickness d / total_thickness layers * 100
       /\ percentage d <= 100.
Proof.
  unfold computeDistribution.
  destruct layers as [|l0 layers0]; [split; [constructor|intros d Hd; inversion Hd]|].
  set (layers := l0 :: layers0).
  set (st := fold_left add_layer layers (∅, 0)). cbv zeta.
  destruct (Qeq_bool (snd st) 0) eqn:E; [split; [constructor|intros d Hd; inversion Hd]|].
  assert (HT0 : ~ snd st == 0) by (intros H; apply Qeq_bool_iff in H; congruence).
  destruct (add_layers_totals layers (∅, 0) 0%Z) as [_ HT].
  fold st in HT. cbn [snd] in HT.
  assert (HTpos : 0 < snd st).
  { pose proof (sum_counted_nonneg layers) as Hn. fold (total_thickness layers) in Hn. lra. }
  split.
  - rewrite (stable_sort_perm by_percentage_desc).
    apply filter_entries_NoDup; [reflexivity|apply ROBERTSON_ZONES_NoDup].
  - intros d Hd. rewrite (stable_sort_perm by_percentage_desc) in Hd.
    apply list_elem_of_In, filter_In in Hd as [Hd Hp].
    apply list_elem_of_In, list_elem_of_fmap in Hd as (z & -> & Hz).
    cbn [dzone thickness percentage] in *. apply Qltb_lt in Hp.
    destruct (add_layers_totals layers (∅, 0) (zone z)) as [Hk _].
    fold st in Hk. cbn [fst] in Hk. rewrite lookup_empty in Hk.
    change (default 0 None) with 0 in Hk.
    pose proof (zone_thickness_nonneg (zone z) layers) as Hn.
    pose proof (zone_thickness_le_total (zone z) layers) as Hle.
    set (t := default 0 (fst st !! zone z)) in *.
    assert (Ht : t == zone_thickness (zone z) layers) by (rewrite Hk; ring).
    assert (Hpct : t / snd st * 100 == t / total_thickness layers * 100).
    { assert (HT' : snd st == total_thickness layers) by (rewrite HT; ring).
      rewrite HT'. reflexivity. }
    split; [exact Hz|]. split; [exact Ht|]. split; [|split; [exact Hpct|]].
    + destruct (Qlt_le_dec 0 t) as [H|H]; [exact H|].
      exfalso. assert (Hz0 : t == 0) by lra.
      rewrite Hz0 in Hp. unfold Qdiv in Hp. rewrite !Qmult_0_l in Hp.
      apply (Qlt_irrefl 0). exact Hp.
    + assert (Hfrac : t / snd st <= 1).
      { apply Qle_shift_div_r; [exact HTpos|]. lra. }
      lra.
Qed.

End DistributionExtra.
(** *** classifyDataset: which rows are kept, and with what depth *)

Module DatasetExtra.
Import Robertson Spec.
Local Open Scope Q_scope.




End DatasetExtra.
(** *** Numbers *)

Module NumberProps.
Import JsString.

(** **** The powers of two *)

Lemma pow2_Qpower (e : Z) : pow2 e == 2 ^ e.
Proof.
  unfold pow2. destruct (0 <=? e)%Z eqn:E.
  - apply Z.leb_le in E. rewrite Zpower_Qpower by exact E. reflexivity.
  - apply Z.leb_gt in E.
    rewrite <- (Z.opp_involutive e) at 2. rewrite Qpower_opp.
    rewrite <- (Zpower_Qpower 2) by lia.
    pose proof (Z.pow_pos_nonneg 2 (- e)) as Hpos.
    destruct (2 ^ (- e))%Z as [|k|k]; try lia. reflexivity.
Qed.

Lemma pow2_pos (e : Z) : 0 < pow2 e.
Proof.
  unfold pow2. destruct (0 <=? e)%Z eqn:E.
  - apply Z.leb_le in E. change 0 with (inject_Z 0). rewrite <- Zlt_Qlt.
    apply Z.pow_pos_nonneg; lia.
  - reflexivity.
Qed.

Lemma pow2_le (p e : Z) : (p <= e)%Z -> pow2 p <= pow2 e.
Proof.
  intros H. rewrite !pow2_Qpower. apply Qpower_le_compat_l; [exact H|discriminate].
Qed.

Lemma binary_exponent_le (a : Q) : 0 < a -> pow2 (binary_exponent a) <= a.
Proof.
  intros Ha. unfold binary_exponent.
  set (ln := Z.log2 (Qnum a)). set (ld := Z.log2 (Z.pos (Qden a))).
  destruct (Qle_bool (pow2 (ln - ld)) a) eqn:E; [apply Qle_bool_iff; exact E|].
  clear E. destruct a as [num den]. cbn [Qnum Qden] in *.
  assert (Hnum : (0 < num)%Z) by (unfold Qlt in Ha; simpl in Ha; lia).
  destruct (Z.log2_spec num Hnum) as [Hn1 _]. fold ln in Hn1.
  destruct (Z.log2_spec (Z.pos den) eq_refl) as [_ Hd2]. fold ld in Hd2.
  assert (Hln : (0 <= ln)%Z) by apply Z.log2_nonneg.
  assert (Hld : (0 <= ld)%Z) by apply Z.log2_nonneg.
  rewrite pow2_Qpower.
  replace (ln - ld - 1)%Z with (ln - (ld + 1))%Z by lia.
  rewrite Qpower_minus by discriminate.
  rewrite <- !(Zpower_Qpower 2) by lia.
  rewrite (Qmake_Qdiv num den).
  assert (HP : inject_Z (2 ^ ln) <= inject_Z num) by (rewrite <- Zle_Qle; exact Hn1).
  assert (HD : inject_Z (Z.pos den) <= inject_Z (2 ^ Z.succ ld))
    by (rewrite <- Zle_Qle; lia).
  replace (ld + 1)%Z with (Z.succ ld) by lia.
  assert (H0 : 0 < inject_Z (Z.pos den)) by reflexivity.
  assert (H1 : 0 < inject_Z (2 ^ ln)).
  { change 0 with (inject_Z 0). rewrite <- Zlt_Qlt. apply Z.pow_pos_nonneg; lia. }
  apply Qle_shift_div_l; [exact H0|].
  unfold Qdiv. rewrite <- Qmult_assoc, (Qmult_comm (/ _)), Qmult_assoc.
  apply Qle_shift_div_r; [lra|]. nra.
Qed.

(** **** Rounding to a double *)

Lemma binary_exponent_lt (a : Q) (b : Z) :
  0 < a -> a < pow2 b -> (binary_exponent a < b)%Z.
Proof.
  intros Ha Hb. destruct (Z.lt_ge_cases (binary_exponent a) b) as [H|H]; [exact H|].
  pose proof (pow2_le _ _ H). pose proof (binary_exponent_le a Ha). lra.
Qed.

(** An integer below [2^53] in absolute value is a double. *)
Lemma round_double_integer (x : Q) (k : Z) :
  x == inject_Z k -> (Z.abs k < 2 ^ 53)%Z -> round_double x = Num x.
Proof.
  intros Hx Hk. unfold round_double.
  destruct (Qeq_bool x 0) eqn:E0; [reflexivity|].
  assert (Hne : ~ x == 0) by (apply Qeq_bool_neq; exact E0).
  assert (Ha : Qabs x == inject_Z (Z.abs k)).
  { rewrite Hx. reflexivity. }
  assert (Hpos : 0 < Qabs x).
  { rewrite Ha. change 0 with (inject_Z 0). rewrite <- Zlt_Qlt.
    assert (k <> 0)%Z; [|lia]. intros ->. apply Hne. exact Hx. }
  assert (He : (binary_exponent (Qabs x) < 53)%Z).
  { apply binary_exponent_lt; [exact Hpos|]. rewrite Ha.
    change (pow2 53) with (inject_Z (2 ^ 53)). rewrite <- Zlt_Qlt. exact Hk. }
  cbv zeta.
  destruct (1024 <=? binary_exponent (Qabs x))%Z eqn:E1; [apply Z.leb_le in E1; lia|].
  set (p := (Z.max (binary_exponent (Qabs x)) (-1022) - 52)%Z).
  assert (Hp : (p <= 0)%Z) by (subst p; lia).
  assert (Hn : Qabs x / pow2 p == inject_Z (Z.abs k * 2 ^ (- p))).
  { rewrite Ha, pow2_Qpower, inject_Z_mult, Zpower_Qpower by lia.
    rewrite Qpower_opp. unfold Qdiv. reflexivity. }
  assert (Hr : Qeq_bool (Qabs x / pow2 p - inject_Z (Qfloor (Qabs x / pow2 p))) 0 = true).
  { apply Qeq_bool_iff. rewrite (Qfloor_comp _ _ Hn), Qfloor_Z, Hn. ring. }
  rewrite Hr. reflexivity.
Qed.

(** A number that is at most [-1] stays below zero when it is rounded. *)
Lemma round_double_negative (x : Q) :
  x <= - 1 ->
  match round_double x with
  | Num q => q < 0
  | Inf _ => True
  | _ => False
  end.
Proof.
  intros Hx. unfold round_double.
  destruct (Qeq_bool x 0) eqn:E0; [apply Qeq_bool_iff in E0; lra|].
  assert (Ha : Qabs x == - x) by (apply Qabs_neg; lra).
  cbv zeta.
  destruct (1024 <=? binary_exponent (Qabs x))%Z; [exact I|].
  set (p := (Z.max (binary_exponent (Qabs x)) (-1022) - 52)%Z).
  destruct (Qeq_bool (Qabs x / pow2 p - inject_Z (Qfloor (Qabs x / pow2 p))) 0);
    [lra|].
  assert (Hp : pow2 p <= Qabs x).
  { destruct (Z.le_gt_cases (-1022) (binary_exponent (Qabs x))) as [H|H].
    - apply (Qle_trans _ (pow2 (binary_exponent (Qabs x)))).
      + apply pow2_le. subst p. lia.
      + apply binary_exponent_le. lra.
    - apply (Qle_trans _ (pow2 0)); [apply pow2_le; subst p; lia|].
      change (pow2 0) with 1. lra. }
  pose proof (pow2_pos p) as Hpos.
  assert (Hf : (1 <= Qfloor (Qabs x / pow2 p))%Z).
  { change 1%Z with (Qfloor 1). apply Qfloor_resp_le.
    apply Qle_shift_div_l; [exact Hpos|]. lra. }
  set (f := Qfloor (Qabs x / pow2 p)) in *.
  set (r := Qabs x / pow2 p - inject_Z f).
  set (m := if Qltb r (1 # 2) then f
            else if Qltb (1 # 2) r then (f + 1)%Z
            else if Z.even f then f else (f + 1)%Z).
  assert (Hm : (1 <= m)%Z).
  { subst m. destruct (Qltb r (1 # 2)); [exact Hf|].
    destruct (Qltb (1 # 2) r); [lia|]. destruct (Z.even f); lia. }
  destruct ((m =? 2 ^ 53) && (p =? 971))%Z; [exact I|].
  assert (Hlt : Qltb x 0 = true).
  { unfold Qltb. apply negb_true_iff. destruct (Qle_bool 0 x) eqn:E; [|reflexivity].
    apply Qle_bool_iff in E. lra. }
  rewrite Hlt.
  assert (Hm' : 1 <= inject_Z m) by (change 1 with (inject_Z 1); rewrite <- Zle_Qle; exact Hm).
  nra.
Qed.

(** **** The index of a column number *)

Lemma integer_key_minus_one (q : Q) (n : Z) :
  q == inject_Z n -> (Z.abs (n - 1) < 2 ^ 53)%Z ->
  integer_key (minus_one (Num q)) = Some (n - 1)%Z.
Proof.
  intros Hq Hn. unfold minus_one.
  assert (Hx : q - 1 == inject_Z (n - 1)).
  { unfold Zminus. rewrite inject_Z_plus, inject_Z_opp, Hq. reflexivity. }
  rewrite (round_double_integer _ _ Hx Hn). unfold integer_key.
  rewrite (Qfloor_comp _ _ Hx), Qfloor_Z.
  assert (E : Qeq_bool (inject_Z (n - 1)) (q - 1) = true)
    by (apply Qeq_bool_iff; symmetry; exact Hx).
  rewrite E. reflexivity.
Qed.

Lemma integer_key_minus_one_negative (q : Q) (n z : Z) :
  q == inject_Z n -> (n < 1)%Z ->
  integer_key (minus_one (Num q)) = Some z -> (z < 0)%Z.
Proof.
  intros Hq Hn. unfold minus_one.
  assert (Hx : q - 1 <= - 1).
  { assert (inject_Z n <= inject_Z 0) by (rewrite <- Zle_Qle; lia).
    change (inject_Z 0) with 0 in H. lra. }
  pose proof (round_double_negative _ Hx) as H.
  destruct (round_double (q - 1)) as [| |q'|s]; try discriminate.
  unfold integer_key. destruct (Qeq_bool (inject_Z (Qfloor q')) q') eqn:E; [|discriminate].
  intros Hz. injection Hz as <-. apply Qeq_bool_iff in E.
  rewrite Zlt_Qlt, E. exact H.
Qed.

End NumberProps.


(** *** Parser A *)

Module GefProps.
Import JsString FormatRecord GefParser Spec.

(** **** The scan of the header lines *)







(** **** The declarations of the header lines *)








(** **** The column map *)





(** **** The derived columns *)


Lemma hasKey_app (columnMap : list Column) (c : Column) (k : string) :
  key c <> k -> hasKey (columnMap ++ [c]) k = hasKey columnMap k.
Proof.
  intros Hne. unfold hasKey. rewrite existsb_app. simpl.
  destruct (decide (key c = k)); [contradiction|]. rewrite !orb_false_r. reflexivity.
Qed.

(** What [_computeDerived] does to each row and to the column map. *)
Lemma computeDerived_shape (data : list (gmap string value)) (columnMap : list Column) :
  _computeDerived data columnMap
  = ((fun row =>
        (if negb (hasKey columnMap "rf") && hasKey columnMap "qc" && hasKey columnMap "fs"
         then derive_rf else id)
          ((if negb (hasKey columnMap "depth") && hasKey columnMap "length"
            then derive_depth else id) row)) <$> data,
     (columnMap
      ++ (if negb (hasKey columnMap "depth") && hasKey columnMap "length"
          then [mkColumn None "depth" "Diepte (berekend)" "m" None None true] else []))
     ++ (if negb (hasKey columnMap "rf") && hasKey columnMap "qc" && hasKey columnMap "fs"
         then [mkColumn None "rf" "Wrijvingsgetal (berekend)" "%" None None true] else [])).
Proof.
  unfold _computeDerived.
  destruct (negb (hasKey columnMap "depth") && hasKey columnMap "length").
  - rewrite !(hasKey_app columnMap _ _) by discriminate.
    destruct (negb (hasKey columnMap "rf") && hasKey columnMap "qc" && hasKey columnMap "fs").
    + rewrite <- list_fmap_compose. reflexivity.
    + rewrite app_nil_r. reflexivity.
  - rewrite !app_nil_r.
    destruct (negb (hasKey columnMap "rf") && hasKey columnMap "qc" && hasKey columnMap "fs").
    + reflexivity.
    + rewrite app_nil_r, list_fmap_id. reflexivity.
Qed.




(** **** Lines that give no row *)






Example parse_no_terminator :
  parse ("#COLUMNINFO= 1, m, Sondeerlengte, 1" +:+ String "010" "0.5")
  = Error "Geen #EOH gevonden — ongeldig GEF-bestand".
Proof. reflexivity. Qed.

Example parse_no_rows_columns :
  (fun r => (key <$> columns r, data r))
    <$> (match parse ("#COLUMNINFO= 1, m, Sondeerlengte, 1"
                      +:+ String "010" ("#COLUMNINFO= 2, MPa, Conus, 2"
                      +:+ String "010" ("  #EOH  " +:+ String "010" "")))
         with Ok r => Some r | Error _ => None end)
  = Some (["length"; "qc"; "depth"], []).
Proof. reflexivity. Qed.

(** **** The keys of the rows *)

Lemma insert_is_Some (row : gmap string value) (k k' : string) (v : value) :
  is_Some (row !! k) -> is_Some (<[k' := v]> row !! k).
Proof.
  intros H. destruct (decide (k' = k)) as [->|Hne].
  - rewrite lookup_insert_eq. eauto.
  - rewrite lookup_insert_ne by exact Hne. exact H.
Qed.

Lemma fold_columns_keys (parts : list string) (columnMap : list Column)
    (row0 : gmap string value) (k : string) :
  is_Some (row0 !! k) \/ k ∈ key <$> columnMap ->
  is_Some (fold_left (fun row col => <[key col := cell parts col]> row) columnMap row0 !! k).
Proof.
  revert row0. induction columnMap as [|c columnMap IH]; intros row0 [H|H]; simpl.
  - exact H.
  - apply elem_of_nil in H. contradiction.
  - apply IH. left. apply insert_is_Some. exact H.
  - apply IH. apply elem_of_cons in H as [->|H]; [left|right; exact H].
    rewrite lookup_insert_eq. eauto.
Qed.

(** Every row read from a data line has an entry for every column. *)
Lemma parseData_keys (lines : list string) (startIndex : nat) (separator : Separator)
    (columnMap : list Column) :
  rows_have_keys (key <$> columnMap) (_parseData lines startIndex separator columnMap).
Proof.
  unfold rows_have_keys, _parseData. apply Forall_forall. intros row Hrow.
  apply list_elem_of_omap in Hrow as (l & _ & Hl).
  unfold parse_line in Hl.
  destruct (decide (trim l = "")); [discriminate|].
  destruct (startsWith _ _ || startsWith _ _); [discriminate|].
  destruct (_ <? _)%nat; [discriminate|].
  injection Hl as <-. apply Forall_forall. intros k Hk.
  apply fold_columns_keys. right. exact Hk.
Qed.

Lemma derive_rf_keys (row : gmap string value) (k : string) :
  is_Some (row !! k) \/ k = "rf" -> is_Some (derive_rf row !! k).
Proof.
  unfold derive_rf. intros [H| ->];
    destruct (_ && _); try (apply insert_is_Some; exact H);
    rewrite lookup_insert_eq; eauto.
Qed.

Lemma derive_rf_length (row : gmap string value) :
  derive_rf row !! "length" = row !! "length".
Proof.
  unfold derive_rf. destruct (_ && _); apply lookup_insert_ne; discriminate.
Qed.

Lemma derive_depth_keys (row : gmap string value) (k : string) :
  is_Some (row !! k) -> is_Some (derive_depth row !! k).
Proof.
  unfold derive_depth. intros H. destruct (is_null _); [exact H|].
  apply insert_is_Some. exact H.
Qed.

Lemma derive_depth_depth (row : gmap string value) :
  row !! "length" <> Some Null -> is_Some (derive_depth row !! "depth").
Proof.
  unfold derive_depth, is_null. intros H.
  destruct (row !! "length") as [[| |q|b]|]; try congruence;
    rewrite lookup_insert_eq; eauto.
Qed.

(** The derived columns keep the invariant of the data model as long as
    no row has a [null] length. *)
Lemma computeDerived_keys (data : list (gmap string value)) (columnMap : list Column) :
  rows_have_keys (key <$> columnMap) data ->
  Forall (fun row => row !! "length" <> Some Null) data ->
  rows_have_keys (key <$> snd (_computeDerived data columnMap))
                 (fst (_computeDerived data columnMap)).
Proof.
  intros Hkeys Hlen. unfold _computeDerived.
  set (b1 := negb (hasKey columnMap "depth") && hasKey columnMap "length").
  assert (Step1 :
    rows_have_keys
      (key <$> snd (if b1 then
                      (derive_depth <$> data,
                       columnMap ++ [mkColumn None "depth" "Diepte (berekend)" "m" None None true])
                    else (data, columnMap)))
      (fst (if b1 then
              (derive_depth <$> data,
               columnMap ++ [mkColumn None "depth" "Diepte (berekend)" "m" None None true])
            else (data, columnMap)))).
  { destruct b1; [|exact Hkeys]. cbn [fst snd].
    unfold rows_have_keys in *. apply Forall_fmap, Forall_forall. intros row Hrow.
    rewrite Forall_forall in Hkeys, Hlen.
    rewrite fmap_app. apply Forall_app. split.
    - eapply Forall_impl; [apply (Hkeys row Hrow)|].
      intros k Hk. apply derive_depth_keys. exact Hk.
    - repeat constructor. simpl. apply derive_depth_depth. apply Hlen. exact Hrow. }
  destruct (if b1 then _ else _) as [data1 columnMap1]. cbn [fst snd] in Step1.
  destruct (negb (hasKey columnMap1 "rf") && hasKey columnMap1 "qc" && hasKey columnMap1 "fs");
    [|exact Step1].
  cbn [fst snd]. unfold rows_have_keys in *.
  apply Forall_fmap. eapply Forall_impl; [exact Step1|].
  intros row Hrow. rewrite fmap_app. apply Forall_app. split.
  - eapply Forall_impl; [exact Hrow|]. intros k Hk. apply derive_rf_keys. left. exact Hk.
  - repeat constructor. simpl. apply derive_rf_keys. right. reflexivity.
Qed.

Lemma computeDerived_lengths (data : list (gmap string value)) (columnMap : list Column) :
  (fun row => row !! "length") <$> fst (_computeDerived data columnMap)
  = (fun row => row !! "length") <$> data.
Proof.
  assert (Hd : forall row, derive_depth row !! "length" = row !! "length").
  { intros row. unfold derive_depth. destruct (is_null _); [reflexivity|].
    apply lookup_insert_ne. discriminate. }
  unfold _computeDerived.
  destruct (negb (hasKey columnMap "depth") && hasKey columnMap "length");
    match goal with |- context [if ?b then _ else _] => destruct b end;
    cbn [fst]; rewrite <- ?list_fmap_compose; try reflexivity;
    apply list_fmap_ext; intros i row _; simpl;
    rewrite ?derive_rf_length, ?Hd; reflexivity.
Qed.

(** A record returned by Parser A satisfies the invariant of the data
    model when none of its rows has a [null] length. *)
Lemma gef_rows_have_keys (text : string) (r : Record_) :
  parse text = Ok r ->
  Forall (fun row => row !! "length" <> Some Null) (data r) ->
  rows_have_keys (key <$> columns r) (data r).
Proof.
  unfold parse.
  destruct (scan_header 0 (mkHeader ∅ ∅ [] None, []) (lines_of text))
    as [[header cols] [start|]]; [|discriminate].
  set (data0 := _parseData _ _ _ _). set (cm := _buildColumnMap cols header).
  pose proof (computeDerived_keys data0 cm (parseData_keys _ _ _ _)) as Hk.
  pose proof (computeDerived_lengths data0 cm) as Hl.
  destruct (_computeDerived data0 cm) as [d c]. cbn [fst snd] in Hk, Hl.
  intros H. injection H as <-. cbn [data columns]. intros Hlen.
  apply Hk.
  apply Forall_forall. intros row Hrow.
  assert (Hin : row !! "length"
                ∈ (fun row : gmap string value => row !! "length") <$> data0)
    by (apply list_elem_of_fmap; eauto).
  rewrite <- Hl in Hin. apply list_elem_of_fmap in Hin as (row' & Heq & Hin').
  rewrite Heq. rewrite Forall_forall in Hlen. apply Hlen. exact Hin'.
Qed.

(** C7, at the failing input of Parser A: a file with a [length] column
    and no [depth] column, and a data line whose length is the void
    value.  The column map lists the computed [depth], but the row has
    no [depth] entry at all (not even [null]). *)
Theorem parse_null_length_row_lacks_depth :
  exists r,
    parse ("#COLUMNINFO= 1, m, Sondeerlengte, 1"
           +:+ String "010" ("#COLUMNINFO= 2, MPa, Conusweerstand, 2"
           +:+ String "010" ("#COLUMNVOID= 1, -9999"
           +:+ String "010" ("#EOH="
           +:+ String "010" "-9999 1.5"))))
    = Ok r
    /\ key <$> columns r = ["length"; "qc"; "depth"]
    /\ data r = [ {[ "length" := Null; "qc" := Num (15 # 10) ]} ]
    /\ ~ rows_have_keys (key <$> columns r) (data r).
Proof.
  eexists. split; [vm_compute; reflexivity|].
  split; [reflexivity|]. split; [reflexivity|].
  cbn [data columns]. intros H.
  apply Forall_cons in H as [H _].
  rewrite Forall_forall in H.
  assert (Hd : "depth" ∈ ["length"; "qc"; "depth"])
    by (rewrite !elem_of_cons; right; right; left; reflexivity).
  destruct (H "depth" Hd) as [v Hv]. vm_compute in Hv. discriminate Hv.
Qed.

End GefProps.

(** *** Parser A: further properties *)

Module GefExtra.
Import JsString FormatRecord GefParser Spec NumberProps GefProps.

(** **** The derived columns *)

Lemma derive_rf_other (row : gmap string value) (k : string) :
  k <> "rf" -> derive_rf row !! k = row !! k.
Proof.
  intros Hk. unfold derive_rf. destruct (_ && _); apply lookup_insert_ne; congruence.
Qed.

Lemma derive_depth_other (row : gmap string value) (k : string) :
  k <> "depth" -> derive_depth row !! k = row !! k.
Proof.
  intros Hk. unfold derive_depth. destruct (is_null _); [reflexivity|].
  apply lookup_insert_ne. congruence.
Qed.

(** X9. When the column map has a [length] but no [depth] column, a
    computed [depth] column is added and every row with a numeric length
    gets [depth = -length], while a row whose length is [null] keeps
    whatever [depth] entry it had (none, for a row of the parser).  When
    there is a [depth] column, the depths of the rows are left as they
    are. *)
Theorem computeDerived_depth (data : list (gmap string value)) (columnMap : list Column)
    (i : nat) (row : gmap string value) :
  data !! i = Some row ->
  exists row',
    fst (_computeDerived data columnMap) !! i = Some row'
    /\ (hasKey columnMap "depth" = false -> hasKey columnMap "length" = true ->
        "depth" ∈ key <$> snd (_computeDerived data columnMap)
        /\ (forall q, row !! "length" = Some (Num q) -> row' !! "depth" = Some (Num (- q)))
        /\ (row !! "length" = Some Null -> row' !! "depth" = row !! "depth"))
    /\ (hasKey columnMap "depth" = true -> row' !! "depth" = row !! "depth").
Proof.
  intros Hrow. rewrite computeDerived_shape. cbn [fst snd].
  eexists. split; [rewrite list_lookup_fmap, Hrow; reflexivity|].
  split.
  - intros Hd Hl. rewrite Hd, Hl. cbn [negb andb].
    split; [|split].
    + rewrite !fmap_app. apply elem_of_app. left. apply elem_of_app. right.
      apply list_elem_of_singleton. reflexivity.
    + intros q Hq.
      assert (E : derive_depth row !! "depth" = Some (Num (- q))).
      { unfold derive_depth. rewrite Hq. cbn. apply lookup_insert_eq. }
      destruct (_ && _); [rewrite derive_rf_other by discriminate|]; exact E.
    + intros Hn.
      assert (E : derive_depth row !! "depth" = row !! "depth").
      { unfold derive_depth. rewrite Hn. reflexivity. }
      destruct (_ && _); [rewrite derive_rf_other by discriminate|]; exact E.
  - intros Hd. rewrite Hd. cbn [negb andb id].
    destruct (_ && _); [rewrite derive_rf_other by discriminate|]; reflexivity.
Qed.

Lemma computeDerived_depth_witness :
  exists row',
    fst (_computeDerived [ {[ "length" := Num 2 ]} ]
           [ mkColumn (Some 0%nat) "length" "Sondeerlengte" "m" None None false ])
    !! 0%nat = Some row'
    /\ row' !! "depth" = Some (Num (- 2)).
Proof.
  destruct (computeDerived_depth [ {[ "length" := Num 2 ]} ]
              [ mkColumn (Some 0%nat) "length" "Sondeerlengte" "m" None None false ]
              0%nat {[ "length" := Num 2 ]} eq_refl) as (row' & Hrow' & Hd & _).
  exists row'. split; [exact Hrow'|].
  apply (proj1 (proj2 (Hd eq_refl eq_refl)) 2%Q). reflexivity.
Defined.

(** X10. When the column map has [qc] and [fs] but no [rf] column, a
    computed [rf] column is added and the [rf] of every row is
    [fs / qc * 100], or [null] when [qc] or [fs] is [null] or [qc] is [0].
    When there is an [rf] column, the friction ratios of the rows are left
    as they are. *)
Theorem computeDerived_rf (data : list (gmap string value)) (columnMap : list Column)
    (i : nat) (row : gmap string value) :
  data !! i = Some row ->
  exists row',
    fst (_computeDerived data columnMap) !! i = Some row'
    /\ (hasKey columnMap "rf" = false -> hasKey columnMap "qc" = true ->
        hasKey columnMap "fs" = true ->
        "rf" ∈ key <$> snd (_computeDerived data columnMap)
        /\ (forall q f, row !! "qc" = Some (Num q) -> row !! "fs" = Some (Num f) ->
              ~ (q == 0)%Q -> row' !! "rf" = Some (Num (f / q * 100)))
        /\ (forall q, row !! "qc" = Some (Num q) -> (q == 0)%Q -> row' !! "rf" = Some Null)
        /\ (row !! "qc" = Some Null \/ row !! "fs" = Some Null -> row' !! "rf" = Some Null))
    /\ (hasKey columnMap "rf" = true -> row' !! "rf" = row !! "rf").
Proof.
  intros Hrow. rewrite computeDerived_shape. cbn [fst snd].
  eexists. split; [rewrite list_lookup_fmap, Hrow; reflexivity|].
  set (r1 := (if negb (hasKey columnMap "depth") && hasKey columnMap "length"
              then derive_depth else id) row).
  assert (Hsame : forall k, k <> "depth" -> r1 !! k = row !! k).
  { intros k Hk. unfold r1. destruct (_ && _); [apply derive_depth_other; exact Hk|reflexivity]. }
  split.
  - intros Hr Hq Hf. rewrite Hr, Hq, Hf. cbn [negb andb].
    split; [|split; [|split]].
    + rewrite fmap_app. apply elem_of_app. right.
      apply list_elem_of_singleton. reflexivity.
    + intros q f Eq Ef Hq0. unfold derive_rf.
      rewrite !Hsame by discriminate. rewrite Eq, Ef. cbn [is_null is_zero negb andb].
      destruct (Qeq_bool q 0) eqn:E; [apply Qeq_bool_iff in E; contradiction|].
      cbn [negb]. rewrite lookup_insert_eq. reflexivity.
    + intros q Eq Hq0. unfold derive_rf.
      rewrite !Hsame by discriminate. rewrite Eq. cbn [is_null is_zero negb andb].
      apply Qeq_bool_iff in Hq0. rewrite Hq0.
      destruct (negb (is_null (row !! "fs"))); cbn [negb andb]; apply lookup_insert_eq.
    + intros [E|E]; unfold derive_rf; rewrite !Hsame by discriminate; rewrite E;
        cbn [is_null negb andb]; [|rewrite andb_false_r]; apply lookup_insert_eq.
  - intros Hr. rewrite Hr. cbn [negb andb id]. apply Hsame. discriminate.
Qed.

Lemma computeDerived_rf_witness :
  exists row',
    fst (_computeDerived [ {[ "qc" := Num 2; "fs" := Num (1 # 10) ]} ]
           [ mkColumn (Some 0%nat) "qc" "Conusweerstand" "MPa" None None false;
             mkColumn (Some 1%nat) "fs" "Plaatselijke wrijving" "MPa" None None false ])
    !! 0%nat = Some row'
    /\ row' !! "rf" = Some (Num ((1 # 10) / 2 * 100)).
Proof.
  destruct (computeDerived_rf [ {[ "qc" := Num 2; "fs" := Num (1 # 10) ]} ]
              [ mkColumn (Some 0%nat) "qc" "Conusweerstand" "MPa" None None false;
                mkColumn (Some 1%nat) "fs" "Plaatselijke wrijving" "MPa" None None false ]
              0%nat {[ "qc" := Num 2; "fs" := Num (1 # 10) ]} eq_refl)
    as (row' & Hrow' & Hd & _).
  exists row'. split; [exact Hrow'|].
  apply (proj1 (proj2 (Hd eq_refl eq_refl eq_refl)) 2%Q (1 # 10)%Q);
    [reflexivity|reflexivity|discriminate].
Defined.

(** X11. [_computeDerived] only adds: the rows stay as many, every entry
    other than [depth] and [rf] keeps its value, the given columns come
    first and unchanged, and the columns added (at most two) are flagged
    as computed. *)
Theorem computeDerived_only_adds (data : list (gmap string value)) (columnMap : list Column) :
  length (fst (_computeDerived data columnMap)) = length data
  /\ (forall i row row' k,
        data !! i = Some row -> fst (_computeDerived data columnMap) !! i = Some row' ->
        k <> "depth" -> k <> "rf" -> row' !! k = row !! k)
  /\ exists added,
       snd (_computeDerived data columnMap) = columnMap ++ added
       /\ (length added <= 2)%nat
       /\ Forall (fun c => computed c = true /\ (key c = "depth" \/ key c = "rf")) added.
Proof.
  rewrite computeDerived_shape. cbn [fst snd]. split; [apply length_fmap|]. split.
  - intros i row row' k Hrow Hrow' Hd Hr.
    rewrite list_lookup_fmap, Hrow in Hrow'. injection Hrow' as <-.
    destruct (negb (hasKey columnMap "rf") && _ && _);
      destruct (negb (hasKey columnMap "depth") && _); cbn [id];
      rewrite ?derive_rf_other, ?derive_depth_other by assumption; reflexivity.
  - rewrite <- app_assoc. eexists. split; [reflexivity|].
    destruct (negb (hasKey columnMap "rf") && _ && _);
      destruct (negb (hasKey columnMap "depth") && _); cbn [app length];
      (split; [lia|]);
      repeat (apply Forall_cons; split; [split; [reflexivity|cbn; auto]|]);
      apply Forall_nil; exact I.
Qed.

(** **** The rows of the data lines *)

Lemma fold_columns_other (parts : list string) (columnMap : list Column)
    (row0 : gmap string value) (k : string) :
  k ∉ key <$> columnMap ->
  fold_left (fun row col => <[key col := cell parts col]> row) columnMap row0 !! k
  = row0 !! k.
Proof.
  revert row0. induction columnMap as [|c columnMap IH]; intros row0 Hk; [reflexivity|].
  cbn [fold_left]. rewrite fmap_cons in Hk. apply not_elem_of_cons in Hk as [Hne Hk].
  rewrite IH by exact Hk. apply lookup_insert_ne. congruence.
Qed.

Lemma fold_columns_lookup (parts : list string) (pre post : list Column)
    (row0 : gmap string value) (c : Column) :
  key c ∉ key <$> post ->
  fold_left (fun row col => <[key col := cell parts col]> row) (pre ++ c :: post) row0
    !! key c
  = Some (cell parts c).
Proof.
  intros Hk. rewrite fold_left_app. cbn [fold_left].
  rewrite fold_columns_other by exact Hk. apply lookup_insert_eq.
Qed.

Lemma num_eqb_same (a b : value) : num_eqb a b = true <-> same_number a b.
Proof.
  destruct a as [| |x|s], b as [| |y|t]; cbn; try (split; [discriminate|contradiction]).
  - apply Qeq_bool_iff.
  - destruct s, t; cbn; split; congruence.
Qed.

(** The value stored for a column is the entry of the column. *)
Lemma cell_entry (parts : list string) (c : Column) :
  entry_of (index c ≫= (parts !!.)) (voidValue c) (cell parts c).
Proof.
  unfold cell, entry_of.
  destruct (parseFloat_opt (index c ≫= (parts !!.))) as [| |q|s] eqn:E.
  - right. destruct (voidValue c) as [w|]; cbn.
    + split; [reflexivity|]. split; [discriminate|]. intros w' _ H. exact H.
    + split; [reflexivity|]. split; [discriminate|]. intros w' H. discriminate H.
  - left. split; [reflexivity|]. left. reflexivity.
  - destruct (voidValue c) as [w|].
    + destruct (num_eqb (Num q) w) eqn:Ew.
      * left. split; [reflexivity|]. right. exists w. split; [reflexivity|].
        apply num_eqb_same. exact Ew.
      * right. split; [reflexivity|]. split; [discriminate|].
        intros w' Hw' H. injection Hw' as <-. apply num_eqb_same in H. congruence.
    + right. split; [reflexivity|]. split; [discriminate|]. intros w' H. discriminate H.
  - destruct (voidValue c) as [w|].
    + destruct (num_eqb (Inf s) w) eqn:Ew.
      * left. split; [reflexivity|]. right. exists w. split; [reflexivity|].
        apply num_eqb_same. exact Ew.
      * right. split; [reflexivity|]. split; [discriminate|].
        intros w' Hw' H. injection Hw' as <-. apply num_eqb_same in H. congruence.
    + right. split; [reflexivity|]. split; [discriminate|]. intros w' H. discriminate H.
Qed.

Lemma fold_columns_dom (parts : list string) (columnMap : list Column)
    (row0 : gmap string value) (k : string) :
  is_Some (fold_left (fun row col => <[key col := cell parts col]> row) columnMap row0 !! k) ->
  is_Some (row0 !! k) \/ k ∈ key <$> columnMap.
Proof.
  revert row0. induction columnMap as [|c columnMap IH]; intros row0 H; simpl in *.
  - left. exact H.
  - apply IH in H as [H|H]; [|right; apply elem_of_cons; right; exact H].
    destruct (decide (key c = k)) as [<-|Hne].
    + right. apply elem_of_cons. left. reflexivity.
    + rewrite lookup_insert_ne in H by exact Hne. left. exact H.
Qed.

Lemma parse_line_Some (separator : Separator) (columnMap : list Column)
    (l : string) (row : gmap string value) :
  parse_line separator columnMap l = Some row <->
  trim l <> "" /\ startsWith (trim l) "#" = false /\ startsWith (trim l) "!" = false
  /\ (length columnMap <= length (tokens separator l))%nat
  /\ row = fold_left (fun row col => <[key col := cell (tokens separator l) col]> row)
             columnMap ∅.
Proof.
  unfold parse_line, tokens.
  destruct (decide (trim l = "")) as [E|E].
  { split; [discriminate|]. intros (H & _). contradiction. }
  destruct (startsWith (trim l) "#"); [split; [discriminate|intros (_ & H & _); discriminate]|].
  destruct (startsWith (trim l) "!"); [split; [discriminate|intros (_ & _ & H & _); discriminate]|].
  cbn [orb].
  destruct (_ <? _)%nat eqn:L.
  - apply Nat.ltb_lt in L. split; [discriminate|]. intros (_ & _ & _ & H & _). lia.
  - apply Nat.ltb_ge in L. split.
    + intros H. injection H as <-. repeat split; assumption.
    + intros (_ & _ & _ & _ & ->). reflexivity.
Qed.

Lemma data_line_spec (separator : Separator) (n : nat) (l : string) :
  data_line separator n l = true <->
  trim l <> "" /\ startsWith (trim l) "#" = false /\ startsWith (trim l) "!" = false
  /\ (n <= length (tokens separator l))%nat.
Proof.
  unfold data_line. rewrite !andb_true_iff, !negb_true_iff, bool_decide_eq_false.
  rewrite Nat.leb_le. tauto.
Qed.

Lemma parse_line_row_of_line (separator : Separator) (columnMap : list Column) (l : string) :
  match parse_line separator columnMap l with
  | Some row => data_line separator (length columnMap) l = true
                /\ row_of_line separator columnMap l row
  | None => data_line separator (length columnMap) l = false
  end.
Proof.
  destruct (parse_line separator columnMap l) as [row|] eqn:E.
  - apply parse_line_Some in E as (H1 & H2 & H3 & H4 & ->). split.
    + apply data_line_spec. auto.
    + split.
      * intros k. split.
        -- intros Hk. apply fold_columns_dom in Hk as [Hk|Hk]; [|exact Hk].
           rewrite lookup_empty in Hk. destruct Hk; discriminate.
        -- intros Hk. apply fold_columns_keys. right. exact Hk.
      * intros pre c post -> Hk. exists (cell (tokens separator l) c). split.
        -- apply fold_columns_lookup. exact Hk.
        -- apply cell_entry.
  - destruct (data_line separator (length columnMap) l) eqn:D; [|reflexivity].
    apply data_line_spec in D as (H1 & H2 & H3 & H4).
    assert (H : parse_line separator columnMap l
                = Some (fold_left (fun row col =>
                                     <[key col := cell (tokens separator l) col]> row)
                                  columnMap ∅))
      by (apply parse_line_Some; auto).
    congruence.
Qed.

(** X12. [_parseData] returns one row for each line from the start index
    on that is not blank, not a comment and has at least as many tokens
    as there are columns, in the order of the lines, and no other row.
    The keys of a row are those of the column map; the entry of a key is
    that of the last column with this key: [null] if the token at the
    index of the column is missing, does not start with a number or is
    the void value of the column, and the number of the token (an
    infinity included) otherwise. *)
Theorem parseData_rows (lines : list string) (startIndex : nat)
    (separator : Separator) (columnMap : list Column) :
  Forall2 (row_of_line separator columnMap)
    (List.filter (data_line separator (length columnMap)) (drop startIndex lines))
    (_parseData lines startIndex separator columnMap).
Proof.
  unfold _parseData. induction (drop startIndex lines) as [|l ls IH]; [constructor|].
  cbn [List.filter omap list_omap].
  pose proof (parse_line_row_of_line separator columnMap l) as H.
  destruct (parse_line separator columnMap l) as [row|].
  - destruct H as [-> H]. constructor; [exact H|exact IH].
  - rewrite H. exact IH.
Qed.

Example parseData_rows_example :
  _parseData ["#EOH="; "  -9999.0   1.5 "; ""; "! note"; "7"; "0.5 Infinity 3"] 1 Whitespace
    [ mkColumn (Some 0%nat) "length" "Sondeerlengte" "m" None (Some (Num (- 9999))) false;
      mkColumn (Some 1%nat) "qc" "Conusweerstand" "MPa" None None false ]
  = [ {[ "length" := Null; "qc" := Num (15 # 10) ]};
      {[ "length" := Num (5 # 10); "qc" := Inf false ]} ].
Proof. vm_compute. reflexivity. Qed.

(** **** The header decides the columns *)




(** **** The registration of a column *)

Lemma array_set_lookup {A : Type} (a : list (option A)) (i : Z) (x : A) :
  (0 <= i < 4294967295)%Z ->
  array_set a (Some i) x !! Z.to_nat i = Some (Some x)
  /\ forall j y, j <> Z.to_nat i ->
       (array_set a (Some i) x !! j = Some (Some y) <-> a !! j = Some (Some y)).
Proof.
  intros Hi. unfold array_set.
  assert (G : ((0 <=? i) && (i <? 4294967295))%Z = true).
  { apply andb_true_iff. split; [apply Z.leb_le|apply Z.ltb_lt]; lia. }
  rewrite G. cbv zeta.
  destruct (Z.to_nat i <? length a)%nat eqn:E.
  - apply Nat.ltb_lt in E. split.
    + apply list_lookup_insert_eq. exact E.
    + intros j y Hj. rewrite list_lookup_insert_ne by congruence. reflexivity.
  - apply Nat.ltb_ge in E. split.
    + rewrite lookup_app_r by exact E.
      rewrite lookup_app_r by (rewrite length_replicate; lia).
      rewrite length_replicate.
      replace (Z.to_nat i - length a - (Z.to_nat i - length a))%nat with 0%nat by lia.
      reflexivity.
    + intros j y Hj. destruct (decide (j < length a)%nat) as [Hlt|Hge].
      * rewrite lookup_app_l by exact Hlt. reflexivity.
      * rewrite lookup_app_r by lia.
        rewrite (proj2 (lookup_ge_None a j)) by lia.
        split; [|discriminate]. intros Hy. exfalso.
        destruct (decide (j - length a < Z.to_nat i - length a)%nat) as [Hh|Hh].
        -- rewrite lookup_app_l in Hy by (rewrite length_replicate; exact Hh).
           apply lookup_replicate in Hy as [Hy _]. discriminate Hy.
        -- rewrite lookup_app_r in Hy by (rewrite length_replicate; lia).
           rewrite length_replicate in Hy.
           destruct (j - length a - (Z.to_nat i - length a))%nat as [|m] eqn:Em;
             [lia|discriminate Hy].
Qed.

(** X14. A [COLUMNINFO] line with a column number [n] from 1 on and at
    least a unit and a name registers that unit and name in slot [n - 1]
    of [columns], replacing what was registered there; the registrations
    of the other slots stay as they are and none is added.  With a number
    below 1, a number too large for a double or no number at all, nothing
    is registered.  In every case the
    line leaves the fields, the void values and the list [_columns] of the
    header as they are and sets its [_rawColumns] to the array. *)
Theorem parseHeaderLine_COLUMNINFO (header : Header) (columns : list (option RawColumn))
    (value p0 unit_ name_ : string) (rest : list string) :
  trim <$> split "," value = p0 :: unit_ :: name_ :: rest ->
  let st' := _parseHeaderLine (header, columns) "COLUMNINFO" value in
  fields (fst st') = fields header
  /\ COLUMNVOID (fst st') = COLUMNVOID header
  /\ _columns (fst st') = _columns header
  /\ _rawColumns (fst st') = Some (snd st')
  /\ (forall q n, parseInt p0 = Num q -> q == inject_Z n -> (1 <= n < 4294967296)%Z ->
        (exists raw, snd st' !! Z.to_nat (n - 1) = Some (Some raw)
                     /\ raw_unit raw = unit_ /\ raw_name raw = name_
                     /\ raw_type raw = match rest with
                                       | p3 :: _ => Some (parseInt p3)
                                       | [] => None
                                       end)
        /\ forall j raw, j <> Z.to_nat (n - 1) ->
             (snd st' !! j = Some (Some raw) <-> columns !! j = Some (Some raw)))
  /\ ((parseInt p0 = NaN \/ (exists s, parseInt p0 = Inf s)
       \/ exists q n, parseInt p0 = Num q /\ q == inject_Z n /\ (n < 1)%Z) ->
      snd st' = columns).
Proof.
  intros Hparts st'. subst st'. unfold _parseHeaderLine.
  destruct (decide ("COLUMNINFO" = "COLUMNINFO")) as [_|N]; [|congruence].
  rewrite Hparts. cbn [fst snd fields COLUMNVOID _columns _rawColumns].
  split; [reflexivity|]. split; [reflexivity|]. split; [reflexivity|].
  split; [reflexivity|]. split.
  - intros q n Hn Hq Hrange. rewrite Hn.
    assert (Hkey : integer_key (minus_one (Num q)) = Some (n - 1)%Z).
    { apply integer_key_minus_one; [exact Hq|lia]. }
    rewrite Hkey.
    destruct (array_set_lookup columns (n - 1)
                (mkRaw unit_ name_ match rest with p3 :: _ => Some (parseInt p3) | [] => None end))
      as [H1 H2]; [lia|].
    split; [|exact H2].
    eexists. split; [exact H1|]. repeat split.
  - intros [Hn|[(s & Hn)|(q & n & Hn & Hq & Hlt)]]; rewrite Hn; [reflexivity|reflexivity|].
    pose proof (integer_key_minus_one_negative q n) as Hneg.
    destruct (integer_key (minus_one (Num q))) as [z|]; [|reflexivity].
    specialize (Hneg z Hq Hlt eq_refl). cbn [array_set].
    assert (G : ((0 <=? z) && (z <? 4294967295))%Z = false).
    { apply andb_false_iff. left. apply Z.leb_gt. exact Hneg. }
    rewrite G. reflexivity.
Qed.

Lemma parseHeaderLine_COLUMNINFO_witness :
  let st' := _parseHeaderLine
               (mkHeader ∅ ∅ [] None, [Some (mkRaw "m" "old" None)])
               "COLUMNINFO" "1, MPa, Conusweerstand, 2" in
  _rawColumns (fst st') = Some (snd st')
  /\ exists raw, snd st' !! 0%nat = Some (Some raw)
                 /\ raw_unit raw = "MPa" /\ raw_name raw = "Conusweerstand"
                 /\ raw_type raw = Some (Num 2).
Proof.
  destruct (parseHeaderLine_COLUMNINFO (mkHeader ∅ ∅ [] None) [Some (mkRaw "m" "old" None)]
              "1, MPa, Conusweerstand, 2" "1" "MPa" "Conusweerstand" ["2"] eq_refl)
    as (_ & _ & _ & Hraw & H & _).
  split; [exact Hraw|].
  destruct (H 1 1%Z eq_refl ltac:(reflexivity) ltac:(lia))
    as [(raw & H1 & H2 & H3 & H4) _].
  exists raw. split; [exact H1|]. split; [exact H2|]. split; [exact H3|].
  rewrite H4. reflexivity.
Defined.

(** **** The order of the columns *)

Lemma buildColumnMap_indices_from (header : Header) (columns : list (option RawColumn))
    (n : nat) (g : nat -> RawColumn -> Column) :
  (forall i raw, index (g i raw) = Some i) ->
  index <$> omap (fun ic : nat * option RawColumn =>
                    let '(i, c) := ic in
                    match c with None => None | Some col => Some (g i col) end)
                 (imap (fun i c => (n + i, c)%nat) columns)
  = Some <$> registered n columns.
Proof.
  intros Hg. revert n. induction columns as [|c columns IH]; intros n; [reflexivity|].
  cbn [imap]. 
  assert (E : imap ((fun i c => (n + i, c)%nat) ∘ S) columns
              = imap (fun i c => (S n + i, c)%nat) columns).
  { apply imap_ext. intros i x _. cbn. f_equal. lia. }
  rewrite E. clear E.
  set (F := fun ic : nat * option RawColumn =>
              let '(i, c) := ic in
              match c with None => None | Some col => Some (g i col) end) in *.
  change (omap F (((n + 0)%nat, c) :: imap (fun i c => ((S n + i)%nat, c)) columns))
    with (match F ((n + 0)%nat, c) with
          | Some y => y :: omap F (imap (fun i c => ((S n + i)%nat, c)) columns)
          | None => omap F (imap (fun i c => ((S n + i)%nat, c)) columns)
          end).
  destruct c as [raw|]; cbn [F registered].
  - rewrite !fmap_cons, Hg, Nat.add_0_r. f_equal. apply IH.
  - apply IH.
Qed.

Lemma registered_spec (columns : list (option RawColumn)) (n i : nat) :
  i ∈ registered n columns
  <-> (n <= i)%nat /\ exists raw, columns !! (i - n)%nat = Some (Some raw).
Proof.
  revert n. induction columns as [|c columns IH]; intros n.
  - cbn. split; [intros H; apply elem_of_nil in H; contradiction|].
    intros (_ & raw & H). discriminate.
  - assert (Hstep : i ∈ registered (S n) columns
                    <-> (n < i)%nat /\ exists raw, (c :: columns) !! (i - n)%nat = Some (Some raw)).
    { rewrite IH. split; intros (Hle & raw & H); (split; [lia|]); exists raw.
      - replace (i - n)%nat with (S (i - S n)) by lia. exact H.
      - replace (i - n)%nat with (S (i - S n)) in H by lia. exact H. }
    destruct c as [raw0|]; cbn [registered].
    + rewrite elem_of_cons, Hstep. split.
      * intros [->|(Hlt & raw & H)].
        -- split; [lia|]. exists raw0. rewrite Nat.sub_diag. reflexivity.
        -- split; [lia|]. eauto.
      * intros (Hle & raw & H). destruct (decide (i = n)) as [->|Hne]; [left; reflexivity|].
        right. split; [lia|]. eauto.
    + rewrite Hstep. split.
      * intros (Hlt & raw & H). split; [lia|]. eauto.
      * intros (Hle & raw & H). split; [|eauto].
        destruct (decide (i = n)) as [->|Hne]; [|lia].
        rewrite Nat.sub_diag in H. discriminate.
Qed.

Lemma registered_sorted (columns : list (option RawColumn)) (n : nat) :
  StronglySorted lt (registered n columns).
Proof.
  revert n. induction columns as [|c columns IH]; intros n; [constructor|].
  destruct c as [raw|]; cbn [registered]; [|apply IH].
  constructor; [apply IH|]. apply Forall_forall. intros i Hi.
  apply registered_spec in Hi as [Hi _]. lia.
Qed.

(** X15. The column map has one column per registered slot of [columns],
    in ascending order of the slot index, whatever the order in which the
    slots were filled. *)
Theorem buildColumnMap_order (columns : list (option RawColumn)) (header : Header) :
  index <$> _buildColumnMap columns header = Some <$> registered 0 columns
  /\ StronglySorted lt (registered 0 columns)
  /\ forall i, i ∈ registered 0 columns <-> exists raw, columns !! i = Some (Some raw).
Proof.
  split; [|split].
  - unfold _buildColumnMap.
    apply (buildColumnMap_indices_from header columns 0
             (fun i col =>
                mkColumn (Some i)
                  (match typeInfo_of (raw_type col) with
                   | Some t => ti_key t
                   | None => "col_" +:+ pretty (i + 1)%nat
                   end)
                  (match typeInfo_of (raw_type col) with
                   | Some t => ti_label t
                   | None => raw_name col
                   end)
                  (if decide (raw_unit col = "")
                   then match typeInfo_of (raw_type col) with
                        | Some t => ti_unit t | None => "" end
                   else raw_unit col)
                  (raw_type col) (COLUMNVOID header !! Z.of_nat i) false)).
    reflexivity.
  - apply registered_sorted.
  - intros i. rewrite registered_spec, Nat.sub_0_r. split.
    + intros (_ & H). exact H.
    + intros H. split; [lia|exact H].
Qed.

End GefExtra.

(** *** Parser B *)

Module BroProps.
Import JsString FormatRecord BroXmlParser Spec.

Lemma BRO_COLUMN_ORDER_length : length BRO_COLUMN_ORDER = 25%nat.
Proof. reflexivity. Qed.

(** The 25 keys are pairwise distinct. *)
Lemma BRO_keys_NoDup : NoDup (key <$> BRO_COLUMN_ORDER).
Proof. compute_done. Qed.

Lemma BRO_key_inj (i j : nat) (c c' : ColumnDef) :
  BRO_COLUMN_ORDER !! i = Some c -> BRO_COLUMN_ORDER !! j = Some c' ->
  key c = key c' -> i = j.
Proof.
  intros Hi Hj Hk.
  apply (NoDup_lookup (key <$> BRO_COLUMN_ORDER) i j (key c) BRO_keys_NoDup).
  - rewrite list_lookup_fmap, Hi. reflexivity.
  - rewrite list_lookup_fmap, Hj, Hk. reflexivity.
Qed.

(** The loop over the positions: the entry of a position in the range
    holds the value of its token. *)
Lemma fold_positions_lookup (tokens : list string) (positions : list nat)
    (row0 : gmap string value) (i : nat) (c : ColumnDef) :
  BRO_COLUMN_ORDER !! i = Some c -> i ∈ positions ->
  fold_left
    (fun row i =>
       match BRO_COLUMN_ORDER !! i with
       | Some colDef => <[key colDef := cell (tokens !! i)]> row
       | None => row
       end) positions row0 !! key c
  = Some (cell (tokens !! i)).
Proof.
  intros Hc. revert row0.
  induction positions as [|j positions IH] using rev_ind; intros row0 Hi.
  - apply elem_of_nil in Hi. contradiction.
  - rewrite fold_left_app. simpl.
    destruct (decide (j = i)) as [->|Hne].
    + rewrite Hc, lookup_insert_eq. reflexivity.
    + apply elem_of_app in Hi as [Hi|Hi];
        [|apply list_elem_of_singleton in Hi; congruence].
      destruct (BRO_COLUMN_ORDER !! j) as [c'|] eqn:Hj; [|apply IH; exact Hi].
      rewrite lookup_insert_ne; [apply IH; exact Hi|].
      intros Hk. apply Hne. eapply BRO_key_inj; eassumption.
Qed.

(** A block with at least 25 tokens gives a row that has, for each of
    the 25 positions, the value of the token under the key of the
    position. *)
Lemma parse_block_row (tokenSep block : string) :
  (25 <= length (split tokenSep (trim block)))%nat ->
  exists row,
    parse_block tokenSep block = Some row
    /\ forall i c, BRO_COLUMN_ORDER !! i = Some c ->
         row !! key c = Some (cell (split tokenSep (trim block) !! i)).
Proof.
  intros Hlen. unfold parse_block.
  destruct (_ <? 25)%nat eqn:E; [apply Nat.ltb_lt in E; lia|].
  eexists. split; [reflexivity|].
  intros i c Hc. apply fold_positions_lookup; [exact Hc|].
  apply elem_of_seq. apply lookup_lt_Some in Hc.
  rewrite BRO_COLUMN_ORDER_length in Hc. lia.
Qed.

Lemma cell_void (token : string) :
  void_token token -> cell (Some token) = Null.
Proof.
  unfold cell, void_token, BRO_VOID_VALUE. cbn [parseFloat_opt].
  intros [->|(v & -> & Hv)]; [reflexivity|].
  cbn [num_eqb]. apply Qeq_bool_iff in Hv. rewrite Hv. reflexivity.
Qed.

Lemma cell_number (token : string) :
  ~ void_token token -> cell (Some token) = parseFloat token.
Proof.
  unfold cell, void_token, BRO_VOID_VALUE. cbn [parseFloat_opt]. intros Hv.
  destruct (parseFloat token) as [| |v|s] eqn:E; try reflexivity.
  - exfalso. apply Hv. left. reflexivity.
  - cbn [num_eqb]. destruct (Qeq_bool v (- 999999)) eqn:Ev; [|reflexivity].
    exfalso. apply Hv. right. exists v. split; [reflexivity|].
    apply Qeq_bool_iff. exact Ev.
Qed.

(** The separators that [_parseData] reads from the document. *)
Lemma separators_spec (cpt : CptObj) :
  match TextEncoding cpt with
  | Some (t, b) => (attr_or t ",", attr_or b ";")
  | None => (",", ";")
  end = (token_separator cpt, block_separator cpt).
Proof.
  unfold token_separator, block_separator.
  destruct (TextEncoding cpt) as [[t b]|]; reflexivity.
Qed.

(** What [_parseData] returns for a document with a values element. *)
Lemma parseData_shape (cpt : CptObj) (activeColumns : list bool) (text : string) :
  values cpt = Some text ->
  _parseData cpt activeColumns
  = Ok (omap (parse_block (token_separator cpt)) (blocks_of cpt text),
        omap (fun ic : nat * ColumnDef =>
                let '(i, c) := ic in
                match activeColumns !! i with
                | Some true => Some (mkColumn (Some i) (key c) (label c) (unit c) false)
                | _ => None
                end)
             (imap pair BRO_COLUMN_ORDER)).
Proof.
  intros Hv. unfold _parseData. rewrite Hv, separators_spec. reflexivity.
Qed.

(** A block gives a row exactly when it has at least 25 tokens, and the
    row holds what the tokens stand for. *)
Lemma parse_block_tokens (cpt : CptObj) (block : string) :
  match parse_block (token_separator cpt) block with
  | Some row => (25 <=? length (block_tokens cpt block))%nat = true
                /\ row_of_tokens [] (block_tokens cpt block) row
  | None => (25 <=? length (block_tokens cpt block))%nat = false
  end.
Proof.
  unfold block_tokens.
  destruct (Nat.lt_ge_cases (length (split (token_separator cpt) (trim block))) 25)
    as [Hlt|Hge].
  - unfold parse_block. rewrite (proj2 (Nat.ltb_lt _ _) Hlt).
    apply Nat.leb_gt. exact Hlt.
  - destruct (parse_block_row (token_separator cpt) block Hge) as (row & -> & Hkeys).
    split; [apply Nat.leb_le; exact Hge|].
    intros i c Hc _.
    assert (Hi : (i < length (split (token_separator cpt) (trim block)))%nat).
    { apply lookup_lt_Some in Hc. rewrite BRO_COLUMN_ORDER_length in Hc. lia. }
    apply lookup_lt_is_Some in Hi as [token Htok].
    exists token. split; [exact Htok|]. rewrite (Hkeys i c Hc), Htok. split.
    + intros Hv. f_equal. apply cell_void. exact Hv.
    + intros Hv. f_equal. apply cell_number. exact Hv.
Qed.

Lemma parse_blocks_rows (cpt : CptObj) (blocks : list string) :
  Forall2 (fun block row => row_of_tokens [] (block_tokens cpt block) row)
    (List.filter (fun b => (25 <=? length (block_tokens cpt b))%nat) blocks)
    (omap (parse_block (token_separator cpt)) blocks).
Proof.
  induction blocks as [|block blocks IH]; [constructor|].
  cbn [List.filter omap list_omap].
  pose proof (parse_block_tokens cpt block) as H.
  destruct (parse_block (token_separator cpt) block) as [row|].
  - destruct H as [-> H]. constructor; [exact H|exact IH].
  - rewrite H. exact IH.
Qed.


Lemma active_columns_keys (activeColumns : list bool) :
  Forall (fun k => k ∈ key <$> BRO_COLUMN_ORDER)
    (ckey <$> omap (fun ic : nat * ColumnDef =>
                      let '(i, c) := ic in
                      match activeColumns !! i with
                      | Some true => Some (mkColumn (Some i) (key c) (label c) (unit c) false)
                      | _ => None
                      end)
                   (imap pair BRO_COLUMN_ORDER)).
Proof.
  apply Forall_fmap, Forall_forall. intros col Hcol.
  apply list_elem_of_omap in Hcol as ([i c] & Hic & Hcol).
  apply elem_of_lookup_imap in Hic as (j & c' & Heq & Hj).
  injection Heq as -> ->.
  destruct (activeColumns !! j) as [[|]|]; try discriminate.
  injection Hcol as <-. cbn [ckey].
  apply list_elem_of_fmap. exists c'. split; [reflexivity|].
  apply list_elem_of_lookup. eauto.
Qed.

(** The rows returned are those of the blocks that give one. *)
Lemma parseData_blocks (cptObj : CptObj) (activeColumns : list bool)
    (rows : list (gmap string value)) (columns : list Column) :
  _parseData cptObj activeColumns = Ok (rows, columns) ->
  exists text, values cptObj = Some text
    /\ rows = omap (parse_block (token_separator cptObj)) (blocks_of cptObj text).
Proof.
  destruct (values cptObj) as [text|] eqn:Hv.
  - rewrite (parseData_shape _ _ _ Hv). intros H. exists text. split; [reflexivity|].
    apply (f_equal (fun r => match r with Ok (d, _) => d | Error _ => [] end)) in H.
    symmetry. exact H.
  - unfold _parseData. rewrite Hv. discriminate.
Qed.

Lemma parseData_columns (cptObj : CptObj) (activeColumns : list bool)
    (rows : list (gmap string value)) (columns : list Column) :
  _parseData cptObj activeColumns = Ok (rows, columns) ->
  Forall (fun k => k ∈ key <$> BRO_COLUMN_ORDER) (ckey <$> columns).
Proof.
  unfold _parseData. destruct (values cptObj) as [text|]; [|discriminate].
  destruct (match TextEncoding cptObj with Some _ => _ | None => _ end) as [tokenSep blockSep].
  pose proof (active_columns_keys activeColumns) as Hk.
  set (cols := omap _ (imap pair BRO_COLUMN_ORDER)) in *.
  set (blocks := List.filter _ _).
  intros H.
  apply (f_equal (fun r => match r with Ok (_, c) => c | Error _ => [] end)) in H.
  change (cols = columns) in H. rewrite <- H. exact Hk.
Qed.


Example parseData_void_values_example :
  match _parseData
          (mkCpt None
             (Some "1.5,-999999,abc;1.5,-999999,abc,Infinity,5,6,7,8,9,10,11,12,13,14,15,16,17,18,19,20,21,22,23,24,-999999.00000000001;")
             None) []
  with
  | Ok (rows, _) =>
      (fun row : gmap string value =>
         (row !! "length", row !! "depth", row !! "elapsedTime", row !! "qc", row !! "rf"))
        <$> rows
      = [ (Some (Num (15 # 10)), Some Null, Some Null, Some (Inf false), Some Null) ]
  | Error _ => False
  end.
Proof. vm_compute. reflexivity. Qed.

(** **** The keys of the rows *)

Lemma parse_block_keys (tokenSep block : string) (row : gmap string value) :
  parse_block tokenSep block = Some row ->
  Forall (fun k => is_Some (row !! k)) (key <$> BRO_COLUMN_ORDER).
Proof.
  intros Hrow.
  destruct (Nat.lt_ge_cases (length (split tokenSep (trim block))) 25) as [Hlt|Hge].
  - unfold parse_block in Hrow. apply Nat.ltb_lt in Hlt. rewrite Hlt in Hrow. discriminate.
  - destruct (parse_block_row tokenSep block Hge) as (row' & Hrow' & Hkeys).
    rewrite Hrow in Hrow'. injection Hrow' as <-.
    apply Forall_fmap, Forall_forall. intros c Hc.
    apply list_elem_of_lookup in Hc as [i Hi].
    simpl. rewrite (Hkeys i c Hi). eauto.
Qed.

(** Every record returned by Parser B satisfies the invariant of the
    data model, also after the friction ratio has been derived. *)
Lemma bro_rows_have_keys (doc : Document) (r : Record_) :
  parse doc = Ok r -> rows_have_keys (ckey <$> columns r) (data r).
Proof.
  unfold parse. destruct (parsererror doc); [discriminate|].
  destruct (cptObj doc) as [cpt|]; [|discriminate].
  destruct (_parseData cpt (_parseParameters cpt)) as [[rows cols]|msg] eqn:E;
    [|discriminate].
  assert (Hrows : Forall (fun row => Forall (fun k => is_Some (row !! k))
                                       (key <$> BRO_COLUMN_ORDER)) rows).
  { destruct (parseData_blocks _ _ _ _ E) as (text & _ & ->).
    apply Forall_forall. intros row Hrow.
    apply list_elem_of_omap in Hrow as (block & _ & Hb).
    eapply parse_block_keys. exact Hb. }
  assert (Hcols : Forall (fun k => k ∈ key <$> BRO_COLUMN_ORDER) (ckey <$> cols)).
  { eapply parseData_columns. exact E. }
  assert (Hinv : rows_have_keys (ckey <$> cols) rows).
  { unfold rows_have_keys. eapply Forall_impl; [exact Hrows|].
    intros row Hrow. eapply Forall_impl; [exact Hcols|].
    intros k Hk. rewrite Forall_forall in Hrow. apply Hrow. exact Hk. }
  unfold _computeDerived.
  destruct (negb (hasKey cols "rf") && hasKey cols "qc" && hasKey cols "fs");
    intros H; injection H as <-; cbn [columns data]; [|exact Hinv].
  unfold rows_have_keys in *. apply Forall_fmap.
  eapply Forall_impl; [exact Hinv|]. intros row Hrow.
  rewrite fmap_app. apply Forall_app. split.
  - eapply Forall_impl; [exact Hrow|]. intros k Hk.
    apply GefProps.derive_rf_keys. left. exact Hk.
  - repeat constructor. apply GefProps.derive_rf_keys. right. reflexivity.
Qed.

End BroProps.

(** *** Parser B: further properties *)

Module BroExtra.
Import JsString FormatRecord BroXmlParser Spec BroProps.

(** **** Failure *)

(** X16. [parse] throws exactly when the XML did not parse, or has no CPT
    element, or the CPT element has no [values] element; the message tells
    which. *)
Theorem bro_parse_error (doc : Document) :
  ((exists msg, parse doc = Error msg)
   <-> is_Some (parsererror doc) \/ cptObj doc = None
       \/ exists cpt, cptObj doc = Some cpt /\ values cpt = None)
  /\ (forall e, parsererror doc = Some e ->
        parse doc = Error ("Ongeldig XML-bestand: " +:+ String.substring 0 200 e))
  /\ (parsererror doc = None -> cptObj doc = None ->
        parse doc = Error "Geen CPT_O of CPT_O_DP element gevonden in XML")
  /\ (forall cpt, parsererror doc = None -> cptObj doc = Some cpt -> values cpt = None ->
        parse doc = Error "Geen meetdata (cptcommon:values) gevonden in XML").
Proof.
  unfold parse, _parseData.
  destruct (parsererror doc) as [e|];
    [|destruct (cptObj doc) as [cpt|]; [destruct (values cpt) as [text|] eqn:Hv|]];
    try (destruct (match TextEncoding cpt with Some _ => _ | None => _ end)
           as [tokenSep blockSep]);
    try (destruct (_computeDerived _ _) as [d c]);
    (split; [split|split; [|split]]);
    intros;
    repeat match goal with
           | H : exists _, _ |- _ => destruct H
           | H : _ /\ _ |- _ => destruct H
           | H : _ \/ _ |- _ => destruct H
           | H : is_Some _ |- _ => destruct H
           | H : Some _ = Some _ |- _ => injection H as H; subst
           end;
    try discriminate; try congruence; eauto 7.
Qed.

Lemma bro_parse_error_witness :
  parse (mkDoc None (Some (mkCpt None None None)))
  = Error "Geen meetdata (cptcommon:values) gevonden in XML".
Proof.
  apply (proj2 (proj2 (proj2 (bro_parse_error (mkDoc None (Some (mkCpt None None None))))))
           (mkCpt None None None)); reflexivity.
Defined.

(** **** The columns *)

Lemma parseParameters_flag (cpt : CptObj) (i : nat) (c : ColumnDef) :
  BRO_COLUMN_ORDER !! i = Some c ->
  (_parseParameters cpt !! i = Some true <-> flagged cpt c).
Proof.
  intros Hc. unfold _parseParameters, flagged.
  destruct (parameters cpt) as [paramsEl|]; rewrite list_lookup_fmap, Hc; cbn.
  - destruct (paramsEl (paramTag c)) as [text|].
    + destruct (decide (toLowerCase (trim text) = "ja")) as [E|E]; split.
      * intros _. eauto.
      * reflexivity.
      * discriminate.
      * intros (text' & H & H'). injection H as <-. contradiction.
    + split; [discriminate|]. intros (text & H & _). discriminate.
  - split; [intros _; exact I|reflexivity].
Qed.

Lemma active_columns_elem (activeColumns : list bool) (col : Column) :
  col ∈ omap (fun ic : nat * ColumnDef =>
                let '(i, c) := ic in
                match activeColumns !! i with
                | Some true => Some (mkColumn (Some i) (key c) (label c) (unit c) false)
                | _ => None
                end)
             (imap pair BRO_COLUMN_ORDER)
  <-> exists i c, BRO_COLUMN_ORDER !! i = Some c /\ activeColumns !! i = Some true
                  /\ col = mkColumn (Some i) (key c) (label c) (unit c) false.
Proof.
  rewrite list_elem_of_omap. split.
  - intros ([i c] & Hic & Hcol).
    apply elem_of_lookup_imap in Hic as (j & c' & Heq & Hj). injection Heq as -> ->.
    destruct (activeColumns !! j) as [[|]|] eqn:Ha; try discriminate.
    injection Hcol as <-. eauto.
  - intros (i & c & Hc & Ha & ->). exists (i, c). split.
    + apply elem_of_lookup_imap. eauto.
    + rewrite Ha. reflexivity.
Qed.

Lemma hasKey_flagged (cpt : CptObj) (k : string) :
  hasKey (omap (fun ic : nat * ColumnDef =>
                  let '(i, c) := ic in
                  match _parseParameters cpt !! i with
                  | Some true => Some (mkColumn (Some i) (key c) (label c) (unit c) false)
                  | _ => None
                  end)
               (imap pair BRO_COLUMN_ORDER)) k = true
  <-> flagged_key cpt k.
Proof.
  unfold hasKey, flagged_key. rewrite existsb_exists. split.
  - intros (col & Hin & Hk). apply list_elem_of_In, active_columns_elem in Hin
      as (i & c & Hc & Ha & ->). cbn in Hk.
    destruct (decide (key c = k)) as [<-|]; [|discriminate].
    exists c. split; [apply list_elem_of_lookup; eauto|]. split; [reflexivity|].
    apply (parseParameters_flag cpt i c Hc). exact Ha.
  - intros (c & Hin & <- & Hf). apply list_elem_of_lookup in Hin as [i Hc].
    exists (mkColumn (Some i) (key c) (label c) (unit c) false). split.
    + apply list_elem_of_In, active_columns_elem. exists i, c.
      split; [exact Hc|]. split; [|reflexivity].
      apply (parseParameters_flag cpt i c Hc). exact Hf.
    + cbn. destruct (decide (key c = key c)); [reflexivity|congruence].
Qed.

Lemma columns_shape (doc : Document) (cpt : CptObj) (r : Record_) :
  cptObj doc = Some cpt -> parse doc = Ok r ->
  exists cols0 extra,
    columns r = cols0 ++ extra
    /\ (forall col, col ∈ cols0 <->
          exists i c, BRO_COLUMN_ORDER !! i = Some c /\ flagged cpt c
                      /\ col = mkColumn (Some i) (key c) (label c) (unit c) false)
    /\ ((extra = [] /\ ~ (~ flagged_key cpt "rf" /\ flagged_key cpt "qc" /\ flagged_key cpt "fs"))
        \/ (extra = [mkColumn None "rf" "Wrijvingsgetal (berekend)" "%" true]
            /\ ~ flagged_key cpt "rf" /\ flagged_key cpt "qc" /\ flagged_key cpt "fs"))
    /\ (parameters cpt = None -> ckey <$> cols0 = key <$> BRO_COLUMN_ORDER).
Proof.
  intros Hcpt. unfold parse. rewrite Hcpt.
  destruct (parsererror doc); [discriminate|].
  unfold _parseData. destruct (values cpt) as [text|]; [|discriminate].
  destruct (match TextEncoding cpt with Some _ => _ | None => _ end) as [tokenSep blockSep].
  pose proof (active_columns_elem (_parseParameters cpt)) as Hel.
  pose proof (hasKey_flagged cpt "rf") as Hrf.
  pose proof (hasKey_flagged cpt "qc") as Hqc.
  pose proof (hasKey_flagged cpt "fs") as Hfs.
  assert (Hall : parameters cpt = None ->
                 ckey <$> omap (fun ic : nat * ColumnDef =>
                                  let '(i, c) := ic in
                                  match _parseParameters cpt !! i with
                                  | Some true =>
                                      Some (mkColumn (Some i) (key c) (label c) (unit c) false)
                                  | _ => None
                                  end)
                               (imap pair BRO_COLUMN_ORDER)
                 = key <$> BRO_COLUMN_ORDER).
  { intros Hp. unfold _parseParameters. rewrite Hp. reflexivity. }
  set (cols0 := omap _ (imap pair BRO_COLUMN_ORDER)) in *.
  set (rows := omap _ _).
  assert (Hmem : forall col, col ∈ cols0 <->
            exists i c, BRO_COLUMN_ORDER !! i = Some c /\ flagged cpt c
                        /\ col = mkColumn (Some i) (key c) (label c) (unit c) false).
  { intros col. rewrite Hel. split; intros (i & c & Hc & Ha & Hcol); exists i, c;
      (split; [exact Hc|]); (split; [|exact Hcol]);
      apply (parseParameters_flag cpt i c Hc); exact Ha. }
  unfold _computeDerived.
  destruct (hasKey cols0 "rf") eqn:E1; destruct (hasKey cols0 "qc") eqn:E2;
    destruct (hasKey cols0 "fs") eqn:E3; cbn [negb andb];
    intros H; injection H as <-; cbn [columns];
    try (exists cols0, []; rewrite app_nil_r; split; [reflexivity|];
         split; [exact Hmem|]; split; [|exact Hall]; left; split; [reflexivity|];
         intros (N1 & N2 & N3);
         first [apply N1, Hrf; reflexivity
               |apply Hqc in N2; congruence
               |apply Hfs in N3; congruence]).
  exists cols0, [mkColumn None "rf" "Wrijvingsgetal (berekend)" "%" true].
  split; [reflexivity|]. split; [exact Hmem|]. split; [|exact Hall]. right.
  split; [reflexivity|]. split; [|split].
  - intros N. apply Hrf in N. congruence.
  - apply Hqc. reflexivity.
  - apply Hfs. reflexivity.
Qed.

(** X17. The columns returned are the columns of the fixed table that are
    flagged as present (all 25, in the order of the table, when there is
    no [parameters] element), each with the key of its position.  One
    more column, a computed [rf], comes last exactly when [rf] is not
    flagged while [qc] and [fs] are. *)
Theorem bro_columns_flagged (doc : Document) (cpt : CptObj) (r : Record_) :
  cptObj doc = Some cpt -> parse doc = Ok r ->
  (forall i c, BRO_COLUMN_ORDER !! i = Some c ->
     ((exists col, col ∈ columns r /\ index col = Some i) <-> flagged cpt c)
     /\ (forall col, col ∈ columns r -> index col = Some i ->
           ckey col = key c /\ computed col = false))
  /\ ((exists col, col ∈ columns r /\ index col = None)
      <-> ~ flagged_key cpt "rf" /\ flagged_key cpt "qc" /\ flagged_key cpt "fs")
  /\ (forall col, col ∈ columns r -> index col = None ->
        ckey col = "rf" /\ computed col = true /\ last (columns r) = Some col)
  /\ (parameters cpt = None -> ckey <$> columns r = key <$> BRO_COLUMN_ORDER).
Proof.
  intros Hcpt Hparse.
  destruct (columns_shape doc cpt r Hcpt Hparse)
    as (cols0 & extra & Hr & Hcols & Hextra & Hall).
  assert (Hidx0 : forall col, col ∈ cols0 -> index col <> None).
  { intros col Hin. apply Hcols in Hin as (j & c' & _ & _ & ->). discriminate. }
  assert (Hx : forall col, col ∈ extra ->
                 col = mkColumn None "rf" "Wrijvingsgetal (berekend)" "%" true
                 /\ extra = [col]).
  { intros col Hin. destruct Hextra as [[-> _]|[-> _]].
    - apply elem_of_nil in Hin. contradiction.
    - apply list_elem_of_singleton in Hin as ->. split; reflexivity. }
  split; [|split; [|split]].
  - intros i c Hc. split; [split|].
    + intros (col & Hin & Hidx). rewrite Hr in Hin.
      apply elem_of_app in Hin as [Hin|Hin].
      * apply Hcols in Hin as (j & c' & Hc' & Hf & ->). cbn in Hidx.
        injection Hidx as ->. rewrite Hc in Hc'. injection Hc' as <-. exact Hf.
      * destruct (Hx col Hin) as [-> _]. discriminate.
    + intros Hf. exists (mkColumn (Some i) (key c) (label c) (unit c) false).
      split; [|reflexivity]. rewrite Hr. apply elem_of_app. left.
      apply Hcols. eauto.
    + intros col Hin Hidx. rewrite Hr in Hin.
      apply elem_of_app in Hin as [Hin|Hin].
      * apply Hcols in Hin as (j & c' & Hc' & Hf & ->). cbn in Hidx.
        injection Hidx as ->. rewrite Hc in Hc'. injection Hc' as <-. split; reflexivity.
      * destruct (Hx col Hin) as [-> _]. discriminate.
  - split.
    + intros (col & Hin & Hidx). rewrite Hr in Hin.
      apply elem_of_app in Hin as [Hin|Hin]; [exfalso; apply (Hidx0 col Hin Hidx)|].
      destruct Hextra as [[-> _]|[_ H]]; [apply elem_of_nil in Hin; contradiction|exact H].
    + intros H. destruct Hextra as [[_ N]|[-> _]]; [contradiction|].
      exists (mkColumn None "rf" "Wrijvingsgetal (berekend)" "%" true).
      split; [|reflexivity]. rewrite Hr. apply elem_of_app. right.
      apply list_elem_of_singleton. reflexivity.
  - intros col Hin Hidx. rewrite Hr in Hin |- *.
    apply elem_of_app in Hin as [Hin|Hin]; [exfalso; apply (Hidx0 col Hin Hidx)|].
    destruct (Hx col Hin) as [-> ->]. repeat split. apply last_snoc.
  - intros Hp. rewrite Hr.
    destruct Hextra as [[-> _]|[_ (N & _)]].
    + rewrite app_nil_r. apply Hall. exact Hp.
    + exfalso. apply N. exists (mkDef "rf" "Wrijvingsgetal" "%" "frictionRatio").
      split; [|split; [reflexivity|]].
      * apply list_elem_of_lookup. exists 24%nat. reflexivity.
      * unfold flagged. rewrite Hp. exact I.
Qed.

Lemma bro_columns_flagged_witness :
  match parse (mkDoc None (Some (mkCpt None (Some "1,2") None))) with
  | Ok r => ckey <$> columns r = key <$> BRO_COLUMN_ORDER
  | Error _ => False
  end.
Proof.
  destruct (parse _) as [r|msg] eqn:E.
  - apply (proj2 (proj2 (proj2 (bro_columns_flagged
             (mkDoc None (Some (mkCpt None (Some "1,2") None)))
             (mkCpt None (Some "1,2") None) r eq_refl E)))).
    reflexivity.
  - vm_compute in E. discriminate E.
Defined.

(** **** The friction ratio *)

Lemma derive_rf_rf (row : gmap string value) :
  (forall q f, row !! "qc" = Some (Num q) -> row !! "fs" = Some (Num f) ->
     ~ (q == 0)%Q -> derive_rf row !! "rf" = Some (Num (f / q * 100)))
  /\ (row !! "qc" = Some Null \/ row !! "fs" = Some Null
      \/ (exists q, row !! "qc" = Some (Num q) /\ (q == 0)%Q) ->
      derive_rf row !! "rf" = Some Null).
Proof.
  unfold derive_rf. split.
  - intros q f Eq Ef Hq0. rewrite Eq, Ef. cbn [is_null is_zero negb andb].
    destruct (Qeq_bool q 0) eqn:E; [apply Qeq_bool_iff in E; contradiction|].
    cbn [negb]. rewrite lookup_insert_eq. reflexivity.
  - intros [E|[E|(q & E & Hq0)]]; rewrite E; cbn [is_null is_zero negb andb].
    + apply lookup_insert_eq.
    + rewrite andb_false_r. apply lookup_insert_eq.
    + apply Qeq_bool_iff in Hq0. rewrite Hq0. cbn [negb]. rewrite andb_false_r.
      apply lookup_insert_eq.
Qed.

(** The rows of a row of tokens stay what they are, but for [rf], when
    the friction ratio is derived. *)
Lemma derive_rf_row_of_tokens (tokens : list string) (row : gmap string value) :
  row_of_tokens [] tokens row -> row_of_tokens ["rf"] tokens (derive_rf row).
Proof.
  intros H i c Hc Hk.
  destruct (H i c Hc) as (token & Htok & Hvoid & Hnum).
  { intros F. apply elem_of_nil in F. exact F. }
  exists token. split; [exact Htok|].
  assert (Hne : key c <> "rf").
  { intros E. apply Hk. rewrite E. apply list_elem_of_singleton. reflexivity. }
  rewrite (GefExtra.derive_rf_other row (key c) Hne). split; assumption.
Qed.

(** X18. The record returned for a document has one row for each block of
    at least 25 tokens of its values element, in the order of the blocks.
    When [rf] is not flagged as present while [qc] and [fs] are, a row
    holds what the tokens of its block stand for at every position but
    that of [rf], and its [rf] is [fs / qc * 100] of that row, or [null]
    when its [qc] or [fs] is [null] or its [qc] is [0], whatever stood at
    position 25 of the block.  In every other case a row holds what the
    tokens of its block stand for at all of the 25 positions. *)
Theorem bro_derived_rf (doc : Document) (cpt : CptObj) (r : Record_) :
  cptObj doc = Some cpt -> parse doc = Ok r ->
  exists text,
    values cpt = Some text
    /\ ((~ flagged_key cpt "rf" /\ flagged_key cpt "qc" /\ flagged_key cpt "fs") ->
        Forall2 (fun block row =>
          row_of_tokens ["rf"] (block_tokens cpt block) row
          /\ (forall q f, row !! "qc" = Some (Num q) -> row !! "fs" = Some (Num f) ->
                ~ (q == 0)%Q -> row !! "rf" = Some (Num (f / q * 100)))
          /\ (row !! "qc" = Some Null \/ row !! "fs" = Some Null
              \/ (exists q, row !! "qc" = Some (Num q) /\ (q == 0)%Q) ->
              row !! "rf" = Some Null))
          (row_blocks cpt text) (data r))
    /\ (~ (~ flagged_key cpt "rf" /\ flagged_key cpt "qc" /\ flagged_key cpt "fs") ->
        Forall2 (fun block row => row_of_tokens [] (block_tokens cpt block) row)
          (row_blocks cpt text) (data r)).
Proof.
  intros Hcpt. unfold parse. rewrite Hcpt.
  destruct (parsererror doc); [discriminate|].
  destruct (values cpt) as [text|] eqn:Hv;
    [|unfold _parseData; rewrite Hv; discriminate].
  rewrite (parseData_shape cpt _ text Hv).
  pose proof (hasKey_flagged cpt "rf") as Hrf.
  pose proof (hasKey_flagged cpt "qc") as Hqc.
  pose proof (hasKey_flagged cpt "fs") as Hfs.
  set (cols0 := omap _ (imap pair BRO_COLUMN_ORDER)) in *.
  pose proof (parse_blocks_rows cpt (blocks_of cpt text)) as Hread.
  fold (row_blocks cpt text) in Hread.
  set (rows0 := omap _ (blocks_of cpt text)) in *.
  unfold _computeDerived.
  destruct (hasKey cols0 "rf") eqn:E1; destruct (hasKey cols0 "qc") eqn:E2;
    destruct (hasKey cols0 "fs") eqn:E3; cbn [negb andb];
    intros H; injection H as <-; cbn [data]; exists text; (split; [reflexivity|]);
    try (split; [|intros _; exact Hread];
         intros (N1 & N2 & N3); exfalso;
         first [apply N1, Hrf; reflexivity
               |apply Hqc in N2; congruence
               |apply Hfs in N3; congruence]).
  split.
  - intros _. apply Forall2_fmap_r. eapply Forall2_impl; [exact Hread|].
    intros block row Hrow. cbv beta delta [compose] in Hrow |- *.
    destruct (derive_rf_rf row) as [H1 H2].
    rewrite !(GefExtra.derive_rf_other row) by discriminate.
    split; [apply derive_rf_row_of_tokens; exact Hrow|]. split; [exact H1|exact H2].
  - intros N. exfalso. apply N. split; [|split].
    + intros F. apply Hrf in F. congruence.
    + apply Hqc. reflexivity.
    + apply Hfs. reflexivity.
Qed.

Lemma bro_derived_rf_witness :
  match parse (mkDoc None (Some (mkCpt
          (Some (fun tag => if decide (tag = "coneResistance" \/ tag = "localFriction")
                            then Some " Ja " else None))
          (Some "1,2,3,4,5,6,7,8,9,10,11,12,13,14,15,16,17,18,0.1,20,21,22,23,24,99;")
          None))) with
  | Ok r =>
      length (data r) = 1%nat
      /\ Forall (fun row =>
            (forall q f, row !! "qc" = Some (Num q) -> row !! "fs" = Some (Num f) ->
               ~ (q == 0)%Q -> row !! "rf" = Some (Num (f / q * 100)))
            /\ (row !! "qc" = Some Null \/ row !! "fs" = Some Null
                \/ (exists q, row !! "qc" = Some (Num q) /\ (q == 0)%Q) ->
                row !! "rf" = Some Null)) (data r)
  | Error _ => False
  end.
Proof.
  set (cpt := mkCpt _ _ _).
  destruct (parse (mkDoc None (Some cpt))) as [r|msg] eqn:E.
  - destruct (bro_derived_rf (mkDoc None (Some cpt)) cpt r eq_refl E)
      as (text & Hv & Hderived & _).
    injection Hv as <-.
    assert (Hflags : ~ flagged_key cpt "rf" /\ flagged_key cpt "qc" /\ flagged_key cpt "fs").
    { split; [|split].
      - intros F. apply hasKey_flagged in F. vm_compute in F. discriminate F.
      - apply hasKey_flagged. vm_compute. reflexivity.
      - apply hasKey_flagged. vm_compute. reflexivity. }
    specialize (Hderived Hflags).
    split.
    + apply Forall2_length in Hderived. rewrite <- Hderived. reflexivity.
    + eapply Forall2_Forall_r; [exact Hderived|].
      apply Forall_forall. intros block _ row (_ & Hnum & Hnull).
      split; [exact Hnum|exact Hnull].
  - apply (f_equal (fun x => match x with Ok _ => true | Error _ => false end)) in E.
    vm_compute in E. discriminate E.
Defined.

Example bro_derived_rf_example :
  match parse (mkDoc None (Some (mkCpt
          (Some (fun tag => if decide (tag = "coneResistance" \/ tag = "localFriction")
                            then Some " Ja " else None))
          (Some "1,2,3,4,5,6,7,8,9,10,11,12,13,14,15,16,17,18,0.5,20,21,22,23,24,-999999;")
          None))) with
  | Ok r =>
      (fun row : gmap string value => (row !! "qc", row !! "fs", row !! "rf")) <$> data r
      = [ (Some (Num 4), Some (Num (5 # 10)), Some (Num ((5 # 10) / 4 * 100))) ]
  | Error _ => False
  end.
Proof. vm_compute. reflexivity. Qed.

End BroExtra.

(** *** The viewport of the chart *)

Module ChartProps.
Import CptChart Spec.
Local Open Scope Q_scope.

(** [setData] shows the full extent. *)
Lemma setData_view (hasDepth : bool) (data : list (gmap string value))
    (w h : Z) (s s0 : Chart) :
  setData hasDepth data w h s = Some s0 ->
  depthMin s0 = 0 /\ depthViewMin s0 = depthMin s0 /\ depthViewMax s0 = depthMax s0.
Proof.
  unfold setData. destruct (extent_max hasDepth data) as [dmax|]; [|discriminate].
  simpl. intros H. injection H as <-. unfold resize.
  destruct (_ || _)%Z; repeat split.
Qed.

Lemma zoomIn_within (s : Chart) :
  view_within_extent s -> view_within_extent (zoomIn s).
Proof.
  unfold view_within_extent, zoomIn. intros [Hlo Hhi].
  destruct (Qltb _ (1 # 2)) eqn:E; [split; assumption|].
  apply Qltb_ge in E. unfold with_view; simpl.
  unfold Qdiv in *.
  change (/ (13 # 10)) with (10 # 13) in *. change (/ 2) with (1 # 2) in *.
  split; lra.
Qed.

Lemma plotH_plotB (s : Chart) (h b : Q) :
  plotH s = Some h -> plotB s = Some b -> h = b - plotT.
Proof.
  unfold plotH. intros Hh Hb. rewrite Hb in Hh. simpl in Hh. congruence.
Qed.

Lemma onWheel_in_within (y deltaY : Q) (s s' : Chart) :
  deltaY <= 0 -> view_within_extent s -> _onWheel y deltaY s = Some s' ->
  view_within_extent s'.
Proof.
  intros Hd Hin. unfold _onWheel.
  destruct (plotH s) as [h|] eqn:Eh; [destruct (plotB s) as [b|] eqn:Eb|];
    try (destruct (Qltb y plotT); [intros H; injection H as <-; exact Hin|discriminate]).
  destruct (Qltb y plotT || Qltb b y) eqn:G; [intros H; injection H as <-; exact Hin|].
  apply orb_false_iff in G as [G1 G2]. apply Qltb_ge in G1, G2.
  destruct (Qeq_bool h 0) eqn:E0; [discriminate|].
  assert (Hh0 : ~ h == 0) by (intros H; apply Qeq_bool_iff in H; congruence).
  pose proof (plotH_plotB s h b Eh Eb) as ->.
  assert (Hpos : 0 < b - plotT) by lra.
  assert (F : Qltb 0 deltaY = false) by (apply Qltb_ge; exact Hd).
  rewrite F. cbv zeta. change (1 / (28 # 25)) with (25 # 28).
  destruct (Qltb _ (1 # 2)) eqn:E; [intros H; injection H as <-; exact Hin|].
  intros H; injection H as <-. apply Qltb_ge in E.
  destruct Hin as [Hlo Hhi]. unfold view_within_extent, with_view; simpl.
  unfold _y2d in *.
  assert (Ht0 : 0 <= (y - plotT) / (b - plotT)).
  { apply Qle_shift_div_l; [exact Hpos|]. lra. }
  assert (Ht1 : (y - plotT) / (b - plotT) <= 1).
  { apply Qle_shift_div_r; [exact Hpos|]. lra. }
  set (t := (y - plotT) / (b - plotT)) in *.
  assert (Hspan : 0 <= depthViewMax s - depthViewMin s) by lra.
  pose proof (Qmult_le_0_compat _ _ Ht0 Hspan) as Hu0.
  assert (Ht1' : 0 <= 1 - t) by lra.
  pose proof (Qmult_le_0_compat _ _ Ht1' Hspan) as Hu1.
  split; lra.
Qed.

Lemma narrowing_within (e : event) (s s' : Chart) :
  narrowing e -> view_within_extent s -> handle e s = Some s' ->
  view_within_extent s'.
Proof.
  destruct e as [y button|y| | |y deltaY| | |]; simpl; intros Hn Hin Hs;
    try contradiction; try (injection Hs as <-).
  - exact Hin.
  - exact Hin.
  - eapply onWheel_in_within; eassumption.
  - apply zoomIn_within. exact Hin.
  - unfold view_within_extent, zoomFit, with_view; simpl. split; apply Qle_refl.
Qed.

(** C10, as stated, fails: the handlers do not clamp the view.  After
    [setData] on a sounding that is 10 deep (extent 0 to 11), one
    zoom-out shows the range from -1.65 to 12.65. *)
Lemma zoomOut_leaves_extent :
  exists s0 s,
    setData true [ {[ "depth" := Num 10 ]} ] 400 600 init = Some s0
    /\ run [ZoomOut] s0 = Some s
    /\ depthMin s == 0 /\ depthMax s == 11
    /\ depthViewMin s == - (165 # 100) /\ depthViewMax s == 1265 # 100
    /\ ~ view_within_extent s.
Proof.
  eexists. eexists. split; [reflexivity|]. split; [reflexivity|].
  repeat split; try reflexivity.
  unfold view_within_extent. simpl. intros [H _].
  vm_compute in H. apply H. reflexivity.
Qed.

(** A drag of the plot downwards by 100 pixels, likewise. *)
Example pan_leaves_extent :
  exists s0 s,
    setData true [ {[ "depth" := Num 10 ]} ] 400 600 init = Some s0
    /\ run [MouseDown 100 0; MouseMove 200; MouseUp] s0 = Some s
    /\ ~ view_within_extent s.
Proof.
  eexists. eexists. split; [reflexivity|]. split; [reflexivity|].
  unfold view_within_extent. simpl. intros [H _].
  vm_compute in H. apply H. reflexivity.
Qed.

(** Without a measured plot height, a wheel step over the plot has no
    next state in the model: the handler writes [NaN] into the view. *)
Example wheel_unmeasured :
  exists s0,
    setData true [ {[ "depth" := Num 10 ]} ] 0 0 init = Some s0
    /\ narrowing (Wheel 28 (- 100))
    /\ run [Wheel 28 (- 100)] s0 = None.
Proof.
  eexists. split; [reflexivity|]. split; [discriminate|reflexivity].
Qed.

(** The handlers never touch the depth extent or the measured height. *)
Lemma handle_extent (e : event) (s s' : Chart) :
  handle e s = Some s' ->
  depthMin s' = depthMin s /\ depthMax s' = depthMax s /\ H s' = H s.
Proof.
  destruct e as [y button|y| | |y deltaY| | |]; simpl; intros Hs;
    try (injection Hs as <-; repeat split; fail).
  - unfold _onMouseDown in Hs. destruct (button =? 0)%Z; injection Hs as <-; repeat split.
  - unfold _onMouseMove in Hs. destruct (isPanning s).
    + destruct (plotH s) as [h|]; [|discriminate].
      destruct (Qeq_bool h 0); [discriminate|]. injection Hs as <-. repeat split.
    + injection Hs as <-. repeat split.
  - unfold _onWheel in Hs.
    destruct (plotH s) as [h|]; [destruct (plotB s) as [b|]|];
      try (destruct (Qltb y plotT); [injection Hs as <-; repeat split|discriminate]).
    destruct (Qltb y plotT || Qltb b y); [injection Hs as <-; repeat split|].
    destruct (Qeq_bool h 0); [discriminate|].
    cbv zeta in Hs.
    destruct (Qltb _ (1 # 2)); injection Hs as <-; repeat split.
  - injection Hs as <-. unfold zoomIn. cbv zeta. destruct (Qltb _ (1 # 2)); repeat split.
Qed.

Lemma run_extent (es : list event) (s s' : Chart) :
  run es s = Some s' ->
  depthMin s' = depthMin s /\ depthMax s' = depthMax s /\ H s' = H s.
Proof.
  revert s. induction es as [|e es IH]; simpl; intros s Hs.
  - injection Hs as <-. repeat split.
  - destruct (handle e s) as [s1|] eqn:E; [|discriminate].
    destruct (handle_extent _ _ _ E) as (E1 & E2 & E3).
    rewrite <- E1, <- E2, <- E3. apply IH. exact Hs.
Qed.

(** A dataset without a depth that is [NaN] or infinite has a depth
    extent. *)
Lemma Math_max_defined (l : list value) (m : Q) :
  Forall (fun v => exists q, v = Num q) l -> is_Some (Math_max m l).
Proof.
  revert m. induction l as [|v l IH]; intros m Hl; simpl; [eauto|].
  apply Forall_cons_1 in Hl as [(q & ->) Hl]. simpl. apply IH. exact Hl.
Qed.

Lemma finite_depths_valid (hasDepth : bool) (data : list (gmap string value)) :
  finite_depths hasDepth data ->
  Forall (fun v => exists q, v = Num q) (omap (row_depth hasDepth) data).
Proof.
  unfold finite_depths. induction 1 as [|r data Hr _ IH]; [constructor|].
  cbn [omap list_omap]. unfold row_depth at 1.
  destruct (if hasDepth then r !! "depth" else r !! "length") as [[| |q|b]|];
    try contradiction; try exact IH.
  constructor; [|exact IH]. eexists. reflexivity.
Qed.

Lemma setData_defined (hasDepth : bool) (data : list (gmap string value))
    (w h : Z) (s : Chart) :
  finite_depths hasDepth data -> is_Some (setData hasDepth data w h s).
Proof.
  intros Hd. apply finite_depths_valid in Hd. unfold setData, extent_max.
  destruct (omap (row_depth hasDepth) data) as [|v valid]; [simpl; eauto|].
  apply Forall_cons_1 in Hd as [(q & ->) Hd]. cbn [to_number].
  destruct (Math_max_defined valid q Hd) as [m ->]. simpl. eauto.
Qed.

(** On a measured plot with a height other than zero, every event has a
    next state. *)
Lemma handle_defined (e : event) (s : Chart) :
  plot_measured s -> is_Some (handle e s).
Proof.
  intros (h & Hh & Hne).
  assert (E0 : Qeq_bool h 0 = false).
  { destruct (Qeq_bool h 0) eqn:E; [|reflexivity]. apply Qeq_bool_iff in E. contradiction. }
  destruct e as [y button|y| | |y deltaY| | |]; simpl; eauto.
  - unfold _onMouseMove. rewrite Hh, E0. destruct (isPanning s); eauto.
  - unfold _onWheel. rewrite Hh.
    destruct (plotB s) as [b|] eqn:Eb.
    + destruct (Qltb y plotT || Qltb b y); [eauto|]. rewrite E0. cbv zeta.
      destruct (Qltb _ (1 # 2)); eauto.
    + unfold plotH in Hh. rewrite Eb in Hh. discriminate Hh.
Qed.

Lemma plot_measured_handle (e : event) (s s' : Chart) :
  handle e s = Some s' -> plot_measured s -> plot_measured s'.
Proof.
  intros Hs (h & Hh & Hne). exists h. split; [|exact Hne].
  destruct (handle_extent _ _ _ Hs) as (_ & _ & EH).
  unfold plotH, plotB in *. rewrite EH. exact Hh.
Qed.

(** C10, amended. After [setData] on a dataset without a depth that is
    [NaN] or infinite, and on a plot whose height has been measured and
    is not zero, every sequence of zoom-in, wheel steps that zoom in and
    zoom-to-fit leads to a state, and in that state the visible range is
    a sub-range of the full depth extent.  (Panning, zoom-out and wheel
    steps that zoom out are not clamped.) *)
Theorem narrowing_stays_within_extent (hasDepth : bool)
    (data : list (gmap string value)) (w h : Z) (s_before : Chart)
    (es : list event) :
  finite_depths hasDepth data ->
  exists s0,
    setData hasDepth data w h s_before = Some s0
    /\ (plot_measured s0 -> Forall narrowing es ->
        exists s, run es s0 = Some s /\ view_within_extent s).
Proof.
  intros Hd.
  destruct (setData_defined hasDepth data w h s_before Hd) as [s0 Hset].
  exists s0. split; [exact Hset|]. intros Hm Hes.
  assert (H0 : view_within_extent s0).
  { destruct (setData_view _ _ _ _ _ _ Hset) as (_ & Hlo & Hhi).
    unfold view_within_extent. rewrite Hlo, Hhi.
    split; apply Qle_refl. }
  clear Hset Hd. revert s0 Hm H0.
  induction Hes as [|e es He _ IH]; intros s0 Hm H0; simpl.
  - exists s0. split; [reflexivity|exact H0].
  - destruct (handle_defined e s0 Hm) as [s1 E1]. rewrite E1.
    apply IH.
    + eapply plot_measured_handle; eassumption.
    + eapply narrowing_within; eassumption.
Qed.

Lemma narrowing_stays_within_extent_witness :
  exists s0,
    setData true [ {[ "depth" := Num 10 ]} ] 400 600 init = Some s0
    /\ exists s, run [ZoomIn; Wheel 300 (-1); ZoomFit; ZoomIn] s0 = Some s
                 /\ view_within_extent s.
Proof.
  destruct (narrowing_stays_within_extent true [ {[ "depth" := Num 10 ]} ] 400 600 init
              [ZoomIn; Wheel 300 (-1); ZoomFit; ZoomIn]) as (s0 & Hs0 & Hrun).
  { repeat constructor. }
  exists s0. split; [exact Hs0|]. apply Hrun.
  - exists 568. split; [|discriminate].
    apply (f_equal (fun o => o ≫= plotH)) in Hs0. symmetry. exact Hs0.
  - repeat constructor. discriminate.
Defined.

End ChartProps.
(** *** More on the chart: extent, zoom, pan, nearest sample, layout *)

Module ChartExtra.
Import CptChart Spec ChartProps.
Local Open Scope Q_scope.

Lemma Math_abs_number (v : value) (q : Q) :
  to_number (Robertson.Math_abs v) = Some q -> Robertson.Math_abs v = Num q /\ 0 <= q.
Proof.
  unfold Robertson.Math_abs. destruct v as [| |x|b]; cbn [to_number]; try discriminate;
    intros Hq; injection Hq as <-;
    (split; [reflexivity|first [apply Qabs_nonneg|apply (Qabs_nonneg 0)]]).
Qed.

Lemma row_depth_abs (hasDepth : bool) (r : gmap string value) (v : value) :
  row_depth hasDepth r = Some v -> exists x, v = Robertson.Math_abs x.
Proof.
  unfold row_depth.
  destruct (if hasDepth then r !! "depth" else r !! "length") as [[| |x|b]|];
    try discriminate; intros Hv; injection Hv as <-;
    [exists NaN|exists (Num x)|exists (Inf b)]; reflexivity.
Qed.

Lemma Math_max_ub (l : list value) (m0 m : Q) :
  Math_max m0 l = Some m ->
  m0 <= m /\ forall v, In v l -> exists q, to_number v = Some q /\ q <= m.
Proof.
  revert m0. induction l as [|v l IH]; simpl; intros m0 Hm.
  - injection Hm as <-. split; [apply Qle_refl|]. intros v [].
  - destruct (to_number v) as [q|] eqn:Ev; [|discriminate].
    apply IH in Hm as [Hle Hall].
    destruct (Qle_bool m0 q) eqn:E.
    + apply Qle_bool_iff in E. split; [lra|].
      intros v' [<-|Hin]; [exists q; split; [exact Ev|exact Hle]|apply Hall; exact Hin].
    + apply Qle_bool_false in E. split; [exact Hle|].
      intros v' [<-|Hin]; [exists q; split; [exact Ev|lra]|apply Hall; exact Hin].
Qed.

Lemma extent_max_covers (hasDepth : bool) (data : list (gmap string value)) (dmax : Q) :
  extent_max hasDepth data = Some dmax ->
  1 <= dmax
  /\ (exists n : Z, dmax = inject_Z n)
  /\ forall row v, In row data -> row_depth hasDepth row = Some v ->
       exists q, v = Num q /\ 0 <= q /\ q < dmax.
Proof.
  unfold extent_max.
  destruct (omap (row_depth hasDepth) data) as [|v0 valid] eqn:Ev.
  - intros Hd. injection Hd as <-. split; [lra|]. split; [exists 30%Z; reflexivity|].
    intros row v Hin Hv.
    assert (Hel : v ∈ omap (row_depth hasDepth) data).
    { apply list_elem_of_omap. exists row. split; [apply list_elem_of_In; exact Hin|exact Hv]. }
    rewrite Ev in Hel. apply elem_of_nil in Hel. contradiction.
  - destruct (to_number v0) as [q0|] eqn:E0; [|discriminate].
    destruct (Math_max q0 valid) as [m|] eqn:Em; [|discriminate].
    simpl. intros Hd. injection Hd as <-.
    destruct (Math_max_ub _ _ _ Em) as [Hq0 Hall].
    assert (Hv0 : v0 ∈ omap (row_depth hasDepth) data) by (rewrite Ev; left).
    apply list_elem_of_omap in Hv0 as (row0 & _ & Hrow0).
    destruct (row_depth_abs _ _ _ Hrow0) as [x0 ->].
    destruct (Math_abs_number _ _ E0) as [_ Hq0pos].
    assert (Hm0 : 0 <= m) by lra.
    pose proof (Qle_ceiling (m * (51 # 50) + (1 # 2))) as Hceil.
    split.
    { assert (Hz : (Qceiling (1 # 2) <= Qceiling (m * (51 # 50) + (1 # 2)))%Z).
      { apply Qceiling_resp_le. lra. }
      change (Qceiling (1 # 2)) with 1%Z in Hz.
      change 1 with (inject_Z 1). rewrite <- Zle_Qle. exact Hz. }
    split; [eexists; reflexivity|].
    intros row v Hin Hv.
    assert (Hel : v ∈ omap (row_depth hasDepth) data).
    { apply list_elem_of_omap. exists row. split; [apply list_elem_of_In; exact Hin|exact Hv]. }
    rewrite Ev in Hel.
    assert (Hq : exists q, to_number v = Some q /\ q <= m).
    { apply elem_of_cons in Hel as [->|Hel].
      - exists q0. split; [exact E0|exact Hq0].
      - apply Hall. apply list_elem_of_In. exact Hel. }
    destruct Hq as (q & Hq & Hqm).
    destruct (row_depth_abs _ _ _ Hv) as [x ->].
    destruct (Math_abs_number _ _ Hq) as [-> Hqpos].
    exists q. split; [reflexivity|]. split; [exact Hqpos|]. lra.
Qed.

Lemma setData_fields (hasDepth : bool) (data : list (gmap string value))
    (w h : Z) (s s0 : Chart) :
  setData hasDepth data w h s = Some s0 ->
  exists dmax, extent_max hasDepth data = Some dmax
    /\ depthMin s0 = 0 /\ depthMax s0 = dmax
    /\ depthViewMin s0 = 0 /\ depthViewMax s0 = dmax
    /\ isPanning s0 = isPanning s
    /\ panStartDepthMin s0 = panStartDepthMin s
    /\ panStartDepthMax s0 = panStartDepthMax s.
Proof.
  unfold setData. destruct (extent_max hasDepth data) as [dmax|]; [|discriminate].
  simpl. intros Hs. injection Hs as <-. exists dmax. unfold resize.
  destruct (_ || _)%Z; repeat split.
Qed.

Lemma span_inv_handle (e : event) (s s' : Chart) :
  span_inv s -> handle e s = Some s' -> span_inv s'.
Proof.
  unfold span_inv. intros (He & Hv & Hp).
  destruct e as [y button|y| | |y deltaY| | |]; simpl; intros Hs.
  - injection Hs as <-. unfold _onMouseDown. destruct (button =? 0)%Z; simpl; auto.
  - unfold _onMouseMove in Hs. destruct (isPanning s) eqn:Ep.
    + destruct (plotH s) as [h|]; [|discriminate].
      destruct (Qeq_bool h 0); [discriminate|]. injection Hs as <-.
      unfold with_view; simpl. specialize (Hp eq_refl).
      split; [exact He|]. split; [lra|]. intros _. exact Hp.
    + injection Hs as <-. simpl. repeat split; auto.
  - injection Hs as <-. simpl. repeat split; auto. discriminate.
  - injection Hs as <-. simpl. repeat split; auto. discriminate.
  - unfold _onWheel in Hs.
    destruct (plotH s) as [h|]; [destruct (plotB s) as [b|]|];
      try (destruct (Qltb y plotT); [injection Hs as <-; auto|discriminate]).
    destruct (Qltb y plotT || Qltb b y); [injection Hs as <-; auto|].
    destruct (Qeq_bool h 0); [discriminate|].
    cbv zeta in Hs.
    destruct (Qltb _ (1 # 2)) eqn:E; injection Hs as <-; auto.
    apply Qltb_ge in E. unfold with_view; simpl. auto.
  - injection Hs as <-. unfold zoomIn. cbv zeta.
    destruct (Qltb _ (1 # 2)) eqn:E; auto.
    apply Qltb_ge in E. unfold with_view; simpl.
    split; [exact He|]. split; [|exact Hp].
    unfold Qdiv in *. change (/ (13 # 10)) with (10 # 13) in *.
    change (/ 2) with (1 # 2) in *. lra.
  - injection Hs as <-. unfold zoomOut, with_view; simpl.
    split; [exact He|]. split; [|exact Hp].
    unfold Qdiv in *. change (/ 2) with (1 # 2) in *. lra.
  - injection Hs as <-. unfold zoomFit, with_view; simpl.
    split; [exact He|]. split; [lra|exact Hp].
Qed.

Lemma span_inv_resize (w h : Z) (s : Chart) : span_inv s -> span_inv (resize w h s).
Proof.
  unfold resize. destruct (_ || _)%Z; [trivial|]. unfold span_inv; simpl. trivial.
Qed.

Lemma span_inv_reachable (s : Chart) : reachable s -> span_inv s.
Proof.
  induction 1 as [|e s s' _ IH _ Hs|hasDepth data w h s s' _ IH _ Hs|w h s _ IH].
  - unfold span_inv; simpl. repeat split; [lra|lra|discriminate].
  - eapply span_inv_handle; eassumption.
  - destruct (setData_fields _ _ _ _ _ _ Hs) as (dmax & Hd & E1 & E2 & E3 & E4 & E5 & E6 & E7).
    destruct (extent_max_covers _ _ _ Hd) as [Hone _].
    destruct IH as (_ & _ & Hp).
    unfold span_inv. rewrite E1, E2, E3, E4, E5, E6, E7.
    split; [lra|]. split; [lra|exact Hp].
  - apply span_inv_resize. exact IH.
Qed.

Lemma sample_cons_0 (x : option value) (depths : list (option value)) (q : Q) :
  sample (x :: depths) 0 q <-> exists v, x = Some v /\ to_number v = Some q.
Proof.
  unfold sample; simpl. split; intros (v & Hv & Hq); exists v; split; congruence.
Qed.

Lemma sample_cons_S (x : option value) (depths : list (option value)) (j : nat) (q : Q) :
  sample (x :: depths) (S j) q <-> sample depths j q.
Proof. unfold sample; simpl. reflexivity. Qed.

Lemma first_nearest_skip (t : Q) (x : option value) (depths : list (option value))
    (k : nat) (q : Q) :
  (forall q', sample (x :: depths) 0 q' -> Qabs (q - t) < Qabs (q' - t)) ->
  first_nearest t depths k q -> first_nearest t (x :: depths) (S k) q.
Proof.
  intros Hx [Hs Hall]. split; [apply sample_cons_S; exact Hs|].
  intros [|j] q' Hj.
  - specialize (Hx q' Hj). split; [lra|intros _; exact Hx].
  - apply sample_cons_S in Hj. destruct (Hall j q' Hj) as [Hle Hlt].
    split; [exact Hle|]. intros Hjk. apply Hlt. lia.
Qed.

Lemma nearest_go_spec (t : Q) (depths : list (option value)) :
  forall (i : nat) (bi : option nat) (bd : option Q),
    (nearest_go t i bi bd depths = bi
     /\ forall j q, sample depths j q -> bounded t bd q)
    \/ (exists k q, nearest_go t i bi bd depths = Some (i + k)%nat
        /\ beats t bd q /\ first_nearest t depths k q).
Proof.
  induction depths as [|x depths IH]; intros i bi bd.
  - left. split; [reflexivity|]. intros j q (v & Hv & _). discriminate.
  - assert (Hskip : (forall q, ~ sample (x :: depths) 0 q) ->
        nearest_go t i bi bd (x :: depths) = nearest_go t (S i) bi bd depths ->
        (nearest_go t i bi bd (x :: depths) = bi
         /\ forall j q, sample (x :: depths) j q -> bounded t bd q)
        \/ (exists k q, nearest_go t i bi bd (x :: depths) = Some (i + k)%nat
            /\ beats t bd q /\ first_nearest t (x :: depths) k q)).
    { intros Hno ->. destruct (IH (S i) bi bd) as [[E Hb]|(k & q & E & Hbeat & Hf)].
      - left. split; [exact E|]. intros [|j] q Hj; [destruct (Hno q Hj)|].
        apply sample_cons_S in Hj. eapply Hb; exact Hj.
      - right. exists (S k), q. split; [rewrite E; f_equal; lia|].
        split; [exact Hbeat|]. apply first_nearest_skip; [|exact Hf].
        intros q' Hq'. destruct (Hno q' Hq'). }
    destruct x as [v|]; cycle 1.
    { apply Hskip; [|reflexivity]. intros q Hq. apply sample_cons_0 in Hq as (v & Hv & _).
      discriminate. }
    destruct (to_number v) as [q0|] eqn:Ev; cycle 1.
    { apply Hskip; [|cbn [nearest_go]; rewrite Ev; reflexivity].
      intros q Hq. apply sample_cons_0 in Hq as (v' & Hv' & Hq). congruence. }
    assert (H0 : forall q', sample (Some v :: depths) 0 q' -> q' = q0).
    { intros q' Hq'. apply sample_cons_0 in Hq' as (v' & Hv' & Hq'). congruence. }
    assert (Hs0 : sample (Some v :: depths) 0 q0).
    { apply sample_cons_0. exists v. split; [reflexivity|exact Ev]. }
    cbn [nearest_go]. rewrite Ev. cbv zeta.
    destruct (match bd with None => true | Some b => Qltb (Qabs (q0 - t)) b end) eqn:Eb.
    + assert (Hbeat0 : beats t bd q0).
      { unfold beats. destruct bd as [b|]; [|trivial]. apply Qltb_lt. exact Eb. }
      right. destruct (IH (S i) (Some i) (Some (Qabs (q0 - t)))) as [[E Hb]|(k & q & E & Hbeat & Hf)].
      * exists 0%nat, q0. split; [rewrite E; f_equal; lia|]. split; [exact Hbeat0|].
        split; [exact Hs0|]. intros [|j] q' Hj.
        -- rewrite (H0 q' Hj). split; [apply Qle_refl|lia].
        -- apply sample_cons_S in Hj. specialize (Hb j q' Hj). cbn [bounded] in Hb.
           split; [exact Hb|lia].
      * exists (S k), q. split; [rewrite E; f_equal; lia|]. cbn [beats] in Hbeat.
        split.
        { unfold beats in Hbeat0 |- *. destruct bd as [b|]; [|trivial]. lra. }
        apply first_nearest_skip; [|exact Hf].
        intros q' Hq'. rewrite (H0 q' Hq'). exact Hbeat.
    + destruct bd as [b|]; [|discriminate]. apply Qltb_ge in Eb.
      destruct (IH (S i) bi (Some b)) as [[E Hb]|(k & q & E & Hbeat & Hf)].
      * left. split; [exact E|]. intros [|j] q' Hj.
        -- rewrite (H0 q' Hj). exact Eb.
        -- apply sample_cons_S in Hj. exact (Hb j q' Hj).
      * right. exists (S k), q. split; [rewrite E; f_equal; lia|].
        split; [exact Hbeat|]. apply first_nearest_skip; [|exact Hf].
        intros q' Hq'. rewrite (H0 q' Hq'). cbn [beats] in Hbeat. lra.
Qed.

Lemma run_moves (ys : list Q) (s : Chart) (h : Q) :
  isPanning s = true -> plotH s = Some h -> ~ h == 0 ->
  forall y, exists s',
    run (map MouseMove ys ++ [MouseMove y]) s = Some s'
    /\ depthViewMin s' = panStartDepthMin s
         - (y - panStartY s) * ((panStartDepthMax s - panStartDepthMin s) / h)
    /\ depthViewMax s' = panStartDepthMax s
         - (y - panStartY s) * ((panStartDepthMax s - panStartDepthMin s) / h)
    /\ isPanning s' = true.
Proof.
  intros Hp Hh Hh0.
  assert (E0 : Qeq_bool h 0 = false).
  { destruct (Qeq_bool h 0) eqn:E; [|reflexivity]. apply Qeq_bool_iff in E. contradiction. }
  revert s Hp Hh. induction ys as [|y1 ys IH]; intros s Hp Hh y.
  - simpl. unfold _onMouseMove. rewrite Hp, Hh, E0. eexists. split; [reflexivity|].
    unfold with_view; simpl. repeat split. exact Hp.
  - simpl. unfold _onMouseMove at 1. rewrite Hp, Hh, E0.
    match goal with |- context [run _ ?s1] =>
      destruct (IH s1) with (y := y) as (s' & Hr & H1 & H2 & H3) end.
    + unfold with_view; simpl. exact Hp.
    + unfold plotH, plotB, with_view in *; simpl. exact Hh.
    + exists s'. split; [exact Hr|]. unfold with_view in *; simpl in *. auto.
Qed.

(** X19. Whatever the user did to the view since a dataset was loaded, the
    fit button shows the full extent of that dataset again: from depth 0
    to the maximum that [setData] computed. *)
Theorem zoomFit_restores_extent (hasDepth : bool) (data : list (gmap string value))
    (w h : Z) (s_before s0 s : Chart) (es : list event) :
  setData hasDepth data w h s_before = Some s0 ->
  run es s0 = Some s ->
  depthViewMin (zoomFit s) = 0
  /\ depthViewMax (zoomFit s) = depthMax s0
  /\ extent_max hasDepth data = Some (depthViewMax (zoomFit s)).
Proof.
  intros Hset Hrun.
  destruct (setData_fields _ _ _ _ _ _ Hset) as (dmax & Hd & E1 & E2 & _).
  destruct (run_extent _ _ _ Hrun) as (Hmin & Hmax & _).
  unfold zoomFit, with_view; simpl. rewrite Hmin, Hmax, E1, E2. auto.
Qed.

Lemma zoomFit_restores_extent_witness :
  match setData true [ {[ "depth" := Num 10 ]} ] 400 600 init with
  | Some s0 =>
      match run [ZoomOut; MouseDown 100 0; MouseMove 200; MouseUp; ZoomIn] s0 with
      | Some s =>
          ~ depthViewMax s == depthMax s0
          /\ depthViewMin (zoomFit s) = 0
          /\ depthViewMax (zoomFit s) = depthMax s0
          /\ extent_max true [ {[ "depth" := Num 10 ]} ] = Some (depthViewMax (zoomFit s))
      | None => False
      end
  | None => False
  end.
Proof.
  destruct (setData true _ 400 600 init) as [s0|] eqn:E0;
    [|vm_compute in E0; discriminate E0].
  destruct (run _ s0) as [s|] eqn:E1.
  - split; [|exact (zoomFit_restores_extent _ _ _ _ _ _ _ _ E0 E1)].
    vm_compute in E0. injection E0 as <-. vm_compute in E1. injection E1 as <-.
    intros E. discriminate E.
  - vm_compute in E0. injection E0 as <-. vm_compute in E1. discriminate E1.
Defined.



(** The events that have a next state are those that do not divide by a
    plot height that is unknown or zero. *)
Lemma handle_defined_iff (e : event) (s : Chart) :
  (reads_plot_height e s -> plot_measured s) <-> is_Some (handle e s).
Proof.
  split.
  - intros Hguard.
    destruct e as [y button|y| | |y deltaY| | |]; simpl in *; eauto.
    + unfold _onMouseMove. destruct (isPanning s) eqn:Ep; [|eauto].
      destruct (Hguard eq_refl) as (h & Hh & Hne). rewrite Hh.
      destruct (Qeq_bool h 0) eqn:E; [apply Qeq_bool_iff in E; contradiction|eauto].
    + unfold _onWheel.
      destruct (plotH s) as [h|] eqn:Eh; [destruct (plotB s) as [b|] eqn:Eb|].
      * destruct (Qltb y plotT || Qltb b y) eqn:G; [eauto|].
        apply orb_false_iff in G as [G1 G2]. apply Qltb_ge in G1, G2.
        destruct (Hguard (conj G1 G2)) as (h' & Hh' & Hne).
        rewrite Eh in Hh'. injection Hh' as <-.
        destruct (Qeq_bool h 0) eqn:E; [apply Qeq_bool_iff in E; contradiction|].
        cbv zeta. destruct (Qltb _ (1 # 2)); eauto.
      * unfold plotH in Eh. rewrite Eb in Eh. discriminate Eh.
      * destruct (Qltb y plotT) eqn:G; [eauto|]. apply Qltb_ge in G.
        assert (Hb : plotB s = None).
        { unfold plotH in Eh. destruct (plotB s); [discriminate Eh|reflexivity]. }
        rewrite Hb in Hguard. destruct (Hguard (conj G I)) as (h' & Hh' & _).
        rewrite Eh in Hh'. discriminate Hh'.
  - intros [s' Hs] Hreads.
    destruct e as [y button|y| | |y deltaY| | |]; simpl in *; try contradiction.
    + unfold _onMouseMove in Hs. rewrite Hreads in Hs.
      destruct (plotH s) as [h|] eqn:Eh; [|discriminate].
      destruct (Qeq_bool h 0) eqn:E; [discriminate|].
      exists h. split; [exact Eh|]. intros F. apply Qeq_bool_iff in F. congruence.
    + destruct Hreads as [G1 G2]. unfold _onWheel in Hs.
      destruct (plotH s) as [h|] eqn:Eh; [destruct (plotB s) as [b|] eqn:Eb|].
      * assert (G : Qltb y plotT || Qltb b y = false).
        { apply orb_false_iff. split; apply Qltb_ge; assumption. }
        rewrite G in Hs.
        destruct (Qeq_bool h 0) eqn:E; [discriminate|].
        exists h. split; [exact Eh|]. intros F. apply Qeq_bool_iff in F. congruence.
      * unfold plotH in Eh. rewrite Eb in Eh. discriminate Eh.
      * assert (G : Qltb y plotT = false) by (apply Qltb_ge; exact G1).
        rewrite G in Hs. discriminate Hs.
Qed.

(** The datasets for which [setData] has a next state are those without
    a depth that is [NaN] or infinite. *)
Lemma setData_defined_iff (hasDepth : bool) (data : list (gmap string value))
    (w h : Z) (s : Chart) :
  finite_depths hasDepth data <-> is_Some (setData hasDepth data w h s).
Proof.
  split; [apply setData_defined|].
  intros [s' Hs].
  destruct (setData_fields _ _ _ _ _ _ Hs) as (dmax & Hd & _).
  destruct (extent_max_covers _ _ _ Hd) as (_ & _ & Hall).
  apply Forall_forall. intros r Hr.
  apply list_elem_of_In in Hr.
  specialize (Hall r).
  unfold row_depth in Hall.
  destruct (if hasDepth then r !! "depth" else r !! "length") as [[| |q|b]|];
    try exact I.
  - destruct (Hall _ Hr eq_refl) as (q & Hq & _). discriminate Hq.
  - destruct (Hall _ Hr eq_refl) as (q & Hq & _). discriminate Hq.
Qed.

(** X21. In every state that the chart reaches from the one set up by the
    constructor, by gestures, buttons, loads and resizes, the visible
    depth range spans at least half a unit, as long as no event divides by
    a plot height that is unknown or zero and no load holds a depth that
    is [NaN] or infinite.  These are exactly the steps that have a next
    state in the model: an event has one if and only if it does not divide
    by such a plot height, and a load if and only if it holds no such
    depth. *)
Theorem view_span_floor :
  (forall s, reachable s -> 1 # 2 <= depthViewMax s - depthViewMin s)
  /\ (forall e s, (reads_plot_height e s -> plot_measured s) <-> is_Some (handle e s))
  /\ (forall hasDepth data w h s,
        finite_depths hasDepth data <-> is_Some (setData hasDepth data w h s)).
Proof.
  split; [|split].
  - intros s Hr. apply span_inv_reachable in Hr. destruct Hr as (_ & Hv & _). exact Hv.
  - apply handle_defined_iff.
  - apply setData_defined_iff.
Qed.

Example view_span_floor_example :
  reachable (zoomIn (zoomIn (resize 400 600 init)))
  /\ 1 # 2 <= depthViewMax (zoomIn (zoomIn (resize 400 600 init)))
              - depthViewMin (zoomIn (zoomIn (resize 400 600 init))).
Proof.
  assert (Hr : reachable (zoomIn (zoomIn (resize 400 600 init)))).
  { apply (reach_event ZoomIn (zoomIn (resize 400 600 init)));
      [|intros []|reflexivity].
    apply (reach_event ZoomIn (resize 400 600 init)); [|intros []|reflexivity].
    apply reach_resize. apply reach_init. }
  split; [exact Hr|]. apply span_inv_reachable in Hr. destruct Hr as (_ & Hv & _). exact Hv.
Qed.

(** X22. [_y2d] and [_d2y] are each other's inverse, as long as the plot has
    a height and the visible range is not empty. *)
Theorem y2d_d2y_round_trip (s : Chart) (h x : Q) :
  ~ h == 0 -> ~ depthViewMax s - depthViewMin s == 0 ->
  _y2d s h (_d2y s h x) == x /\ _d2y s h (_y2d s h x) == x.
Proof.
  intros Hh Hs. unfold _y2d, _d2y. split; field; split; assumption.
Qed.

Lemma y2d_d2y_round_trip_witness :
  _y2d init 568 (_d2y init 568 100) == 100
  /\ _d2y init 568 (_y2d init 568 100) == 100.
Proof.
  apply y2d_d2y_round_trip; simpl; intros E; discriminate E.
Defined.

(** X23. A wheel step zooms about the pointer: the depth under the pointer is
    the same before and after the step. *)
Theorem onWheel_keeps_pointer_depth (y deltaY h : Q) (s s' : Chart) :
  plotH s = Some h ->
  _onWheel y deltaY s = Some s' ->
  plotH s' = Some h /\ _y2d s' h y == _y2d s h y.
Proof.
  intros Hh. unfold _onWheel. rewrite Hh.
  destruct (plotB s) as [b|];
    try (destruct (Qltb y plotT); [intros E; injection E as <-; split; [exact Hh|reflexivity]
                                  |discriminate]).
  destruct (Qltb y plotT || Qltb b y);
    [intros E; injection E as <-; split; [exact Hh|reflexivity]|].
  destruct (Qeq_bool h 0) eqn:E0; [discriminate|].
  assert (Hh0 : ~ h == 0) by (intros E; apply Qeq_bool_iff in E; congruence).
  cbv zeta.
  destruct (Qltb _ (1 # 2));
    intros E; injection E as <-; (split; [exact Hh|]); [reflexivity|].
  unfold _y2d, with_view; simpl.
  set (t := (y - plotT) / h).
  destruct (Qltb 0 deltaY); ring.
Qed.

Lemma onWheel_keeps_pointer_depth_witness :
  match _onWheel 170 (-100) (resize 400 600 init) with
  | Some s' =>
      depthViewMax s' - depthViewMin s' < 30
      /\ plotH s' = Some 568
      /\ _y2d s' 568 170 == _y2d (resize 400 600 init) 568 170
  | None => False
  end.
Proof.
  destruct (_onWheel 170 (-100) (resize 400 600 init)) as [s'|] eqn:E.
  - split; [|apply (onWheel_keeps_pointer_depth 170 (-100) 568 (resize 400 600 init) s' eq_refl E)].
    vm_compute in E. injection E as <-. reflexivity.
  - vm_compute in E. discriminate E.
Defined.

(** X24. Zooming with the buttons keeps the centre of the view; and when
    the visible range spans at least half a unit, zoom-out followed by
    zoom-in gives the view back (in the exact arithmetic of the model). *)
Theorem zoomOut_zoomIn_restores (s : Chart) :
  depthViewMin (zoomOut s) + depthViewMax (zoomOut s) == depthViewMin s + depthViewMax s
  /\ depthViewMin (zoomIn s) + depthViewMax (zoomIn s) == depthViewMin s + depthViewMax s
  /\ (1 # 2 <= depthViewMax s - depthViewMin s ->
      depthViewMin (zoomIn (zoomOut s)) == depthViewMin s
      /\ depthViewMax (zoomIn (zoomOut s)) == depthViewMax s).
Proof.
  split; [unfold zoomOut, with_view; simpl; field|].
  split.
  { unfold zoomIn. cbv zeta. destruct (Qltb _ (1 # 2)); [reflexivity|].
    unfold with_view; simpl. field. }
  intros Hv. unfold zoomIn. cbv zeta.
  destruct (Qltb _ (1 # 2)) eqn:E.
  - apply Qltb_lt in E. unfold zoomOut, with_view in E; simpl in E.
    exfalso. unfold Qdiv in *. change (/ (13 # 10)) with (10 # 13) in *.
    change (/ 2) with (1 # 2) in *. lra.
  - unfold zoomOut, with_view; simpl. split; field.
Qed.

Lemma zoomOut_zoomIn_restores_witness :
  depthViewMin (zoomIn (zoomOut (resize 400 600 init))) == 0
  /\ depthViewMax (zoomIn (zoomOut (resize 400 600 init))) == 30.
Proof.
  apply (proj2 (proj2 (zoomOut_zoomIn_restores (resize 400 600 init)))).
  vm_compute. discriminate.
Defined.

(** X25. While the left button is held, the view depends only on where the
    pointer is now: after any run of moves it is the view of the moment
    the button went down, shifted by the pointer's displacement times the
    depth per pixel of that moment.  So a drag keeps the span, and
    bringing the pointer back restores the view. *)
Theorem pan_follows_pointer (s : Chart) (h y0 y : Q) (ys : list Q) :
  plotH s = Some h -> ~ h == 0 ->
  exists s',
    run (MouseDown y0 0 :: map MouseMove ys ++ [MouseMove y]) s = Some s'
    /\ depthViewMin s' = depthViewMin s
         - (y - y0) * ((depthViewMax s - depthViewMin s) / h)
    /\ depthViewMax s' = depthViewMax s
         - (y - y0) * ((depthViewMax s - depthViewMin s) / h).
Proof.
  intros Hh Hh0.
  destruct (run_moves ys (_onMouseDown y0 0 s) h) with (y := y)
    as (s' & Hr & H1 & H2 & _); [reflexivity|exact Hh|exact Hh0|].
  exists s'. split; [exact Hr|]. split; [exact H1|exact H2].
Qed.

Lemma pan_follows_pointer_witness :
  exists s',
    run (MouseDown 100 0 :: map MouseMove [150; 90] ++ [MouseMove 100])
        (resize 400 600 init) = Some s'
    /\ depthViewMin s' = 0 - (100 - 100) * ((30 - 0) / 568)
    /\ depthViewMax s' = 30 - (100 - 100) * ((30 - 0) / 568).
Proof.
  apply (pan_follows_pointer (resize 400 600 init) 568 100 100 [150; 90]).
  - reflexivity.
  - intros E; discriminate E.
Defined.

(** X26. [_nearest] returns the index of a stored depth that is a number and
    is nearest to the target, the first such index when several are
    equally near; it returns -1 exactly when no stored depth is a
    number. *)
Theorem nearest_is_first_closest (depths : list (option value)) (t : Q) :
  match _nearest depths t with
  | Some i => exists q, first_nearest t depths i q
  | None => forall j q, ~ sample depths j q
  end.
Proof.
  unfold _nearest.
  destruct (nearest_go_spec t depths 0 None None) as [[E Hb]|(k & q & E & _ & Hf)].
  - rewrite E. intros j q Hj. exact (Hb j q Hj).
  - rewrite E. exists q. exact Hf.
Qed.

(** X27. The panels of the layout tile the canvas from left to right with a
    gap of one pixel between neighbours and after the last one, and on a
    canvas at least 52 pixels wide every panel has a positive width. *)
Theorem layout_panels_tile (W Hh : Z) :
  (52 <= W)%Z ->
  let L := _layout W Hh in
  (l (soil L) = depthW L
   /\ l (qc L) = l (soil L) + w (soil L) + 1
   /\ l (fs L) = l (qc L) + w (qc L) + 1
   /\ l (rf L) = l (fs L) + w (fs L) + 1
   /\ l (rf L) + w (rf L) + 1 = W
   /\ 0 < w (soil L) /\ 0 < w (qc L) /\ 0 < w (fs L) /\ 0 < w (rf L))%Z.
Proof.
  intros HW. unfold _layout. cbv zeta. cbn [l w soil qc fs rf depthW].
  destruct (W <? 280)%Z eqn:E; [|apply Z.ltb_ge in E]; repeat split; try lia.
  all: pose proof (Z.mul_div_le ((W - 30 - 14 - 1 * 4) * 45) 100 ltac:(lia));
    pose proof (Z.mul_succ_div_gt ((W - 30 - 14 - 1 * 4) * 45) 100 ltac:(lia));
    pose proof (Z.mul_div_le ((W - 30 - 14 - 1 * 4) * 25) 100 ltac:(lia));
    pose proof (Z.mul_succ_div_gt ((W - 30 - 14 - 1 * 4) * 25) 100 ltac:(lia));
    pose proof (Z.mul_div_le ((W - 42 - 22 - 1 * 4) * 45) 100 ltac:(lia));
    pose proof (Z.mul_succ_div_gt ((W - 42 - 22 - 1 * 4) * 45) 100 ltac:(lia));
    pose proof (Z.mul_div_le ((W - 42 - 22 - 1 * 4) * 25) 100 ltac:(lia));
    pose proof (Z.mul_succ_div_gt ((W - 42 - 22 - 1 * 4) * 25) 100 ltac:(lia));
    lia.
Qed.

Lemma layout_panels_tile_witness :
  let L := _layout 400 600 in
  (l (soil L) = depthW L
   /\ l (qc L) = l (soil L) + w (soil L) + 1
   /\ l (fs L) = l (qc L) + w (qc L) + 1
   /\ l (rf L) = l (fs L) + w (fs L) + 1
   /\ l (rf L) + w (rf L) + 1 = 400
   /\ 0 < w (soil L) /\ 0 < w (qc L) /\ 0 < w (fs L) /\ 0 < w (rf L))%Z.
Proof.
  apply (layout_panels_tile 400 600). lia.
Defined.

End ChartExtra.
(** *** From the rows to the layers, the distribution and the chart *)

Module AppExtra.
Import Robertson Spec App.
Local Open Scope Q_scope.







End AppExtra.
